(** * todo-list: the item store and its persistence adapter (script.js)

    A shallow embedding of [src/script.js].  The program keeps an array of
    todo objects in memory, mirrors it into [localStorage] as JSON text and
    reads it back on start-up.  The browser services the script calls
    ([String.prototype.trim], [Number], [String], [Boolean], [JSON.stringify],
    [JSON.parse], [localStorage], [Date.now]) are modelled in the modules
    [JS] and [JSON]; the functions of the script follow in [Module Script]. *)

From Stdlib Require Import String Ascii List ZArith NArith Bool Lia.
From Stdlib Require Import DecimalPos DecimalN DecimalFacts Sorted.
Import ListNotations.

Local Open Scope N_scope.

(* ================================================================== *)
(** * ECMAScript values the program meets *)
(* ================================================================== *)

Module JS.

(** ** Strings

    A JavaScript string is a sequence of UTF-16 code units. *)

Abbreviation codeunit := N.
Definition jsstring := list codeunit.

(** The code units of an ASCII literal. *)
Definition lit (s : string) : jsstring :=
  map N_of_ascii (list_ascii_of_string s).

(** Code units that have a role in the grammars below. *)
Abbreviation TAB := 9 (only parsing).
Abbreviation LF := 10 (only parsing).
Abbreviation CR := 13 (only parsing).
Abbreviation SPACE := 32 (only parsing).
Abbreviation QUOTE := 34 (only parsing).
Abbreviation PLUS := 43 (only parsing).
Abbreviation COMMA := 44 (only parsing).
Abbreviation MINUS := 45 (only parsing).
Abbreviation DOT := 46 (only parsing).
Abbreviation SLASH := 47 (only parsing).
Abbreviation ZERO := 48 (only parsing).
Abbreviation COLON := 58 (only parsing).
Abbreviation LBRACKET := 91 (only parsing).
Abbreviation BACKSLASH := 92 (only parsing).
Abbreviation RBRACKET := 93 (only parsing).
Abbreviation LBRACE := 123 (only parsing).
Abbreviation RBRACE := 125 (only parsing).

(** JSON text written with apostrophes where the text has its quotes. *)
Definition json_text (s : string) : jsstring :=
  map (fun c => if c =? 39 then 34 else c) (lit s).

Definition string_eqb (a b : jsstring) : bool :=
  if list_eq_dec N.eq_dec a b then true else false.

(** ECMAScript [WhiteSpace] and [LineTerminator] code points, the set
    [String.prototype.trim] strips and [StringToNumber] skips:
    TAB, VT, FF, SP, NBSP, ZWNBSP, the category Zs, LF, CR, LS, PS. *)
Definition is_white_space (c : codeunit) : bool :=
  (c =? 9) || (c =? 10) || (c =? 11) || (c =? 12) || (c =? 13) ||
  (c =? 32) || (c =? 160) || (c =? 5760) ||
  ((8192 <=? c) && (c <=? 8202)) ||
  (c =? 8232) || (c =? 8233) || (c =? 8239) || (c =? 8287) ||
  (c =? 12288) || (c =? 65279).

Fixpoint trimStart (s : jsstring) : jsstring :=
  match s with
  | c :: r => if is_white_space c then trimStart r else s
  | [] => []
  end.

Definition trimEnd (s : jsstring) : jsstring := rev (trimStart (rev s)).

(** [text.trim()] *)
Definition trim (s : jsstring) : jsstring := trimEnd (trimStart s).

(** ** Numbers

    A Number is NaN, an infinity, or a finite value.  A finite value is kept
    as the decimal [m * 10^e]; the canonical form has [m] not divisible by
    ten, and zero is [Finite 0 0].  The arithmetic is exact: the rounding of
    binary64 is outside this model, which agrees with it on every decimal of
    at most fifteen significant digits between 1e-307 and 1e308 in
    magnitude, and so on every [Date.now()] value.  The sign of zero, which
    no operation of the script observes, is not kept. *)
Inductive number : Type :=
| NaN
| Infinity (negative : bool)
| Finite (m e : Z).

Fixpoint strip10 (fuel : nat) (m e : Z) : Z * Z :=
  match fuel with
  | O => (m, e)
  | S fuel' =>
      if (m mod 10 =? 0)%Z then strip10 fuel' (m / 10)%Z (e + 1)%Z else (m, e)
  end.

(** The canonical decimal of [m * 10^e]. *)
Definition normalize (m e : Z) : Z * Z :=
  if (m =? 0)%Z then (0, 0)%Z
  else strip10 (Z.to_nat (Z.log2 (Z.abs m))) m e.

Definition decimal (m e : Z) : number :=
  let (m', e') := normalize m e in Finite m' e'.

Definition canonical (x : number) : Prop :=
  match x with
  | Finite m e => normalize m e = (m, e)
  | _ => True
  end.

Definition isFinite (x : number) : bool :=
  match x with Finite _ _ => true | _ => false end.

(** The canonical form of a Number. *)
Definition canon (x : number) : number :=
  match x with
  | Finite m e => decimal m e
  | _ => x
  end.

(** The Number of an integer, such as a time value. *)
Definition of_Z (z : Z) : number := decimal z 0.

(** [x === y] on Numbers: NaN equals nothing, not even itself. *)
Definition number_strict_eq (x y : number) : bool :=
  match x, y with
  | Infinity a, Infinity b => Bool.eqb a b
  | Finite m e, Finite m' e' =>
      let (a, b) := normalize m e in
      let (a', b') := normalize m' e' in
      (a =? a')%Z && (b =? b')%Z
  | _, _ => false
  end.

(** Decimal digits. *)
Definition is_digit (c : codeunit) : bool := (48 <=? c) && (c <=? 57).

Fixpoint units_of_uint (d : Decimal.uint) : jsstring :=
  match d with
  | Decimal.Nil => []
  | Decimal.D0 d => 48 :: units_of_uint d
  | Decimal.D1 d => 49 :: units_of_uint d
  | Decimal.D2 d => 50 :: units_of_uint d
  | Decimal.D3 d => 51 :: units_of_uint d
  | Decimal.D4 d => 52 :: units_of_uint d
  | Decimal.D5 d => 53 :: units_of_uint d
  | Decimal.D6 d => 54 :: units_of_uint d
  | Decimal.D7 d => 55 :: units_of_uint d
  | Decimal.D8 d => 56 :: units_of_uint d
  | Decimal.D9 d => 57 :: units_of_uint d
  end.

(** The decimal digits of a natural number, most significant first. *)
Definition digits_of_N (n : N) : jsstring := units_of_uint (N.to_uint n).

(** The value of a run of decimal digits, read left to right. *)
Fixpoint digits_value (s : jsstring) (acc : N) : N :=
  match s with
  | [] => acc
  | c :: r => digits_value r (10 * acc + (c - 48))
  end.

(** The longest prefix of digits, and what follows it. *)
Fixpoint span_digits (s : jsstring) : jsstring * jsstring :=
  match s with
  | c :: r =>
      if is_digit c then let (d, r') := span_digits r in (c :: d, r')
      else ([], s)
  | [] => ([], [])
  end.

(** [Number::toString(x)] in radix 10 (ECMA-262, 6.1.6.1.20): with [s] the
    [k] digits of the canonical mantissa and [n = k + e], the four layouts
    are digits then zeros, digits with a point inside, [0.] then zeros then
    digits, and the exponent form. *)
Definition Number_toString (x : number) : jsstring :=
  match x with
  | NaN => lit "NaN"
  | Infinity false => lit "Infinity"
  | Infinity true => lit "-Infinity"
  | Finite m0 e0 =>
      let (m, e) := normalize m0 e0 in
      if (m =? 0)%Z then lit "0" else
      let sign := if (m <? 0)%Z then [MINUS] else [] in
      let s := digits_of_N (Z.abs_N m) in
      let k := Z.of_nat (length s) in
      let n := (k + e)%Z in
      sign ++
      if ((k <=? n) && (n <=? 21))%Z then
        s ++ repeat ZERO (Z.to_nat (n - k))
      else if ((0 <? n) && (n <=? 21))%Z then
        firstn (Z.to_nat n) s ++ [DOT] ++ skipn (Z.to_nat n) s
      else if ((-6 <? n) && (n <=? 0))%Z then
        [ZERO; DOT] ++ repeat ZERO (Z.to_nat (- n)) ++ s
      else
        let ex := (n - 1)%Z in
        let exsign := if (ex <? 0)%Z then MINUS else PLUS in
        let mant := if (k =? 1)%Z then s
                    else firstn 1 s ++ [DOT] ++ skipn 1 s in
        mant ++ [101 (* e *); exsign] ++ digits_of_N (Z.abs_N ex)
  end.

(** The value of a run of digits in radix 2, 8 or 16, or nothing when a
    code unit is not a digit of the radix. *)
Definition radix_digit (radix : N) (c : codeunit) : option N :=
  let v := if is_digit c then Some (c - 48)
           else if (97 <=? c) && (c <=? 102) then Some (c - 87)
           else if (65 <=? c) && (c <=? 70) then Some (c - 55)
           else None in
  match v with
  | Some d => if d <? radix then Some d else None
  | None => None
  end.

Fixpoint radix_value (radix : N) (s : jsstring) (acc : N) : option N :=
  match s with
  | [] => Some acc
  | c :: r =>
      match radix_digit radix c with
      | Some d => radix_value radix r (radix * acc + d)
      | None => None
      end
  end.

(** An optional sign in front of a run of digits. *)
Definition split_sign (s : jsstring) : bool * jsstring :=
  match s with
  | c :: r => if c =? MINUS then (true, r)
              else if c =? PLUS then (false, r) else (false, s)
  | [] => (false, [])
  end.

Definition signed (negative : bool) (n : N) : Z :=
  if negative then (- Z.of_N n)%Z else Z.of_N n.

(** [ExponentPart_opt] at the end of a literal: the exponent, or nothing
    when what is left is not an exponent part. *)
Definition exponent_part (s : jsstring) : option Z :=
  match s with
  | [] => Some 0%Z
  | c :: r =>
      if (c =? 101) || (c =? 69) then
        let (neg, r') := split_sign r in
        let (x, rest) := span_digits r' in
        match x, rest with
        | _ :: _, [] => Some (signed neg (digits_value x 0))
        | _, _ => None
        end
      else None
  end.

(** [StrUnsignedDecimalLiteral], the whole of [s]. *)
Definition unsigned_decimal_literal (negative : bool) (s : jsstring)
  : option number :=
  if string_eqb s (lit "Infinity") then Some (Infinity negative) else
  let (i, r1) := span_digits s in
  let (f, r2) := match r1 with
                 | c :: r => if c =? DOT then span_digits r else ([], r1)
                 | [] => ([], r1)
                 end in
  match i ++ f with
  | [] => None
  | mant =>
      match exponent_part r2 with
      | Some x =>
          Some (decimal (signed negative (digits_value mant 0))
                        (x - Z.of_nat (length f))%Z)
      | None => None
      end
  end.

(** [NonDecimalIntegerLiteral]: [0x], [0o], [0b] and their digits. *)
Definition non_decimal_literal (s : jsstring) : option number :=
  match s with
  | z :: p :: (_ :: _) as ds =>
      if z =? ZERO then
        let radix := if (p =? 120) || (p =? 88) then Some 16
                     else if (p =? 111) || (p =? 79) then Some 8
                     else if (p =? 98) || (p =? 66) then Some 2
                     else None in
        match radix with
        | Some rx =>
            match radix_value rx ds 0 with
            | Some n => Some (of_Z (Z.of_N n))
            | None => None
            end
        | None => None
        end
      else None
  | _ => None
  end.

(** [StringToNumber(str)] (ECMA-262, 7.1.4.1.1): white space around the
    literal is skipped, the empty string is zero, and a string that is not
    a [StrNumericLiteral] is NaN. *)
Definition StringToNumber (str : jsstring) : number :=
  match trim str with
  | [] => of_Z 0
  | text =>
      match non_decimal_literal text with
      | Some x => x
      | None =>
          let r := match text with
                   | c :: r => if c =? MINUS then unsigned_decimal_literal true r
                               else if c =? PLUS then unsigned_decimal_literal false r
                               else unsigned_decimal_literal false text
                   | [] => None
                   end in
          match r with Some x => x | None => NaN end
      end
  end.

(** ** Values read back from JSON text

    [JSON.parse] builds primitives, arrays and plain objects and nothing
    else.  An object is kept as the members of its text in their order; a
    later member of the same name overrides an earlier one.  [undefined],
    which JSON text cannot hold, is [None] in an [option json]. *)
#[local] Unset Elimination Schemes.
Inductive json : Type :=
| JNull
| JBool (b : bool)
| JNumber (x : number)
| JString (s : jsstring)
| JArray (elements : list json)
| JObject (members : list (jsstring * json)).
#[local] Set Elimination Schemes.

Fixpoint lookup (key : jsstring) (members : list (jsstring * json))
  : option json :=
  match members with
  | [] => None
  | (k, v) :: r =>
      match lookup key r with
      | Some v' => Some v'
      | None => if string_eqb k key then Some v else None
      end
  end.

Definition has_own (key : jsstring) (members : list (jsstring * json)) : bool :=
  match lookup key members with Some _ => true | None => false end.

(** [item.key] for the keys the script reads ([id], [text], [completed]),
    which no built-in prototype defines: a TypeError ([None]) on [null], the
    member of an object, [undefined] on everything else. *)
Definition Get (item : json) (key : jsstring) : option (option json) :=
  match item with
  | JNull => None
  | JObject members => Some (lookup key members)
  | _ => Some None
  end.

(** [ToString(v)] for a value that is not [undefined]; [None] is a thrown
    TypeError.  An array is joined with commas, [null] elements giving the
    empty string ([Array.prototype.join]).  A plain object answers
    [[object Object]] through [Object.prototype.toString], unless a member
    named [toString] shadows that method: a member is never callable, and
    [Object.prototype.valueOf] gives back the object, so [ToPrimitive]
    throws. *)
Fixpoint ToString (v : json) : option jsstring :=
  match v with
  | JNull => Some (lit "null")
  | JBool true => Some (lit "true")
  | JBool false => Some (lit "false")
  | JNumber x => Some (Number_toString x)
  | JString s => Some s
  | JArray l =>
      (fix join (l : list json) : option jsstring :=
         match l with
         | [] => Some []
         | x :: r =>
             let element := match x with JNull => Some [] | _ => ToString x end in
             match element with
             | None => None
             | Some e =>
                 match r with
                 | [] => Some e
                 | _ :: _ =>
                     match join r with
                     | Some rest => Some (e ++ COMMA :: rest)
                     | None => None
                     end
                 end
             end
         end) l
  | JObject members =>
      if has_own (lit "toString") members then None
      else Some (lit "[object Object]")
  end.

(** [String(value)] *)
Definition String_ (value : option json) : option jsstring :=
  match value with
  | None => Some (lit "undefined")
  | Some v => ToString v
  end.

(** [Number(value)]: an array or object goes through [ToPrimitive], which
    for the values of JSON text ends in the same string as [ToString]. *)
Definition Number_ (value : option json) : option number :=
  match value with
  | None => Some NaN
  | Some JNull => Some (of_Z 0)
  | Some (JBool true) => Some (of_Z 1)
  | Some (JBool false) => Some (of_Z 0)
  | Some (JNumber x) => Some x
  | Some (JString s) => Some (StringToNumber s)
  | Some v =>
      match ToString v with
      | Some s => Some (StringToNumber s)
      | None => None
      end
  end.

(** [Boolean(value)] *)
Definition Boolean_ (value : option json) : bool :=
  match value with
  | None => false
  | Some JNull => false
  | Some (JBool b) => b
  | Some (JNumber (Finite m _)) => negb (m =? 0)%Z
  | Some (JNumber NaN) => false
  | Some (JNumber (Infinity _)) => true
  | Some (JString s) => match s with [] => false | _ => true end
  | Some (JArray _) => true
  | Some (JObject _) => true
  end.

End JS.

Import JS.

(* ================================================================== *)
(** * JSON text (ECMA-262, 25.5; ECMA-404) *)
(* ================================================================== *)

Module JSON.

(** ** JSON.stringify *)

Definition hex_digit (n : N) : codeunit :=
  if n <? 10 then 48 + n else 87 + n.

(** [UnicodeEscape(C)]: a backslash, [u] and four lowercase hex digits. *)
Definition UnicodeEscape (c : codeunit) : jsstring :=
  [BACKSLASH; 117;
   hex_digit ((c / 4096) mod 16); hex_digit ((c / 256) mod 16);
   hex_digit ((c / 16) mod 16); hex_digit (c mod 16)].

Definition is_leading_surrogate (c : codeunit) : bool :=
  (55296 <=? c) && (c <=? 56319).

Definition is_trailing_surrogate (c : codeunit) : bool :=
  (56320 <=? c) && (c <=? 57343).

(** The characters of [QuoteJSONString]: the short escapes of the table,
    [UnicodeEscape] for the other control characters and for a surrogate
    without its partner, everything else as it is. *)
Fixpoint quote_chars (s : jsstring) : jsstring :=
  match s with
  | [] => []
  | c :: r =>
      if c =? 8 then BACKSLASH :: 98 :: quote_chars r
      else if c =? TAB then BACKSLASH :: 116 :: quote_chars r
      else if c =? LF then BACKSLASH :: 110 :: quote_chars r
      else if c =? 12 then BACKSLASH :: 102 :: quote_chars r
      else if c =? CR then BACKSLASH :: 114 :: quote_chars r
      else if c =? QUOTE then BACKSLASH :: QUOTE :: quote_chars r
      else if c =? BACKSLASH then BACKSLASH :: BACKSLASH :: quote_chars r
      else if c <? 32 then UnicodeEscape c ++ quote_chars r
      else if is_leading_surrogate c then
        match r with
        | c2 :: r2 =>
            if is_trailing_surrogate c2 then c :: c2 :: quote_chars r2
            else UnicodeEscape c ++ quote_chars r
        | [] => UnicodeEscape c
        end
      else if is_trailing_surrogate c then UnicodeEscape c ++ quote_chars r
      else c :: quote_chars r
  end.

Definition QuoteJSONString (s : jsstring) : jsstring :=
  QUOTE :: quote_chars s ++ [QUOTE].

(** The texts of the elements of a list, with commas between them. *)
Section Join.

Context {A : Type} (f : A -> jsstring).

Fixpoint join_commas (l : list A) : jsstring :=
  match l with
  | [] => []
  | x :: r =>
      f x ++ match r with [] => [] | _ :: _ => COMMA :: join_commas r end
  end.

End Join.

(** [JSON.stringify(value)] with no replacer and no indentation.  A Number
    that is not finite is written as [null]. *)
Fixpoint stringify (value : json) : jsstring :=
  match value with
  | JNull => lit "null"
  | JBool true => lit "true"
  | JBool false => lit "false"
  | JNumber x => if isFinite x then Number_toString x else lit "null"
  | JString s => QuoteJSONString s
  | JArray l => LBRACKET :: join_commas stringify l ++ [RBRACKET]
  | JObject m =>
      LBRACE ::
      join_commas
        (fun kv => QuoteJSONString (fst kv) ++ COLON :: stringify (snd kv)) m
      ++ [RBRACE]
  end.

(** The values that JSON text carries as they are: every Number in them is
    finite and in canonical form. *)
Fixpoint clean (value : json) : bool :=
  match value with
  | JNumber (Finite m e) =>
      let (m', e') := normalize m e in ((m' =? m) && (e' =? e))%Z
  | JNumber _ => false
  | JArray l => forallb clean l
  | JObject m => forallb (fun kv => clean (snd kv)) m
  | _ => true
  end.

(** ** JSON.parse *)

(** What a step of the parser gives: a value and the rest of the text, a
    SyntaxError, or nothing because the recursion budget ran out (which
    [parse] below never lets happen, see [parse_value_fuel]). *)
Inductive result (A : Type) : Type :=
| Ok (a : A)
| SyntaxError
| OutOfFuel.
Arguments Ok {A} a.
Arguments SyntaxError {A}.
Arguments OutOfFuel {A}.

Definition bind {A B : Type} (r : result A) (f : A -> result B) : result B :=
  match r with
  | Ok a => f a
  | SyntaxError => SyntaxError
  | OutOfFuel => OutOfFuel
  end.

Notation "x <- r ;; k" := (bind r (fun x => k))
  (at level 61, r at next level, right associativity).
Notation "' p <- r ;; k" := (bind r (fun p => k))
  (at level 61, p pattern, r at next level, right associativity).

(** JSON white space: space, tab, line feed, carriage return. *)
Definition is_ws (c : codeunit) : bool :=
  (c =? SPACE) || (c =? TAB) || (c =? LF) || (c =? CR).

Fixpoint skip_ws (s : jsstring) : jsstring :=
  match s with
  | c :: r => if is_ws c then skip_ws r else s
  | [] => []
  end.

Definition hex_value (c : codeunit) : option N := radix_digit 16 c.

(** The character of a one-letter escape. *)
Definition simple_escape (c : codeunit) : option codeunit :=
  if c =? QUOTE then Some QUOTE
  else if c =? BACKSLASH then Some BACKSLASH
  else if c =? SLASH then Some SLASH
  else if c =? 98 then Some 8
  else if c =? 102 then Some 12
  else if c =? 110 then Some LF
  else if c =? 114 then Some CR
  else if c =? 116 then Some TAB
  else None.

(** A string, from the code unit after its opening quote. *)
Fixpoint parse_string (s : jsstring) : result (jsstring * jsstring) :=
  match s with
  | [] => SyntaxError
  | c :: r =>
      if c =? QUOTE then Ok ([], r)
      else if c <? 32 then SyntaxError
      else if c =? BACKSLASH then
        match r with
        | [] => SyntaxError
        | e :: r' =>
            if e =? 117 then
              match r' with
              | h1 :: h2 :: h3 :: h4 :: r'' =>
                  match hex_value h1, hex_value h2, hex_value h3, hex_value h4 with
                  | Some a, Some b, Some c, Some d =>
                      '(str, rest) <- parse_string r'' ;;
                      Ok ((4096 * a + 256 * b + 16 * c + d) :: str, rest)
                  | _, _, _, _ => SyntaxError
                  end
              | _ => SyntaxError
              end
            else
              match simple_escape e with
              | Some u => '(str, rest) <- parse_string r' ;; Ok (u :: str, rest)
              | None => SyntaxError
              end
        end
      else '(str, rest) <- parse_string r ;; Ok (c :: str, rest)
  end.

(** The integer part of a number: a single zero, or digits that do not
    start with zero. *)
Definition parse_int (s : jsstring) : result (jsstring * jsstring) :=
  match s with
  | c :: r =>
      if c =? ZERO then Ok ([ZERO], r)
      else if is_digit c then Ok (span_digits s)
      else SyntaxError
  | [] => SyntaxError
  end.

(** The optional fraction: a point and at least one digit. *)
Definition parse_frac (s : jsstring) : result (jsstring * jsstring) :=
  match s with
  | c :: r =>
      if c =? DOT then
        match span_digits r with
        | ([], _) => SyntaxError
        | (f, r') => Ok (f, r')
        end
      else Ok ([], s)
  | [] => Ok ([], s)
  end.

(** The optional exponent: [e] or [E], an optional sign, at least one
    digit. *)
Definition parse_exp (s : jsstring) : result (Z * jsstring) :=
  match s with
  | c :: r =>
      if (c =? 101) || (c =? 69) then
        let (eneg, r') := split_sign r in
        match span_digits r' with
        | ([], _) => SyntaxError
        | (x, r'') => Ok (signed eneg (digits_value x 0), r'')
        end
      else Ok (0%Z, s)
  | [] => Ok (0%Z, s)
  end.

(** A number after its optional minus sign. *)
Definition parse_unsigned (negative : bool) (s : jsstring)
  : result (number * jsstring) :=
  '(int, r1) <- parse_int s ;;
  '(frac, r2) <- parse_frac r1 ;;
  '(ex, r3) <- parse_exp r2 ;;
  Ok (decimal (signed negative (digits_value (int ++ frac) 0))
              (ex - Z.of_nat (length frac))%Z, r3).

(** A number: an optional minus, an integer without leading zeros, an
    optional fraction and an optional exponent. *)
Definition parse_number (s : jsstring) : result (number * jsstring) :=
  match s with
  | c :: r => if c =? MINUS then parse_unsigned true r
              else parse_unsigned false s
  | [] => SyntaxError
  end.

(** The three literal names. *)
Definition parse_literal (s : jsstring) : result (json * jsstring) :=
  match s with
  | 110 :: 117 :: 108 :: 108 :: r => Ok (JNull, r)
  | 116 :: 114 :: 117 :: 101 :: r => Ok (JBool true, r)
  | 102 :: 97 :: 108 :: 115 :: 101 :: r => Ok (JBool false, r)
  | _ => SyntaxError
  end.

(** A value at the head of [s], which does not start with white space; the
    elements of an array after its bracket; the members of an object after
    its brace. *)
Fixpoint parse_value (fuel : nat) (s : jsstring) {struct fuel}
  : result (json * jsstring) :=
  match fuel with
  | O => OutOfFuel
  | S fuel' =>
      match s with
      | [] => SyntaxError
      | c :: r =>
          if c =? LBRACKET then
            match skip_ws r with
            | c' :: r' =>
                if c' =? RBRACKET then Ok (JArray [], r')
                else '(l, rest) <- parse_elements fuel' (c' :: r') ;;
                     Ok (JArray l, rest)
            | [] => SyntaxError
            end
          else if c =? LBRACE then
            match skip_ws r with
            | c' :: r' =>
                if c' =? RBRACE then Ok (JObject [], r')
                else '(m, rest) <- parse_members fuel' (c' :: r') ;;
                     Ok (JObject m, rest)
            | [] => SyntaxError
            end
          else if c =? QUOTE then
            '(str, rest) <- parse_string r ;; Ok (JString str, rest)
          else if (c =? MINUS) || is_digit c then
            '(x, rest) <- parse_number s ;; Ok (JNumber x, rest)
          else parse_literal s
      end
  end
with parse_elements (fuel : nat) (s : jsstring) {struct fuel}
  : result (list json * jsstring) :=
  match fuel with
  | O => OutOfFuel
  | S fuel' =>
      '(v, r) <- parse_value fuel' s ;;
      match skip_ws r with
      | c :: r' =>
          if c =? COMMA then
            '(l, rest) <- parse_elements fuel' (skip_ws r') ;;
            Ok (v :: l, rest)
          else if c =? RBRACKET then Ok ([v], r')
          else SyntaxError
      | [] => SyntaxError
      end
  end
with parse_members (fuel : nat) (s : jsstring) {struct fuel}
  : result (list (jsstring * json) * jsstring) :=
  match fuel with
  | O => OutOfFuel
  | S fuel' =>
      match s with
      | c :: r =>
          if c =? QUOTE then
            '(k, r1) <- parse_string r ;;
            match skip_ws r1 with
            | c1 :: r2 =>
                if c1 =? COLON then
                  '(v, r3) <- parse_value fuel' (skip_ws r2) ;;
                  match skip_ws r3 with
                  | c3 :: r4 =>
                      if c3 =? COMMA then
                        '(m, rest) <- parse_members fuel' (skip_ws r4) ;;
                        Ok ((k, v) :: m, rest)
                      else if c3 =? RBRACE then Ok ([(k, v)], r4)
                      else SyntaxError
                  | [] => SyntaxError
                  end
                else SyntaxError
            | [] => SyntaxError
            end
          else SyntaxError
      | [] => SyntaxError
      end
  end.

(** [JSON.parse(text)] with no reviver: the value of the whole text, or
    [None] for a thrown SyntaxError. *)
Definition parse (text : jsstring) : option json :=
  match parse_value (2 * length text + 1) (skip_ws text) with
  | Ok (v, rest) => match skip_ws rest with [] => Some v | _ :: _ => None end
  | _ => None
  end.

(** ** Notions for reading back what [stringify] writes *)

(** Where a run of digits stops. *)
Definition digits_end (rest : jsstring) : Prop :=
  match rest with
  | [] => True
  | c :: _ => is_digit c = false
  end.

(** What may follow a number in JSON text: nothing that could continue
    it. *)
Definition number_end (rest : jsstring) : Prop :=
  match rest with
  | [] => True
  | c :: _ => is_digit c = false /\ c <> DOT /\ c <> 101 /\ c <> 69
  end.

(** The first code unit of a value's text. *)
Definition value_start (c : codeunit) : bool :=
  (c =? 110) || (c =? 116) || (c =? 102) || (c =? QUOTE) ||
  (c =? LBRACKET) || (c =? LBRACE) || (c =? MINUS) || is_digit c.

(** The text of a member of an object. *)
Definition member_text (kv : jsstring * json) : jsstring :=
  QuoteJSONString (fst kv) ++ COLON :: stringify (snd kv).

(** What the induction carries for a value: a budget with which its text,
    followed by anything that ends a number, is read back. *)
Definition reads_back (v : json) : Prop :=
  exists fuel, forall rest,
    number_end rest -> parse_value fuel (stringify v ++ rest) = Ok (v, rest).

End JSON.


(* ================================================================== *)
(** * script.js *)
(* ================================================================== *)

Module Script.

(** Each todo is an object [{ id, text, completed }].  Every object the
    script makes (in [addTodo], in [toggleTodoCompleted], in
    [loadTodosFromStorage]) has these three members in this order, a Number,
    a string and a boolean. *)
Record todo : Type := { id : number; text : jsstring; completed : bool }.

(** An [<li>] of the list: the empty-state line, or [createTodoElement(todo)],
    whose class, [data-id], checkbox and text are those of [todo] and whose
    handlers call [toggleTodoCompleted(todo.id)] and [deleteTodo(todo.id)]. *)
Inductive li : Type :=
| EmptyItem (textContent : jsstring)
| TodoElement (t : todo).

(** A [.filter-button]. *)
Record button : Type :=
  { data_filter : option jsstring; active : bool; aria_pressed : jsstring }.

(** [const STORAGE_KEY] *)
Definition STORAGE_KEY : jsstring := lit "todo_list_items_v1".

(** A Storage object: its entries by key, and whether it takes a value
    under a key.  [setItem] throws a QuotaExceededError when it does not.
    The script writes one key and removes nothing, and nothing else writes
    to the store here, so with the entries of the other keys as they
    stand, whether a text fits is a matter of the key and the text. *)
Record Storage : Type :=
  { entries : jsstring -> option jsstring;
    accepts : jsstring -> jsstring -> bool }.

(** The variables of the script and what it touches of the page and of the
    browser.  [setItem_calls] lists the keys and values handed to
    [localStorage.setItem], the latest first; [console] lists the messages
    of [console.error]. *)
Record world : Type :=
  { todos : list todo;
    currentFilter : jsstring;
    localStorage : Storage;
    setItem_calls : list (jsstring * jsstring);
    console : list jsstring;
    todoMessage : jsstring;
    todoInput : jsstring;
    todoCount : jsstring;
    todoList : list li;
    filterButtons : list button }.

Definition set_todos (l : list todo) (w : world) : world :=
  {| todos := l; currentFilter := currentFilter w;
     localStorage := localStorage w; setItem_calls := setItem_calls w;
     console := console w; todoMessage := todoMessage w;
     todoInput := todoInput w; todoCount := todoCount w;
     todoList := todoList w; filterButtons := filterButtons w |}.

Definition set_currentFilter (f : jsstring) (w : world) : world :=
  {| todos := todos w; currentFilter := f;
     localStorage := localStorage w; setItem_calls := setItem_calls w;
     console := console w; todoMessage := todoMessage w;
     todoInput := todoInput w; todoCount := todoCount w;
     todoList := todoList w; filterButtons := filterButtons w |}.

(** [localStorage.getItem(key)]; [None] is [null]. *)
Definition localStorage_getItem (key : jsstring) (w : world) : option jsstring :=
  entries (localStorage w) key.

(** How a call ends: it returns a value ([None] is [undefined]) or it
    throws, and either way it leaves the page and the variables in some
    state.  No function of the script catches what [setItem] throws, so an
    exception ends the listener that made the call. *)
Inductive completion : Type :=
| Normal (value : option json) (w : world)
| Throw (w : world).

(** The page after a call, returned or thrown: what the next listener
    finds. *)
Definition world_of (c : completion) : world :=
  match c with
  | Normal _ w => w
  | Throw w => w
  end.
Coercion world_of : completion >-> world.

(** A call, then the statements after it: they run when the call returns,
    and are skipped when it throws. *)
Definition then_ (c : completion) (rest : world -> completion) : completion :=
  match c with
  | Normal _ w => rest w
  | Throw w => Throw w
  end.
Notation "c >> rest" := (then_ c rest) (at level 62, left associativity).

Definition set_localStorage (store : Storage) (w : world) : world :=
  {| todos := todos w; currentFilter := currentFilter w;
     localStorage := store; setItem_calls := setItem_calls w;
     console := console w; todoMessage := todoMessage w;
     todoInput := todoInput w; todoCount := todoCount w;
     todoList := todoList w; filterButtons := filterButtons w |}.

(** [localStorage.setItem(key, value)]: the call is made, and the entry is
    set when the store takes the value; otherwise the call throws and the
    entries stay as they were. *)
Definition localStorage_setItem (key value : jsstring) (w : world) : completion :=
  let called :=
    {| todos := todos w; currentFilter := currentFilter w;
       localStorage := localStorage w;
       setItem_calls := (key, value) :: setItem_calls w;
       console := console w; todoMessage := todoMessage w;
       todoInput := todoInput w; todoCount := todoCount w;
       todoList := todoList w; filterButtons := filterButtons w |} in
  if accepts (localStorage w) key value then
    Normal None
      (set_localStorage
         {| entries := fun k => if string_eqb k key then Some value
                                else entries (localStorage w) k;
            accepts := accepts (localStorage w) |} called)
  else Throw called.

Definition console_error (message : jsstring) (w : world) : world :=
  {| todos := todos w; currentFilter := currentFilter w;
     localStorage := localStorage w; setItem_calls := setItem_calls w;
     console := message :: console w; todoMessage := todoMessage w;
     todoInput := todoInput w; todoCount := todoCount w;
     todoList := todoList w; filterButtons := filterButtons w |}.

Definition set_todoInput (value : jsstring) (w : world) : world :=
  {| todos := todos w; currentFilter := currentFilter w;
     localStorage := localStorage w; setItem_calls := setItem_calls w;
     console := console w; todoMessage := todoMessage w;
     todoInput := value; todoCount := todoCount w;
     todoList := todoList w; filterButtons := filterButtons w |}.

Definition set_todoCount (textContent : jsstring) (w : world) : world :=
  {| todos := todos w; currentFilter := currentFilter w;
     localStorage := localStorage w; setItem_calls := setItem_calls w;
     console := console w; todoMessage := todoMessage w;
     todoInput := todoInput w; todoCount := textContent;
     todoList := todoList w; filterButtons := filterButtons w |}.

Definition set_todoList (children : list li) (w : world) : world :=
  {| todos := todos w; currentFilter := currentFilter w;
     localStorage := localStorage w; setItem_calls := setItem_calls w;
     console := console w; todoMessage := todoMessage w;
     todoInput := todoInput w; todoCount := todoCount w;
     todoList := children; filterButtons := filterButtons w |}.

Definition set_filterButtons (bs : list button) (w : world) : world :=
  {| todos := todos w; currentFilter := currentFilter w;
     localStorage := localStorage w; setItem_calls := setItem_calls w;
     console := console w; todoMessage := todoMessage w;
     todoInput := todoInput w; todoCount := todoCount w;
     todoList := todoList w; filterButtons := bs |}.

(** Statements run one after the other. *)
Definition action := world -> world.
Notation "f ;; g" := (fun w : world => g (f w))
  (at level 61, right associativity).

(** The todos array as [JSON.stringify] sees it. *)
Definition todo_value (t : todo) : json :=
  JObject [(lit "id", JNumber (id t));
           (lit "text", JString (text t));
           (lit "completed", JBool (completed t))].

(** [saveTodosToStorage()]; it throws when [setItem] does. *)
Definition saveTodosToStorage : world -> completion :=
  fun w =>
    localStorage_setItem STORAGE_KEY
      (JSON.stringify (JArray (map todo_value (todos w)))) w.

(** The callback of [parsed.map] in [loadTodosFromStorage]; [None] is an
    exception thrown while the object literal is evaluated. *)
Definition load_item (item : json) : option todo :=
  match Get item (lit "id") with
  | None => None
  | Some item_id =>
      match Number_ item_id with
      | None => None
      | Some i =>
          match Get item (lit "text") with
          | None => None
          | Some item_text =>
              match String_ item_text with
              | None => None
              | Some t =>
                  match Get item (lit "completed") with
                  | None => None
                  | Some item_completed =>
                      Some {| id := i; text := t;
                              completed := Boolean_ item_completed |}
                  end
              end
          end
      end
  end.

(** [parsed.map(callback)]: the results in order, or the first exception. *)
Fixpoint Array_map (callback : json -> option todo) (parsed : list json)
  : option (list todo) :=
  match parsed with
  | [] => Some []
  | item :: rest =>
      match callback item with
      | None => None
      | Some t =>
          match Array_map callback rest with
          | None => None
          | Some ts => Some (t :: ts)
          end
      end
  end.

(** [loadTodosFromStorage()]: every exception inside the [try] ends in the
    [catch], which reports it and empties the array. *)
Definition loadTodosFromStorage : action :=
  fun w =>
    let catch := console_error (lit "Failed to parse saved todos:") ;; set_todos [] in
    match localStorage_getItem STORAGE_KEY w with
    | None => set_todos [] w
    | Some [] => set_todos [] w
    | Some saved =>
        match JSON.parse saved with
        | None => catch w
        | Some (JArray parsed) =>
            match Array_map load_item parsed with
            | Some l => set_todos l w
            | None => catch w
            end
        | Some _ => set_todos [] w
        end
    end.

(** The three numbers of [updateTodoCounter]: total, pending, completed. *)
Definition counts (l : list todo) : nat * nat * nat :=
  let total := length l in
  let pending := length (filter (fun todo => negb (completed todo)) l) in
  let completed := length (filter (fun todo => completed todo) l) in
  (total, pending, completed).

Definition nat_text (n : nat) : jsstring :=
  Number_toString (of_Z (Z.of_nat n)).

(** The summary text of the counter. *)
Definition counter_text (l : list todo) : jsstring :=
  let '(total, pending, completed) := counts l in
  lit "Total: " ++ nat_text total ++ lit " | Pending: " ++
  nat_text pending ++ lit " | Completed: " ++ nat_text completed.

(** [updateTodoCounter()] *)
Definition updateTodoCounter : action :=
  fun w => set_todoCount (counter_text (todos w)) w.

(** [setTodoMessage(message)] *)
Definition setTodoMessage (message : jsstring) : action :=
  fun w =>
    {| todos := todos w; currentFilter := currentFilter w;
       localStorage := localStorage w; setItem_calls := setItem_calls w;
       console := console w; todoMessage := message;
       todoInput := todoInput w; todoCount := todoCount w;
       todoList := todoList w; filterButtons := filterButtons w |}.

(** [resetInput()] *)
Definition resetInput : action := set_todoInput [].

(** [createTodoElement(todo)] *)
Definition createTodoElement (t : todo) : li := TodoElement t.

(** [getFilteredTodos()] *)
Definition getFilteredTodos (w : world) : list todo :=
  if string_eqb (currentFilter w) (lit "pending") then
    filter (fun todo => negb (completed todo)) (todos w)
  else if string_eqb (currentFilter w) (lit "completed") then
    filter (fun todo => completed todo) (todos w)
  else todos w.

(** [renderTodos()] *)
Definition renderTodos : action :=
  fun w =>
    let visibleTodos := getFilteredTodos w in
    match visibleTodos with
    | [] =>
        let emptyMessage :=
          if string_eqb (currentFilter w) (lit "pending") then
            lit "No pending tasks " ++ [240; 376; 381; 8240]
          else if string_eqb (currentFilter w) (lit "completed") then
            lit "No completed tasks yet."
          else lit "No tasks yet. Add your first todo." in
        set_todoList [EmptyItem emptyMessage] w
    | _ :: _ => set_todoList (map createTodoElement visibleTodos) w
    end.

(** [addTodo(text)]; [now] is what [Date.now()] answers during the call, a
    whole number of milliseconds. *)
Definition addTodo (now : Z) (text_ : jsstring) : world -> completion :=
  fun w =>
    let trimmedText := trim text_ in
    match trimmedText with
    | [] =>
        Normal None (setTodoMessage (lit "Please enter a todo before adding.") w)
    | _ :: _ =>
        let newTodo := {| id := of_Z now; text := trimmedText;
                          completed := false |} in
        saveTodosToStorage (set_todos (todos w ++ [newTodo]) w) >>
        (renderTodos ;;
         updateTodoCounter ;;
         setTodoMessage [] ;;
         resetInput ;;
         Normal None)
    end.

(** The callback of [todos.map] in [toggleTodoCompleted]: a copy of the
    todo with [completed] negated when the ids are strictly equal. *)
Definition toggled (id_ : number) (t : todo) : todo :=
  if number_strict_eq (id t) id_
  then {| id := id t; text := text t; completed := negb (completed t) |}
  else t.

(** [toggleTodoCompleted(id)] *)
Definition toggleTodoCompleted (id_ : number) : world -> completion :=
  fun w =>
    saveTodosToStorage (set_todos (map (toggled id_) (todos w)) w) >>
    (renderTodos ;;
     updateTodoCounter ;;
     Normal None).

(** [deleteTodo(id)] *)
Definition deleteTodo (id_ : number) : world -> completion :=
  fun w =>
    saveTodosToStorage
      (set_todos
         (filter (fun todo => negb (number_strict_eq (id todo) id_)) (todos w))
         w) >>
    (renderTodos ;;
     updateTodoCounter ;;
     Normal None).

(** [setFilter(filter)] *)
Definition setFilter (filter_ : jsstring) : action :=
  set_currentFilter filter_ ;;
  (fun w =>
     set_filterButtons
       (map (fun b =>
               let isActive :=
                 match data_filter b with
                 | Some buttonFilter => string_eqb buttonFilter filter_
                 | None => false
                 end in
               {| data_filter := data_filter b; active := isActive;
                  aria_pressed := if isActive then lit "true" else lit "false" |})
            (filterButtons w)) w) ;;
  renderTodos.

(** [handleFormSubmit(event)] *)
Definition handleFormSubmit (now : Z) : world -> completion :=
  fun w => addTodo now (todoInput w) w >> Normal None.

(** [init()] *)
Definition init : action :=
  loadTodosFromStorage ;; updateTodoCounter ;; renderTodos.

(** The intents the page sends to the store, and a run of them.  Each
    intent is a call from a listener of its own: when the call throws, that
    listener ends there, and the next intent finds the page as it was
    left. *)
Inductive intent : Type :=
| Add (now : Z) (text_ : jsstring)
| Toggle (id_ : number)
| Delete (id_ : number).

Definition perform (i : intent) : action :=
  fun w =>
    match i with
    | Add now text_ => world_of (addTodo now text_ w)
    | Toggle id_ => world_of (toggleTodoCompleted id_ w)
    | Delete id_ => world_of (deleteTodo id_ w)
    end.

Fixpoint run (intents : list intent) (w : world) : world :=
  match intents with
  | [] => w
  | i :: rest => run rest (perform i w)
  end.

(** The three filters of the page and their names in [data-filter]. *)
Inductive Filter : Type := All | Pending | Completed.

Definition filter_name (f : Filter) : jsstring :=
  match f with
  | All => lit "all"
  | Pending => lit "pending"
  | Completed => lit "completed"
  end.

Definition passes (f : Filter) (t : todo) : bool :=
  match f with
  | All => true
  | Pending => negb (completed t)
  | Completed => completed t
  end.

(** What [loadTodosFromStorage] makes of one element of the parsed array
    when nothing throws: each field is the coercion of the property of that
    name, a missing [text] reads [undefined] and an empty one stays empty. *)
Definition coerced (item : json) (t : todo) : Prop :=
  exists item_id item_text item_completed,
    Get item (lit "id") = Some item_id /\
    Number_ item_id = Some (id t) /\
    Get item (lit "text") = Some item_text /\
    String_ item_text = Some (text t) /\
    Get item (lit "completed") = Some item_completed /\
    completed t = Boolean_ item_completed /\
    (item_text = None -> text t = lit "undefined") /\
    (item_text = Some (JString []) -> text t = []).



(** A page freshly opened on an empty store. *)
Definition fresh : world :=
  {| todos := []; currentFilter := lit "all";
     localStorage := {| entries := fun _ => None; accepts := fun _ _ => true |};
     setItem_calls := []; console := []; todoMessage := [];
     todoInput := []; todoCount := []; todoList := [];
     filterButtons :=
       map (fun f => {| data_filter := Some (filter_name f); active := false;
                        aria_pressed := lit "false" |})
           [All; Pending; Completed] |}.

(** ** The listeners

    What the page does on an event, through the listeners that [init] and
    [createTodoElement] attach: the user edits the text field; the form is
    submitted ([handleFormSubmit], with the clock reading of that moment);
    the checkbox or the delete button of the [n]-th [<li>] of the list is
    used, which calls [toggleTodoCompleted(todo.id)] or [deleteTodo(todo.id)]
    for the todo the element was made from (the empty-state line has no
    listener); a filter button whose [data-filter] is [filter_] is
    clicked.  When the call of a listener throws, the listener ends there
    and the next event finds the page as it was left. *)
Inductive event : Type :=
| InputText (value : jsstring)
| SubmitForm (now : Z)
| ChangeCheckbox (n : nat)
| ClickDelete (n : nat)
| ClickFilter (filter_ : jsstring).

Definition dispatch (e : event) : action :=
  fun w =>
    match e with
    | InputText value => set_todoInput value w
    | SubmitForm now => world_of (handleFormSubmit now w)
    | ChangeCheckbox n =>
        match nth_error (todoList w) n with
        | Some (TodoElement t) => world_of (toggleTodoCompleted (id t) w)
        | _ => w
        end
    | ClickDelete n =>
        match nth_error (todoList w) n with
        | Some (TodoElement t) => world_of (deleteTodo (id t) w)
        | _ => w
        end
    | ClickFilter filter_ => setFilter filter_ w
    end.

Fixpoint session (events : list event) (w : world) : world :=
  match events with
  | [] => w
  | e :: rest => session rest (dispatch e w)
  end.

(** ** What the script keeps true *)

(** The store holds the text of the array in memory. *)
Definition stored (w : world) : Prop :=
  localStorage_getItem STORAGE_KEY w =
    Some (JSON.stringify (JArray (map todo_value (todos w)))).

(** The list on the page is what [renderTodos] would draw now. *)
Definition rendered (w : world) : Prop :=
  todoList w = todoList (renderTodos w).

(** The counter on the page is the summary of the array in memory. *)
Definition counted (w : world) : Prop :=
  todoCount w = counter_text (todos w).

(** The store has room for the text of an array; and for the text of every
    array. *)
Definition takes (w : world) (l : list todo) : Prop :=
  accepts (localStorage w) STORAGE_KEY
    (JSON.stringify (JArray (map todo_value l))) = true.

Definition roomy (w : world) : Prop := forall l, takes w l.

(** No write of an event is refused: the event makes no [setItem] call, or
    the store has room for the array that the event leaves; and the same
    for every event of a sequence. *)
Definition unrefused (e : event) (w : world) : Prop :=
  setItem_calls (dispatch e w) = setItem_calls w \/
  takes w (todos (dispatch e w)).

Fixpoint all_unrefused (events : list event) (w : world) : Prop :=
  match events with
  | [] => True
  | e :: rest => unrefused e w /\ all_unrefused rest (dispatch e w)
  end.

(** A store that has no room left for anything. *)
Definition full (w : world) : world :=
  set_localStorage
    {| entries := entries (localStorage w); accepts := fun _ _ => false |} w.

(** How many items of an array have a given completed flag, counted one by
    one. *)
Fixpoint how_many (flag : bool) (l : list todo) : nat :=
  match l with
  | [] => 0
  | t :: rest =>
      (if Bool.eqb (completed t) flag then 1 else 0) + how_many flag rest
  end.

Definition isNaN (x : number) : bool :=
  match x with NaN => true | _ => false end.

(** An intent that changes the array or at least writes it: every one but
    an [Add] of blank text. *)
Definition effective (i : intent) : bool :=
  match i with
  | Add _ text_ => match trim text_ with [] => false | _ :: _ => true end
  | _ => true
  end.

(** A todo as it comes back from the store: a finite id in canonical form,
    any other id as 0. *)
Definition reloaded (t : todo) : todo :=
  {| id := if isFinite (id t) then canon (id t) else of_Z 0;
     text := text t; completed := completed t |}.

(** The value that the text of a todo parses to. *)
Definition reloaded_value (t : todo) : json :=
  JObject [(lit "id", if isFinite (id t) then JNumber (canon (id t)) else JNull);
           (lit "text", JString (text t));
           (lit "completed", JBool (completed t))].

(** A text as [addTodo] stores it: not empty, no white space at its ends. *)
Definition trimmed (s : jsstring) : Prop := s <> [] /\ trim s = s.

(** The ids are clock readings in strictly increasing order, all before
    [bound]. *)
Definition clocked (bound : Z) (l : list todo) : Prop :=
  exists zs, map id l = map of_Z zs /\
             StronglySorted Z.lt zs /\ Forall (fun z => (z < bound)%Z) zs.

(** The clock readings of the [Add] intents of a run never go back: each is
    later than the one before, and none is before [t0]. *)
Fixpoint chronological (t0 : Z) (intents : list intent) : Prop :=
  match intents with
  | [] => True
  | Add now _ :: rest => (t0 <= now)%Z /\ chronological (now + 1) rest
  | _ :: rest => chronological t0 rest
  end.

(** The same for the submits of a sequence of events. *)
Fixpoint punctual (t0 : Z) (events : list event) : Prop :=
  match events with
  | [] => True
  | SubmitForm now :: rest => (t0 <= now)%Z /\ punctual (now + 1) rest
  | _ :: rest => punctual t0 rest
  end.

(** What [setFilter] makes of a button. *)
Definition pressed (filter_ : jsstring) (b : button) : Prop :=
  (active b = true <-> data_filter b = Some filter_) /\
  aria_pressed b = (if active b then lit "true" else lit "false").

End Script.

Import Script.

(* ================================================================== *)
(** * The model at work *)
(* ================================================================== *)

Section Samples.

Local Open Scope string_scope.

Example Number_toString_samples :
  map Number_toString
      [of_Z 1700000000000; decimal 15 20; decimal 15 (-1); decimal (-15) (-8);
       decimal 1 21; decimal 1 20; decimal 12 (-7); decimal 5 (-7); of_Z 0;
       Finite 100 0; NaN; Infinity true]
  = map lit
      ["1700000000000"; "1.5e+21"; "1.5"; "-1.5e-7";
       "1e+21"; "100000000000000000000"; "0.0000012"; "5e-7"; "0";
       "100"; "NaN"; "-Infinity"].
Proof. reflexivity. Qed.

Example StringToNumber_samples :
  map (fun s => StringToNumber (lit s))
      [" 12 "; "0x1F"; "-0"; "+.5e1"; "5."; "."; "1e"; ""; "12px";
       "-Infinity"; "0012"; "0b102"; "1,2"; "[object Object]"]
  = [of_Z 12; of_Z 31; of_Z 0; of_Z 5; of_Z 5; NaN; NaN; of_Z 0; NaN;
     Infinity true; of_Z 12; NaN; NaN; NaN].
Proof. reflexivity. Qed.

Example JSON_stringify_sample :
  JSON.stringify
    (JArray [todo_value {| id := of_Z 17; text := (lit "a" ++ [9; 34; 55357]%N)%list;
                           completed := false |};
             todo_value {| id := NaN; text := []; completed := true |}])
  = json_text
      "[{'id':17,'text':'a\t\'\ud83d','completed':false},{'id':null,'text':'','completed':true}]".
Proof. reflexivity. Qed.

Example JSON_parse_samples :
  map (fun s => JSON.parse (json_text s))
      [" [1, 2.50 ,-3e2 ] "; "[1,]"; "01"; "1."; "{'a':[],'a':{}}"; " null ";
       "nul"; "[null]"; "'A\n\/'"; "[1 2]"; ""; "{'a' 1}"]
  = [Some (JArray [JNumber (of_Z 1); JNumber (decimal 25 (-1));
                   JNumber (of_Z (-300))]);
     None; None; None;
     Some (JObject [(lit "a", JArray []); (lit "a", JObject [])]);
     Some JNull; None; Some (JArray [JNull]);
     Some (JString [65; 10; 47]%N); None; None; None].
Proof. reflexivity. Qed.

Example load_samples :
  map (fun s => todos (loadTodosFromStorage
                         (localStorage_setItem STORAGE_KEY (json_text s) fresh)))
      ["[{'id':'12','text':5,'completed':1}]";
       "[7,'x',[],{}]";
       "[{'id':3,'text':''},null]";
       "[{'text':{'toString':1}}]";
       "{'id':1}";
       "[{'id':[5],'text':[1,[2,null]],'completed':'false'}]"]
  = [[{| id := of_Z 12; text := lit "5"; completed := true |}];
     [{| id := NaN; text := lit "undefined"; completed := false |};
      {| id := NaN; text := lit "undefined"; completed := false |};
      {| id := NaN; text := lit "undefined"; completed := false |};
      {| id := NaN; text := lit "undefined"; completed := false |}];
     []; []; [];
     [{| id := of_Z 5; text := lit "1,2,"; completed := true |}]].
Proof. reflexivity. Qed.

End Samples.

(* ================================================================== *)
(** * Numbers in canonical form *)
(* ================================================================== *)

Section Canonical.

Local Open Scope Z_scope.

Lemma strip10_stops (m e : Z) (fuel : nat) :
  m mod 10 <> 0 -> strip10 fuel m e = (m, e).
Proof.
  intros H. destruct fuel; simpl; [reflexivity|].
  apply Z.eqb_neq in H. now rewrite H.
Qed.

Lemma strip10_value (fuel : nat) (m e : Z) :
  exists j, 0 <= j /\ strip10 fuel m e = (m / 10 ^ j, e + j) /\
            m = m / 10 ^ j * 10 ^ j.
Proof.
  revert m e. induction fuel as [|fuel IH]; intros m e; simpl.
  - exists 0. rewrite Z.pow_0_r, Z.div_1_r, Z.add_0_r. repeat split; lia.
  - destruct (m mod 10 =? 0) eqn:E.
    + apply Z.eqb_eq in E.
      destruct (IH (m / 10) (e + 1)) as (j & Hj & Hs & Hv).
      exists (j + 1). split; [lia|].
      assert (Hp : 10 ^ (j + 1) = 10 * 10 ^ j) by (rewrite Z.pow_add_r; lia).
      rewrite Hp, <- Z.div_div by lia.
      rewrite Hs. split; [f_equal; lia|].
      rewrite (Z.div_mod m 10) at 1 by lia. rewrite E. lia.
    + exists 0. rewrite Z.pow_0_r, Z.div_1_r, Z.add_0_r. repeat split; lia.
Qed.

Lemma strip10_not_multiple (fuel : nat) (m e : Z) :
  m <> 0 -> Z.log2 (Z.abs m) <= Z.of_nat fuel ->
  fst (strip10 fuel m e) mod 10 <> 0.
Proof.
  revert m e. induction fuel as [|fuel IH]; intros m e Hm Hl; simpl.
  - assert (Z.abs m < 2).
    { destruct (Z.le_gt_cases 2 (Z.abs m)) as [H2|]; [|assumption].
      apply Z.log2_le_mono in H2. change (Z.log2 2) with 1 in H2. lia. }
    assert (m = 1 \/ m = -1) as [-> | ->] by lia; discriminate.
  - destruct (m mod 10 =? 0) eqn:E; simpl.
    + apply Z.eqb_eq in E.
      assert (Hd : m = 10 * (m / 10))
        by (rewrite (Z.div_mod m 10) at 1 by lia; lia).
      apply IH; [lia|].
      assert (H2 : 2 * Z.abs (m / 10) <= Z.abs m) by lia.
      assert (0 < Z.abs (m / 10)) by lia.
      apply Z.log2_le_mono in H2. rewrite Z.log2_double in H2 by lia. lia.
    + now apply Z.eqb_neq in E.
Qed.

Lemma normalize_value (m e : Z) :
  exists j, 0 <= j /\ m = fst (normalize m e) * 10 ^ j /\
            (m <> 0 -> snd (normalize m e) = e + j).
Proof.
  unfold normalize. destruct (m =? 0) eqn:E.
  - apply Z.eqb_eq in E. exists 0. simpl. repeat split; lia.
  - destruct (strip10_value (Z.to_nat (Z.log2 (Z.abs m))) m e)
      as (j & Hj & Hs & Hv).
    exists j. rewrite Hs. simpl. auto.
Qed.

Lemma normalize_canonical_iff (m e : Z) :
  normalize m e = (m, e) <-> (m = 0 /\ e = 0) \/ m mod 10 <> 0.
Proof.
  unfold normalize. destruct (m =? 0) eqn:E.
  - apply Z.eqb_eq in E. subst m. split.
    + intros [= <-]. left. split; reflexivity.
    + intros [[_ ->] | H]; [reflexivity | now elim H].
  - apply Z.eqb_neq in E. split.
    + intros H. right.
      pose proof (strip10_not_multiple (Z.to_nat (Z.log2 (Z.abs m))) m e E) as Hn.
      rewrite H in Hn. apply Hn. rewrite Z2Nat.id; [lia | apply Z.log2_nonneg].
    + intros [[H _] | H]; [contradiction | now apply strip10_stops].
Qed.

Lemma normalize_idempotent (m e : Z) :
  let (m', e') := normalize m e in normalize m' e' = (m', e').
Proof.
  destruct (normalize m e) as [m' e'] eqn:E.
  apply normalize_canonical_iff.
  unfold normalize in E. destruct (m =? 0) eqn:E0.
  - injection E as <- <-. left. split; reflexivity.
  - apply Z.eqb_neq in E0. right.
    pose proof (strip10_not_multiple (Z.to_nat (Z.log2 (Z.abs m))) m e E0) as Hn.
    rewrite E in Hn. apply Hn. rewrite Z2Nat.id; [lia | apply Z.log2_nonneg].
Qed.

(** What [decimal] makes, and so what [Date.now()] and [JSON.parse] give,
    is in canonical form. *)
Lemma canonical_decimal (m e : Z) : canonical (decimal m e).
Proof.
  unfold decimal. pose proof (normalize_idempotent m e) as H.
  destruct (normalize m e). exact H.
Qed.

Lemma of_Z_inj (a b : Z) : of_Z a = of_Z b -> a = b.
Proof.
  unfold of_Z, decimal. intros H.
  destruct (normalize_value a 0) as (j & Hj & Ha & Hja).
  destruct (normalize_value b 0) as (j' & Hj' & Hb & Hjb).
  destruct (normalize a 0) as [ma ea], (normalize b 0) as [mb eb].
  injection H as <- <-. simpl in *.
  destruct (Z.eq_dec a 0) as [-> | Hna].
  - assert (ma = 0) by (destruct (Z.eq_dec ma 0); [assumption | nia]).
    subst ma. lia.
  - destruct (Z.eq_dec b 0) as [-> | Hnb].
    + assert (ma = 0) by (destruct (Z.eq_dec ma 0); [assumption | nia]).
      subst ma. lia.
    + rewrite Ha, Hb. f_equal. f_equal. specialize (Hja Hna). specialize (Hjb Hnb). lia.
Qed.

(** On canonical Numbers [===] is equality, NaN apart. *)
Lemma number_strict_eq_true (x y : number) :
  canonical x -> canonical y ->
  number_strict_eq x y = true -> x = y.
Proof.
  destruct x as [| a | m e], y as [| b | m' e']; simpl; try discriminate.
  - intros _ _ H. apply Bool.eqb_prop in H. now subst.
  - intros -> ->. rewrite andb_true_iff, !Z.eqb_eq. intros [-> ->]. reflexivity.
Qed.

Lemma number_strict_eq_of_Z (a b : Z) :
  number_strict_eq (of_Z a) (of_Z b) = (a =? b).
Proof.
  destruct (a =? b) eqn:E.
  - apply Z.eqb_eq in E. subst b. unfold of_Z, decimal.
    pose proof (normalize_idempotent a 0) as H.
    destruct (normalize a 0) as [m e]. simpl. rewrite H.
    now rewrite !Z.eqb_refl.
  - apply Z.eqb_neq in E.
    destruct (number_strict_eq (of_Z a) (of_Z b)) eqn:H; [|reflexivity].
    apply number_strict_eq_true in H; try apply canonical_decimal.
    now apply of_Z_inj in H.
Qed.

End Canonical.

(* ================================================================== *)
(** * Numbers as text *)
(* ================================================================== *)

Section Digits.

Import JSON.
Local Open Scope N_scope.

Lemma digits_value_of_uint_acc (d : Decimal.uint) (acc : positive) :
  digits_value (units_of_uint d) (Npos acc) = Npos (Pos.of_uint_acc d acc).
Proof.
  revert acc. induction d; intros acc;
    cbn [units_of_uint digits_value Pos.of_uint_acc]; try reflexivity;
    rewrite <- IHd; apply f_equal; lia.
Qed.

Lemma digits_value_of_uint (d : Decimal.uint) :
  digits_value (units_of_uint d) 0 = Pos.of_uint d.
Proof.
  induction d; cbn [units_of_uint digits_value Pos.of_uint];
    try reflexivity; try exact IHd;
    rewrite <- digits_value_of_uint_acc; reflexivity.
Qed.

(** Reading the digits of [n] gives [n] back. *)
Lemma digits_value_digits_of_N (n : N) : digits_value (digits_of_N n) 0 = n.
Proof.
  unfold digits_of_N. rewrite digits_value_of_uint.
  apply (DecimalN.Unsigned.of_to n).
Qed.

Lemma units_of_uint_digits (d : Decimal.uint) :
  forallb is_digit (units_of_uint d) = true.
Proof. induction d; simpl; auto. Qed.

Lemma digits_of_N_digits (n : N) : forallb is_digit (digits_of_N n) = true.
Proof. apply units_of_uint_digits. Qed.

(** The digits of a positive number start with a digit that is not zero. *)
Lemma digits_of_pos_head (p : positive) :
  exists c r, digits_of_N (Npos p) = c :: r /\ is_digit c = true /\ c <> 48.
Proof.
  unfold digits_of_N. simpl N.to_uint.
  assert (Hn : Decimal.unorm (Pos.to_uint p) = Pos.to_uint p).
  { rewrite <- (DecimalPos.Unsigned.to_of (Pos.to_uint p)).
    rewrite DecimalPos.Unsigned.of_to. reflexivity. }
  pose proof (DecimalPos.Unsigned.to_uint_nonzero p) as Hz.
  pose proof (DecimalPos.Unsigned.to_uint_nonnil p) as Hnil.
  destruct (Pos.to_uint p) as [|d|d|d|d|d|d|d|d|d|d] eqn:E;
    try (now elim Hnil);
    try (eexists; eexists; simpl; split; [reflexivity | split; [reflexivity | discriminate]]).
  exfalso. unfold Decimal.unorm in Hn. simpl in Hn.
  destruct (Decimal.nzhead d) eqn:En; try congruence;
    try (apply (f_equal Decimal.nb_digits) in Hn;
         pose proof (DecimalFacts.nb_digits_nzhead d) as Hl;
         rewrite En in Hl; simpl in Hn, Hl; lia).
Qed.

Lemma digits_value_app (a b : jsstring) (acc : N) :
  digits_value (a ++ b) acc = digits_value b (digits_value a acc).
Proof. revert acc. induction a; simpl; auto. Qed.

Lemma digits_value_zeros (j : nat) (acc : N) :
  digits_value (repeat 48 j) acc = acc * 10 ^ N.of_nat j.
Proof.
  revert acc. induction j as [|j IH]; intros acc.
  - simpl. lia.
  - cbn [repeat digits_value]. rewrite IH, Nat2N.inj_succ, N.pow_succ_r'. lia.
Qed.

Lemma digits_value_leading_zeros (j : nat) (s : jsstring) :
  digits_value (repeat 48 j ++ s) 0 = digits_value s 0.
Proof.
  rewrite digits_value_app, digits_value_zeros. reflexivity.
Qed.

Lemma span_digits_app (ds rest : jsstring) :
  forallb is_digit ds = true -> digits_end rest ->
  span_digits (ds ++ rest) = (ds, rest).
Proof.
  intros Hd Hr. induction ds as [|c ds IH]; cbn [app span_digits forallb] in *.
  - destruct rest as [|c r]; [reflexivity|].
    cbn [span_digits digits_end] in *. now rewrite Hr.
  - apply andb_true_iff in Hd. destruct Hd as [Hc Hd].
    rewrite Hc, (IH Hd). reflexivity.
Qed.

Lemma forallb_firstn {A : Type} (p : A -> bool) (n : nat) (l : list A) :
  forallb p l = true -> forallb p (firstn n l) = true.
Proof.
  revert n. induction l as [|a l IH]; intros [|n]; simpl; auto.
  intros H. apply andb_true_iff in H. destruct H as [-> H]. simpl. auto.
Qed.

Lemma forallb_skipn {A : Type} (p : A -> bool) (n : nat) (l : list A) :
  forallb p l = true -> forallb p (skipn n l) = true.
Proof.
  revert n. induction l as [|a l IH]; intros [|n]; simpl; auto.
  intros H. apply andb_true_iff in H. destruct H as [_ H]. auto.
Qed.

Lemma forallb_repeat {A : Type} (p : A -> bool) (a : A) (n : nat) :
  p a = true -> forallb p (repeat a n) = true.
Proof. intros H. induction n; simpl; [reflexivity | now rewrite H]. Qed.

End Digits.

Section NumberRoundTrip.

Import JSON.
Local Open Scope Z_scope.

Lemma number_end_digits_end (rest : jsstring) :
  number_end rest -> digits_end rest.
Proof. destruct rest; simpl; tauto. Qed.

Lemma parse_int_zero (rest : jsstring) :
  parse_int (48%N :: rest) = Ok ([48%N], rest).
Proof. reflexivity. Qed.

Lemma parse_int_digits (ds rest : jsstring) :
  (exists c r, ds = c :: r /\ c <> 48%N) ->
  forallb is_digit ds = true -> digits_end rest ->
  parse_int (ds ++ rest) = Ok (ds, rest).
Proof.
  intros (c & r & -> & Hc) Hd Hr.
  pose proof (span_digits_app (c :: r) rest Hd Hr) as Hs.
  cbn [app parse_int] in *.
  apply N.eqb_neq in Hc. rewrite Hc.
  cbn [forallb] in Hd. apply andb_true_iff in Hd. destruct Hd as [Hd _].
  rewrite Hd, Hs. reflexivity.
Qed.

Lemma parse_frac_no_point (rest : jsstring) :
  match rest with [] => True | c :: _ => c <> 46%N end ->
  parse_frac rest = Ok ([], rest).
Proof.
  destruct rest as [|c r]; [reflexivity|]. intros Hc.
  cbn [parse_frac]. apply N.eqb_neq in Hc. now rewrite Hc.
Qed.

Lemma parse_frac_none (rest : jsstring) :
  number_end rest -> parse_frac rest = Ok ([], rest).
Proof.
  intros H. apply parse_frac_no_point. destruct rest; simpl in *; tauto.
Qed.

Lemma parse_frac_digits (ds rest : jsstring) :
  ds <> [] -> forallb is_digit ds = true -> digits_end rest ->
  parse_frac (46%N :: ds ++ rest) = Ok (ds, rest).
Proof.
  intros Hn Hd Hr. cbn [parse_frac]. rewrite N.eqb_refl.
  rewrite (span_digits_app ds rest Hd Hr). destruct ds; [now elim Hn | reflexivity].
Qed.

Lemma parse_exp_none (rest : jsstring) :
  number_end rest -> parse_exp rest = Ok (0, rest).
Proof.
  destruct rest as [|c r]; [reflexivity|]. intros (_ & _ & He & HE).
  cbn [parse_exp]. apply N.eqb_neq in He, HE. now rewrite He, HE.
Qed.

Lemma signed_abs (z : Z) : signed (z <? 0) (Z.abs_N z) = z.
Proof.
  unfold signed. rewrite N2Z.inj_abs_N. destruct (Z.ltb_spec z 0); lia.
Qed.

Lemma digits_of_N_nonempty (n : N) : digits_of_N n <> [].
Proof.
  destruct n as [|p]; [discriminate|].
  destruct (digits_of_pos_head p) as (c & r & -> & _). discriminate.
Qed.

Lemma parse_exp_printed (ex : Z) (rest : jsstring) :
  digits_end rest ->
  parse_exp (101%N :: (if ex <? 0 then 45%N else 43%N) ::
             digits_of_N (Z.abs_N ex) ++ rest) = Ok (ex, rest).
Proof.
  intros Hr. cbn [parse_exp]. change ((101 =? 101)%N || (101 =? 69)%N) with true.
  cbv iota.
  assert (Hs : split_sign ((if ex <? 0 then 45%N else 43%N) ::
                           digits_of_N (Z.abs_N ex) ++ rest)
               = (ex <? 0, digits_of_N (Z.abs_N ex) ++ rest))
    by (destruct (ex <? 0); reflexivity).
  rewrite Hs, (span_digits_app _ rest (digits_of_N_digits _) Hr).
  rewrite digits_value_digits_of_N, signed_abs.
  pose proof (digits_of_N_nonempty (Z.abs_N ex)).
  destruct (digits_of_N (Z.abs_N ex)); [contradiction | reflexivity].
Qed.

(** A mantissa that is not a multiple of ten, times a power of ten, has
    that mantissa and that power as its canonical form. *)
Lemma normalize_shifted (m j e : Z) :
  m mod 10 <> 0 -> 0 <= j -> normalize (m * 10 ^ j) e = (m, e + j).
Proof.
  intros Hm Hj.
  assert (Hm0 : m <> 0) by (intros ->; now apply Hm).
  assert (Hp : 0 < 10 ^ j) by (apply Z.pow_pos_nonneg; lia).
  assert (HM : m * 10 ^ j <> 0) by nia.
  unfold normalize. apply Z.eqb_neq in HM as HM'. rewrite HM'.
  set (fuel := Z.to_nat (Z.log2 (Z.abs (m * 10 ^ j)))).
  destruct (strip10_value fuel (m * 10 ^ j) e) as (i & Hi & Hs & Hv).
  pose proof (strip10_not_multiple fuel (m * 10 ^ j) e HM) as Hn.
  rewrite Hs in Hn. simpl fst in Hn.
  assert (Hfuel : Z.log2 (Z.abs (m * 10 ^ j)) <= Z.of_nat fuel)
    by (unfold fuel; rewrite Z2Nat.id; [lia | apply Z.log2_nonneg]).
  specialize (Hn Hfuel). rewrite Hs.
  set (q := m * 10 ^ j / 10 ^ i) in *.
  assert (Hq : m * 10 ^ j = q * 10 ^ i) by exact Hv.
  destruct (Z.lt_trichotomy i j) as [Hlt | [Heq | Hgt]].
  - exfalso. apply Hn.
    replace j with (i + (j - i)) in Hq by lia.
    rewrite Z.pow_add_r in Hq by lia.
    assert (Hpi : 0 < 10 ^ i) by (apply Z.pow_pos_nonneg; lia).
    assert (q = m * 10 ^ (j - i)) by nia. subst q.
    replace (j - i) with (1 + (j - i - 1)) in H by lia.
    rewrite Z.pow_add_r in H by lia. rewrite H.
    replace (m * (10 ^ 1 * 10 ^ (j - i - 1))) with (m * 10 ^ (j - i - 1) * 10) by (rewrite Z.pow_1_r; lia).
    apply Z.mod_mul. lia.
  - subst i. assert (Hqm : q = m) by nia. now rewrite Hqm.
  - exfalso. apply Hm.
    replace i with (j + (i - j)) in Hq by lia.
    rewrite Z.pow_add_r in Hq by lia.
    assert (m = q * 10 ^ (i - j)) by nia.
    replace (i - j) with (1 + (i - j - 1)) in H by lia.
    rewrite Z.pow_add_r in H by lia. rewrite H.
    replace (q * (10 ^ 1 * 10 ^ (i - j - 1))) with (q * 10 ^ (i - j - 1) * 10) by (rewrite Z.pow_1_r; lia).
    apply Z.mod_mul. lia.
Qed.

Lemma signed_mul_pow (neg : bool) (a : N) (j : nat) :
  signed neg (a * 10 ^ N.of_nat j) = signed neg a * 10 ^ Z.of_nat j.
Proof.
  unfold signed. rewrite N2Z.inj_mul, N2Z.inj_pow, nat_N_Z.
  change (Z.of_N 10) with 10. destruct neg; lia.
Qed.

Lemma parse_unsigned_parts (neg : bool) (s int r1 frac r2 : jsstring)
      (ex : Z) (r3 : jsstring) :
  parse_int s = Ok (int, r1) -> parse_frac r1 = Ok (frac, r2) ->
  parse_exp r2 = Ok (ex, r3) ->
  parse_unsigned neg s =
    Ok (decimal (signed neg (digits_value (int ++ frac) 0))
                (ex - Z.of_nat (length frac)), r3).
Proof.
  intros Hi Hf He. unfold parse_unsigned. rewrite Hi. cbn [bind].
  rewrite Hf. cbn [bind]. rewrite He. reflexivity.
Qed.

Lemma parse_number_sign (neg : bool) (body : jsstring) :
  (exists c r, body = c :: r /\ is_digit c = true) ->
  parse_number ((if neg then [45%N] else []) ++ body) = parse_unsigned neg body.
Proof.
  intros (c & r & -> & Hc). destruct neg; [reflexivity|].
  cbn [app parse_number].
  destruct (N.eqb_spec c 45) as [-> | _]; [discriminate | reflexivity].
Qed.

(** Reading the text of a finite Number in canonical form gives the Number
    back, whatever follows it that is not part of a number. *)
Lemma parse_number_toString (m e : Z) (rest : jsstring) :
  normalize m e = (m, e) -> number_end rest ->
  parse_number (Number_toString (Finite m e) ++ rest) = Ok (Finite m e, rest).
Proof.
  intros Hc Hrest. pose proof (number_end_digits_end rest Hrest) as Hdrest.
  unfold Number_toString. rewrite Hc.
  apply normalize_canonical_iff in Hc as Hcan.
  destruct (Z.eqb_spec m 0) as [-> | Hm0].
  - destruct Hcan as [[_ ->] | H]; [| now elim H].
    change (lit "0" ++ rest) with ([] ++ 48%N :: rest).
    rewrite (parse_number_sign false) by (eexists; eexists; split; reflexivity).
    rewrite (parse_unsigned_parts false _ _ _ _ _ _ _ (parse_int_zero rest)
               (parse_frac_none rest Hrest) (parse_exp_none rest Hrest)).
    reflexivity.
  - destruct Hcan as [[H _] | Hm10]; [contradiction|].
    assert (Hdec : decimal m e = Finite m e) by (unfold decimal; now rewrite Hc).
    destruct (Z.abs_N m) as [|p] eqn:Ep; [lia|].
    destruct (digits_of_pos_head p) as (c0 & tl & Hs & Hc0 & Hnz).
    pose proof (digits_of_N_digits (Npos p)) as Hds.
    pose proof (digits_value_digits_of_N (Npos p)) as Hval.
    pose proof (signed_abs m) as Hsg. rewrite Ep in Hsg.
    set (s := digits_of_N (Npos p)) in *.
    assert (Hk : 1 <= Z.of_nat (length s)) by (rewrite Hs; simpl length; lia).
    set (k := Z.of_nat (length s)) in *.
    rewrite <- app_assoc. rewrite parse_number_sign.
    2:{ destruct ((k <=? k + e) && (k + e <=? 21)).
        { rewrite Hs. cbn [app]. eauto. }
        destruct ((0 <? k + e) && (k + e <=? 21)) eqn:E2.
        { apply andb_true_iff in E2. destruct E2 as [E2 _].
          apply Z.ltb_lt in E2.
          destruct (Z.to_nat (k + e)) as [|n'] eqn:En; [lia|].
          rewrite Hs. cbn [firstn app]. eauto. }
        destruct ((-6 <? k + e) && (k + e <=? 0)).
        { cbn [app]. eexists; eexists; split; reflexivity. }
        destruct (k =? 1); rewrite Hs; cbn [firstn app]; eauto. }
    destruct ((k <=? k + e) && (k + e <=? 21)) eqn:E1.
    { (* digits, then zeros *)
      apply andb_true_iff in E1. destruct E1 as [E1 _]. apply Z.leb_le in E1.
      replace (k + e - k) with e by lia.
      assert (Hd : forallb is_digit (s ++ repeat 48%N (Z.to_nat e)) = true)
        by (rewrite forallb_app, Hds; now apply forallb_repeat).
      assert (Hh : exists c r, s ++ repeat 48%N (Z.to_nat e) = c :: r /\ c <> 48%N)
        by (rewrite Hs; cbn [app]; eauto).
      rewrite (parse_unsigned_parts _ _ _ _ _ _ _ _
                 (parse_int_digits (s ++ repeat 48%N (Z.to_nat e)) rest
                    Hh Hd Hdrest)
                 (parse_frac_none rest Hrest) (parse_exp_none rest Hrest)).
      rewrite List.app_nil_r, digits_value_app, Hval, digits_value_zeros.
      rewrite signed_mul_pow, Hsg, Z2Nat.id by lia.
      cbn [length]. unfold decimal.
      rewrite (normalize_shifted m e (0 - Z.of_nat 0)) by lia.
      reflexivity. }
    destruct ((0 <? k + e) && (k + e <=? 21)) eqn:E2.
    { (* digits with a point inside *)
      apply andb_true_iff in E2. destruct E2 as [E2 E2']. apply Z.ltb_lt in E2.
      apply Z.leb_le in E2'. apply andb_false_iff in E1.
      assert (Hlt : k + e < k) by (destruct E1 as [E1|E1]; [apply Z.leb_gt in E1 | apply Z.leb_gt in E1]; lia).
      set (n := Z.to_nat (k + e)) in *.
      assert (Hn : (0 < n < length s)%nat) by (unfold n, k in *; lia).
      rewrite <- !app_assoc. cbn [app].
      assert (Hsk : skipn n s <> []).
      { intros H. apply (f_equal (@length _)) in H.
        rewrite length_skipn in H. simpl in H. lia. }
      assert (Hh : exists c r, firstn n s = c :: r /\ c <> 48%N)
        by (destruct n; [lia|]; rewrite Hs; cbn [firstn]; eauto).
      rewrite (parse_unsigned_parts _ _ _ _ _ _ _ _
                 (parse_int_digits (firstn n s) (46%N :: skipn n s ++ rest)
                    Hh (forallb_firstn _ n s Hds) eq_refl)
                 (parse_frac_digits (skipn n s) rest Hsk
                    (forallb_skipn _ n s Hds) Hdrest)
                 (parse_exp_none rest Hrest)).
      rewrite firstn_skipn, Hval, Hsg, length_skipn.
      match goal with |- context [decimal m ?x] => replace x with e by (unfold n, k in *; lia) end.
      now rewrite Hdec. }
    destruct ((-6 <? k + e) && (k + e <=? 0)) eqn:E3.
    { (* 0. then zeros then digits *)
      apply andb_true_iff in E3. destruct E3 as [_ E3]. apply Z.leb_le in E3.
      set (j := Z.to_nat (- (k + e))).
      cbn [app]. rewrite <- app_assoc.
      rewrite app_assoc.
      assert (Hne : repeat 48%N j ++ s <> [])
        by (rewrite Hs; destruct (repeat 48%N j); discriminate).
      assert (Hd : forallb is_digit (repeat 48%N j ++ s) = true).
      { rewrite forallb_app. apply andb_true_iff.
        split; [now apply forallb_repeat | exact Hds]. }
      rewrite (parse_unsigned_parts _ _ _ _ _ _ _ _
                 (parse_int_zero _)
                 (parse_frac_digits _ rest Hne Hd Hdrest)
                 (parse_exp_none rest Hrest)).
      change ([48%N] ++ repeat 48%N j ++ s) with (repeat 48%N (S j) ++ s).
      rewrite digits_value_leading_zeros, Hval, Hsg, length_app, repeat_length.
      match goal with |- context [decimal m ?x] => replace x with e by (unfold j, k in *; lia) end.
      now rewrite Hdec. }
    (* exponent form *)
    destruct (Z.eqb_spec k 1) as [Hk1 | Hk1].
    + rewrite <- app_assoc. cbn [app].
      assert (Hh : exists c r, s = c :: r /\ c <> 48%N) by eauto.
      match goal with |- parse_unsigned _ (s ++ ?t) = _ => set (after := t) end.
      assert (Hp : match after with [] => True | c :: _ => c <> 46%N end)
        by (unfold after; discriminate).
      rewrite (parse_unsigned_parts _ _ _ _ _ _ _ _
                 (parse_int_digits s after Hh Hds eq_refl)
                 (parse_frac_no_point after Hp)
                 (parse_exp_printed (k + e - 1) rest Hdrest)).
      rewrite List.app_nil_r, Hval, Hsg. cbn [length].
      match goal with |- context [decimal m ?x] => replace x with e by lia end.
      now rewrite Hdec.
    + rewrite <- !app_assoc. cbn [app].
      assert (Hsk : skipn 1 s <> []).
      { intros H. apply (f_equal (@length _)) in H.
        rewrite length_skipn in H. simpl in H. unfold k in *. lia. }
      assert (Hh : exists c r, firstn 1 s = c :: r /\ c <> 48%N)
        by (rewrite Hs; cbn [firstn]; eauto).
      match goal with
      | |- parse_unsigned _ (firstn 1 s ++ _ :: skipn 1 s ++ ?t) = _ =>
          set (after := t)
      end.
      rewrite (parse_unsigned_parts _ _ _ _ _ _ _ _
                 (parse_int_digits (firstn 1 s) (46%N :: skipn 1 s ++ after)
                    Hh (forallb_firstn _ 1%nat s Hds) eq_refl)
                 (parse_frac_digits (skipn 1 s) after Hsk
                    (forallb_skipn _ 1%nat s Hds) eq_refl)
                 (parse_exp_printed (k + e - 1) rest Hdrest)).
      rewrite firstn_skipn, Hval, Hsg, length_skipn.
      match goal with |- context [decimal m ?x] => replace x with e by (unfold k in *; lia) end.
      now rewrite Hdec.
Qed.

End NumberRoundTrip.

(* ================================================================== *)
(** * Strings as JSON text *)
(* ================================================================== *)

Section StringRoundTrip.

Import JSON.
Local Open Scope N_scope.

Lemma hex_value_hex_digit (x : N) :
  x < 16 -> hex_value (hex_digit x) = Some x.
Proof.
  intros H. destruct x as [|p]; [reflexivity|].
  do 4 (destruct p as [p|p|]; try reflexivity; try (exfalso; lia)).
Qed.

Lemma hex_digits_value (c : N) :
  c < 65536 ->
  4096 * ((c / 4096) mod 16) + 256 * ((c / 256) mod 16) +
  16 * ((c / 16) mod 16) + c mod 16 = c.
Proof.
  intros H.
  pose proof (N.div_mod c 16 ltac:(lia)) as H0.
  pose proof (N.div_mod (c / 16) 16 ltac:(lia)) as H1.
  pose proof (N.div_mod (c / 16 / 16) 16 ltac:(lia)) as H2.
  pose proof (N.mod_lt c 16 ltac:(lia)).
  pose proof (N.mod_lt (c / 16) 16 ltac:(lia)).
  pose proof (N.mod_lt (c / 16 / 16) 16 ltac:(lia)).
  rewrite !N.Div0.div_div in *.
  change (16 * 16) with 256 in *. change (256 * 16) with 4096 in *.
  assert (c / 4096 < 16) by (apply N.Div0.div_lt_upper_bound; lia).
  rewrite (N.mod_small (c / 4096) 16) in * by lia.
  lia.
Qed.

Lemma parse_string_UnicodeEscape (c : codeunit) (t : jsstring) :
  c < 65536 ->
  parse_string (UnicodeEscape c ++ t) =
    '(str, rest) <- parse_string t ;; Ok (c :: str, rest).
Proof.
  intros H. unfold UnicodeEscape. cbn [app parse_string].
  change (92 =? 34) with false. change (92 <? 32) with false.
  change (92 =? 92) with true. change (117 =? 117) with true. cbv iota.
  rewrite !hex_value_hex_digit by (apply N.mod_lt; lia).
  now rewrite hex_digits_value.
Qed.

(** Reading a quoted string gives the string back. *)
Lemma parse_string_quote_chars (s rest : jsstring) :
  parse_string (quote_chars s ++ 34 :: rest) = Ok (s, rest).
Proof.
  remember (length s) as n eqn:Hn.
  assert (Hle : (length s <= n)%nat) by lia. clear Hn.
  revert s Hle. induction n as [|n IH]; intros s Hle.
  - destruct s; [reflexivity | simpl in Hle; lia].
  - destruct s as [|c r]; [reflexivity|].
    assert (IHr : parse_string (quote_chars r ++ 34 :: rest) = Ok (r, rest))
      by (apply IH; simpl in Hle; lia).
    cbn [quote_chars].
    destruct (N.eqb_spec c 8) as [-> | H8].
    { cbn [app parse_string]. now rewrite IHr. }
    destruct (N.eqb_spec c 9) as [-> | H9].
    { cbn [app parse_string]. now rewrite IHr. }
    destruct (N.eqb_spec c 10) as [-> | H10].
    { cbn [app parse_string]. now rewrite IHr. }
    destruct (N.eqb_spec c 12) as [-> | H12].
    { cbn [app parse_string]. now rewrite IHr. }
    destruct (N.eqb_spec c 13) as [-> | H13].
    { cbn [app parse_string]. now rewrite IHr. }
    destruct (N.eqb_spec c 34) as [-> | H34].
    { cbn [app parse_string]. now rewrite IHr. }
    destruct (N.eqb_spec c 92) as [-> | H92].
    { cbn [app parse_string]. now rewrite IHr. }
    assert (Hcopy : forall (a : codeunit) (t u : jsstring),
               a <> 34 -> 32 <= a -> a <> 92 ->
               parse_string t = Ok (u, rest) ->
               parse_string (a :: t) = Ok (a :: u, rest)).
    { intros a t u Ha Hb Hc Ht. cbn [parse_string].
      apply N.eqb_neq in Ha, Hc. apply N.ltb_ge in Hb.
      now rewrite Ha, Hb, Hc, Ht. }
    destruct (N.ltb_spec c 32) as [Hlt | Hge].
    { rewrite <- app_assoc, parse_string_UnicodeEscape by lia. now rewrite IHr. }
    unfold is_leading_surrogate, is_trailing_surrogate.
    destruct ((55296 <=? c) && (c <=? 56319)) eqn:El.
    { apply andb_true_iff in El. destruct El as [El1 El2].
      apply N.leb_le in El1, El2.
      destruct r as [|c2 r2].
      - rewrite parse_string_UnicodeEscape by lia. reflexivity.
      - destruct ((56320 <=? c2) && (c2 <=? 57343)) eqn:Et.
        + apply andb_true_iff in Et. destruct Et as [Et1 Et2].
          apply N.leb_le in Et1, Et2.
          cbn [app]. apply Hcopy; try lia. apply Hcopy; try lia.
          apply IH. simpl in Hle. lia.
        + rewrite <- app_assoc, parse_string_UnicodeEscape by lia.
          now rewrite IHr. }
    destruct ((56320 <=? c) && (c <=? 57343)) eqn:Et.
    { apply andb_true_iff in Et. destruct Et as [Et1 Et2].
      apply N.leb_le in Et1, Et2.
      rewrite <- app_assoc, parse_string_UnicodeEscape by lia. now rewrite IHr. }
    cbn [app]. apply Hcopy; try lia. exact IHr.
Qed.

End StringRoundTrip.

(* ================================================================== *)
(** * The parser always has budget enough *)
(* ================================================================== *)

Section ParserBudget.

Import JSON.
Local Open Scope nat_scope.

Lemma bind_Ok {A B : Type} (r : result A) (k : A -> result B) (b : B) :
  bind r k = Ok b -> exists a, r = Ok a /\ k a = Ok b.
Proof. destruct r; simpl; [eauto | discriminate | discriminate]. Qed.

Lemma bind_not_OutOfFuel {A B : Type} (r : result A) (k : A -> result B) :
  r <> OutOfFuel -> (forall a, r = Ok a -> k a <> OutOfFuel) ->
  bind r k <> OutOfFuel.
Proof. destruct r; simpl; auto; discriminate. Qed.

Lemma bind_stable {A B : Type} (r r' : result A) (k k' : A -> result B) :
  (r <> OutOfFuel -> r' = r) ->
  (forall a, r = Ok a -> k a <> OutOfFuel -> k' a = k a) ->
  bind r k <> OutOfFuel -> bind r' k' = bind r k.
Proof.
  intros Hr Hk H. destruct r as [a| |]; simpl in *.
  - rewrite Hr by discriminate. simpl. auto.
  - rewrite Hr by discriminate. reflexivity.
  - now elim H.
Qed.

Lemma skip_ws_length (s : jsstring) : length (skip_ws s) <= length s.
Proof.
  induction s as [|c r IH]; simpl; [lia|].
  destruct (is_ws c); simpl; lia.
Qed.

Lemma span_digits_length (s d r : jsstring) :
  span_digits s = (d, r) -> length d + length r = length s.
Proof.
  revert d r. induction s as [|c s IH]; cbn [span_digits]; intros d r.
  - intros [= <- <-]. reflexivity.
  - destruct (is_digit c).
    + destruct (span_digits s) as [d' r']. intros [= <- <-].
      specialize (IH _ _ eq_refl). simpl. lia.
    + intros [= <- <-]. reflexivity.
Qed.

Lemma split_sign_length (s r : jsstring) (neg : bool) :
  split_sign s = (neg, r) -> length r <= length s.
Proof.
  unfold split_sign. destruct s as [|c s].
  - intros [= _ <-]. lia.
  - destruct (N.eqb c 45); [intros [= _ <-]; simpl; lia|].
    destruct (N.eqb c 43); intros [= _ <-]; simpl; lia.
Qed.

Lemma parse_string_length (s str rest : jsstring) :
  parse_string s = Ok (str, rest) -> length rest < length s.
Proof.
  remember (length s) as n eqn:Hn.
  assert (Hle : length s <= n) by lia. rewrite Hn. clear Hn.
  revert s str rest Hle. induction n as [|n IH]; intros s str rest Hle.
  - destruct s; [discriminate | simpl in Hle; lia].
  - destruct s as [|c r]; [discriminate|]. cbn [parse_string].
    simpl in Hle.
    destruct (N.eqb c 34); [intros [= _ <-]; simpl; lia|].
    destruct (N.ltb c 32); [discriminate|].
    destruct (N.eqb c 92).
    + destruct r as [|e r']; [discriminate|]. simpl in Hle.
      destruct (N.eqb e 117).
      * destruct r' as [|h1 [|h2 [|h3 [|h4 r'']]]]; try discriminate.
        destruct (hex_value h1), (hex_value h2), (hex_value h3), (hex_value h4);
          try discriminate.
        intros H. apply bind_Ok in H. destruct H as ([u t] & H & [= _ <-]).
        apply IH in H; simpl in *; lia.
      * destruct (simple_escape e); [|discriminate].
        intros H. apply bind_Ok in H. destruct H as ([u t] & H & [= _ <-]).
        apply IH in H; simpl in *; lia.
    + intros H. apply bind_Ok in H. destruct H as ([u t] & H & [= _ <-]).
      apply IH in H; simpl in *; lia.
Qed.

Lemma parse_string_not_OutOfFuel (s : jsstring) : parse_string s <> OutOfFuel.
Proof.
  remember (length s) as n eqn:Hn.
  assert (Hle : length s <= n) by lia. clear Hn.
  revert s Hle. induction n as [|n IH]; intros s Hle.
  - destruct s; [discriminate | simpl in Hle; lia].
  - destruct s as [|c r]; [discriminate|]. cbn [parse_string].
    simpl in Hle.
    destruct (N.eqb c 34); [discriminate|].
    destruct (N.ltb c 32); [discriminate|].
    destruct (N.eqb c 92).
    + destruct r as [|e r']; [discriminate|]. simpl in Hle.
      destruct (N.eqb e 117).
      * destruct r' as [|h1 [|h2 [|h3 [|h4 r'']]]]; try discriminate.
        destruct (hex_value h1), (hex_value h2), (hex_value h3), (hex_value h4);
          try discriminate.
        apply bind_not_OutOfFuel; [apply IH; simpl in *; lia|].
        intros [u t] _. discriminate.
      * destruct (simple_escape e); [|discriminate].
        apply bind_not_OutOfFuel; [apply IH; simpl in *; lia|].
        intros [u t] _. discriminate.
    + apply bind_not_OutOfFuel; [apply IH; simpl in *; lia|].
      intros [u t] _. discriminate.
Qed.

Lemma parse_int_length (s i r : jsstring) :
  parse_int s = Ok (i, r) -> length r < length s.
Proof.
  unfold parse_int. destruct s as [|c s]; [discriminate|].
  destruct (N.eqb c 48); [intros [= _ <-]; simpl; lia|].
  destruct (is_digit c) eqn:E; [|discriminate].
  intros [= H]. cbn [span_digits] in H. rewrite E in H.
  destruct (span_digits s) as [d' r'] eqn:Es. injection H as _ <-.
  apply span_digits_length in Es. simpl. lia.
Qed.

Lemma parse_frac_length (s f r : jsstring) :
  parse_frac s = Ok (f, r) -> length r <= length s.
Proof.
  unfold parse_frac. destruct s as [|c s]; [intros [= _ <-]; lia|].
  destruct (N.eqb c 46); [|intros [= _ <-]; lia].
  destruct (span_digits s) as [[|d ds] r'] eqn:Es; [discriminate|].
  intros [= _ <-]. apply span_digits_length in Es. simpl in *. lia.
Qed.

Lemma parse_exp_length (s r : jsstring) (x : Z) :
  parse_exp s = Ok (x, r) -> length r <= length s.
Proof.
  unfold parse_exp. destruct s as [|c s]; [intros [= _ <-]; lia|].
  destruct (N.eqb c 101 || N.eqb c 69); [|intros [= _ <-]; lia].
  destruct (split_sign s) as [neg r'] eqn:Esg.
  apply split_sign_length in Esg.
  destruct (span_digits r') as [[|d ds] r''] eqn:Es; [discriminate|].
  intros [= _ <-]. apply span_digits_length in Es. simpl in *. lia.
Qed.

Lemma parse_unsigned_length (neg : bool) (s rest : jsstring) (x : number) :
  parse_unsigned neg s = Ok (x, rest) -> length rest < length s.
Proof.
  unfold parse_unsigned. intros H.
  apply bind_Ok in H. destruct H as ([i r1] & Hi & H).
  apply bind_Ok in H. destruct H as ([f r2] & Hf & H).
  apply bind_Ok in H. destruct H as ([ex r3] & He & [= _ <-]).
  apply parse_int_length in Hi. apply parse_frac_length in Hf.
  apply parse_exp_length in He. lia.
Qed.

Lemma parse_number_length (s rest : jsstring) (x : number) :
  parse_number s = Ok (x, rest) -> length rest < length s.
Proof.
  unfold parse_number. destruct s as [|c s]; [discriminate|].
  destruct (N.eqb c 45); intros H; apply parse_unsigned_length in H;
    simpl in *; lia.
Qed.

Lemma parse_number_not_OutOfFuel (s : jsstring) : parse_number s <> OutOfFuel.
Proof.
  assert (Hu : forall neg t, parse_unsigned neg t <> OutOfFuel).
  { intros neg t. unfold parse_unsigned.
    apply bind_not_OutOfFuel.
    { unfold parse_int. destruct t as [|c t]; [discriminate|].
      destruct (N.eqb c 48); [discriminate|].
      destruct (is_digit c); discriminate. }
    intros [i r1] _. apply bind_not_OutOfFuel.
    { unfold parse_frac. destruct r1 as [|c t']; [discriminate|].
      destruct (N.eqb c 46); [|discriminate].
      destruct (span_digits t') as [[|] ?]; discriminate. }
    intros [f r2] _. apply bind_not_OutOfFuel.
    { unfold parse_exp. destruct r2 as [|c t']; [discriminate|].
      destruct (N.eqb c 101 || N.eqb c 69); [|discriminate].
      destruct (split_sign t') as [? r'].
      destruct (span_digits r') as [[|] ?]; discriminate. }
    intros [ex r3] _. discriminate. }
  unfold parse_number. destruct s as [|c s]; [discriminate|].
  destruct (N.eqb c 45); apply Hu.
Qed.

Lemma parse_literal_length (s rest : jsstring) (v : json) :
  parse_literal s = Ok (v, rest) -> length rest < length s.
Proof.
  unfold parse_literal.
  repeat (match goal with
          | |- match ?x with _ => _ end = _ -> _ => destruct x; try discriminate
          end).
  all: intros [= _ <-]; simpl; lia.
Qed.

Lemma parse_literal_not_OutOfFuel (s : jsstring) : parse_literal s <> OutOfFuel.
Proof.
  unfold parse_literal.
  repeat (match goal with
          | |- match ?x with _ => _ end <> _ => destruct x; try discriminate
          end).
Qed.

Lemma parse_value_length (fuel : nat) :
  (forall s v r, parse_value fuel s = Ok (v, r) -> length r < length s) /\
  (forall s l r, parse_elements fuel s = Ok (l, r) -> length r < length s) /\
  (forall s m r, parse_members fuel s = Ok (m, r) -> length r < length s).
Proof.
  induction fuel as [|fuel (IHv & IHe & IHm)];
    [repeat split; intros; discriminate|].
  split; [|split].
  - intros s v r. cbn [parse_value]. destruct s as [|c t]; [discriminate|].
    destruct (N.eqb c 91).
    { pose proof (skip_ws_length t) as Hw.
      destruct (skip_ws t) as [|c' t']; [discriminate|].
      destruct (N.eqb c' 93); [intros [= _ <-]; simpl in *; lia|].
      intros H. apply bind_Ok in H. destruct H as ([l rest] & H & [= _ <-]).
      apply IHe in H. simpl in *. lia. }
    destruct (N.eqb c 123).
    { pose proof (skip_ws_length t) as Hw.
      destruct (skip_ws t) as [|c' t']; [discriminate|].
      destruct (N.eqb c' 125); [intros [= _ <-]; simpl in *; lia|].
      intros H. apply bind_Ok in H. destruct H as ([l rest] & H & [= _ <-]).
      apply IHm in H. simpl in *. lia. }
    destruct (N.eqb c 34).
    { intros H. apply bind_Ok in H. destruct H as ([str rest] & H & [= _ <-]).
      apply parse_string_length in H. simpl. lia. }
    destruct (N.eqb c 45 || is_digit c).
    { intros H. apply bind_Ok in H. destruct H as ([x rest] & H & [= _ <-]).
      now apply parse_number_length in H. }
    apply parse_literal_length.
  - intros s l r. cbn [parse_elements]. intros H.
    apply bind_Ok in H. destruct H as ([v t] & Hv & H).
    apply IHv in Hv. pose proof (skip_ws_length t) as Hw.
    destruct (skip_ws t) as [|c t']; [discriminate|].
    destruct (N.eqb c 44).
    { apply bind_Ok in H. destruct H as ([l' rest] & H & [= _ <-]).
      apply IHe in H. pose proof (skip_ws_length t'). simpl in *. lia. }
    destruct (N.eqb c 93); [|discriminate].
    injection H as _ <-. simpl in *. lia.
  - intros s m r. cbn [parse_members]. destruct s as [|c t]; [discriminate|].
    destruct (N.eqb c 34); [|discriminate]. intros H.
    apply bind_Ok in H. destruct H as ([k r1] & Hk & H).
    apply parse_string_length in Hk. pose proof (skip_ws_length r1) as Hw1.
    destruct (skip_ws r1) as [|c1 r2]; [discriminate|].
    destruct (N.eqb c1 58); [|discriminate].
    apply bind_Ok in H. destruct H as ([v r3] & Hv & H).
    apply IHv in Hv. pose proof (skip_ws_length r2) as Hw2.
    pose proof (skip_ws_length r3) as Hw3.
    destruct (skip_ws r3) as [|c3 r4]; [discriminate|].
    destruct (N.eqb c3 44).
    { apply bind_Ok in H. destruct H as ([m' rest] & H & [= _ <-]).
      apply IHm in H. pose proof (skip_ws_length r4). simpl in *. lia. }
    destruct (N.eqb c3 125); [|discriminate].
    injection H as _ <-. simpl in *. lia.
Qed.

(** With a budget of twice the length of the text and one more, the parser
    never stops for want of budget. *)
Lemma parse_value_fuel (fuel : nat) :
  (forall s, 2 * length s + 1 <= fuel -> parse_value fuel s <> OutOfFuel) /\
  (forall s, 2 * length s + 2 <= fuel -> parse_elements fuel s <> OutOfFuel) /\
  (forall s, 2 * length s + 2 <= fuel -> parse_members fuel s <> OutOfFuel).
Proof.
  induction fuel as [|fuel (IHv & IHe & IHm)];
    [repeat split; intros; lia|].
  destruct (parse_value_length fuel) as (Lv & Le & Lm).
  split; [|split].
  - intros s Hf. cbn [parse_value]. destruct s as [|c t]; [discriminate|].
    simpl in Hf.
    destruct (N.eqb c 91).
    { pose proof (skip_ws_length t) as Hw.
      destruct (skip_ws t) as [|c' t']; [discriminate|].
      destruct (N.eqb c' 93); [discriminate|].
      apply bind_not_OutOfFuel; [apply IHe; simpl in *; lia|].
      intros [l rest] _. discriminate. }
    destruct (N.eqb c 123).
    { pose proof (skip_ws_length t) as Hw.
      destruct (skip_ws t) as [|c' t']; [discriminate|].
      destruct (N.eqb c' 125); [discriminate|].
      apply bind_not_OutOfFuel; [apply IHm; simpl in *; lia|].
      intros [l rest] _. discriminate. }
    destruct (N.eqb c 34).
    { apply bind_not_OutOfFuel; [apply parse_string_not_OutOfFuel|].
      intros [str rest] _. discriminate. }
    destruct (N.eqb c 45 || is_digit c).
    { apply bind_not_OutOfFuel; [apply parse_number_not_OutOfFuel|].
      intros [x rest] _. discriminate. }
    apply parse_literal_not_OutOfFuel.
  - intros s Hf. cbn [parse_elements].
    apply bind_not_OutOfFuel; [apply IHv; lia|].
    intros [v t] Hv. apply Lv in Hv. pose proof (skip_ws_length t) as Hw.
    destruct (skip_ws t) as [|c t']; [discriminate|].
    destruct (N.eqb c 44).
    { apply bind_not_OutOfFuel.
      - apply IHe. pose proof (skip_ws_length t'). simpl in *. lia.
      - intros [l rest] _. discriminate. }
    destruct (N.eqb c 93); discriminate.
  - intros s Hf. cbn [parse_members]. destruct s as [|c t]; [discriminate|].
    simpl in Hf.
    destruct (N.eqb c 34); [|discriminate].
    apply bind_not_OutOfFuel; [apply parse_string_not_OutOfFuel|].
    intros [k r1] Hk. apply parse_string_length in Hk.
    pose proof (skip_ws_length r1) as Hw1.
    destruct (skip_ws r1) as [|c1 r2]; [discriminate|].
    destruct (N.eqb c1 58); [|discriminate].
    pose proof (skip_ws_length r2) as Hw2.
    apply bind_not_OutOfFuel; [apply IHv; simpl in *; lia|].
    intros [v r3] Hv. apply Lv in Hv.
    pose proof (skip_ws_length r3) as Hw3.
    destruct (skip_ws r3) as [|c3 r4]; [discriminate|].
    destruct (N.eqb c3 44).
    { apply bind_not_OutOfFuel.
      - apply IHm. pose proof (skip_ws_length r4). simpl in *. lia.
      - intros [m rest] _. discriminate. }
    destruct (N.eqb c3 125); discriminate.
Qed.

(** A result that is not a lack of budget stays the same under a larger
    budget. *)
Lemma parse_value_stable (fuel : nat) :
  forall fuel', fuel <= fuel' ->
  (forall s, parse_value fuel s <> OutOfFuel ->
             parse_value fuel' s = parse_value fuel s) /\
  (forall s, parse_elements fuel s <> OutOfFuel ->
             parse_elements fuel' s = parse_elements fuel s) /\
  (forall s, parse_members fuel s <> OutOfFuel ->
             parse_members fuel' s = parse_members fuel s).
Proof.
  induction fuel as [|fuel IH]; intros fuel' Hle;
    [repeat split; intros s H; now elim H|].
  destruct fuel' as [|fuel']; [lia|].
  destruct (IH fuel' ltac:(lia)) as (IHv & IHe & IHm).
  split; [|split].
  - intros s. cbn [parse_value]. destruct s as [|c t]; [reflexivity|].
    destruct (N.eqb c 91).
    { destruct (skip_ws t) as [|c' t']; [reflexivity|].
      destruct (N.eqb c' 93); [reflexivity|].
      apply bind_stable; [apply IHe | reflexivity]. }
    destruct (N.eqb c 123).
    { destruct (skip_ws t) as [|c' t']; [reflexivity|].
      destruct (N.eqb c' 125); [reflexivity|].
      apply bind_stable; [apply IHm | reflexivity]. }
    reflexivity.
  - intros s. cbn [parse_elements].
    apply bind_stable; [apply IHv|].
    intros [v t] _. destruct (skip_ws t) as [|c t']; [reflexivity|].
    destruct (N.eqb c 44); [|reflexivity].
    apply bind_stable; [apply IHe | reflexivity].
  - intros s. cbn [parse_members]. destruct s as [|c t]; [reflexivity|].
    destruct (N.eqb c 34); [|reflexivity].
    apply bind_stable; [reflexivity|].
    intros [k r1] _. destruct (skip_ws r1) as [|c1 r2]; [reflexivity|].
    destruct (N.eqb c1 58); [|reflexivity].
    apply bind_stable; [apply IHv|].
    intros [v r3] _. destruct (skip_ws r3) as [|c3 r4]; [reflexivity|].
    destruct (N.eqb c3 44); [|reflexivity].
    apply bind_stable; [apply IHm | reflexivity].
Qed.

(** [JSON.parse] gives its parser budget enough for every text. *)
Lemma parse_budget (text : jsstring) :
  parse_value (2 * length text + 1) (skip_ws text) <> OutOfFuel.
Proof.
  destruct (parse_value_fuel (2 * length text + 1)) as (H & _).
  apply H. pose proof (skip_ws_length text). lia.
Qed.

End ParserBudget.

(* ================================================================== *)
(** * JSON.parse after JSON.stringify *)
(* ================================================================== *)

Section ValueRoundTrip.

Import JSON.
Local Open Scope nat_scope.

Lemma json_induction (P : json -> Prop) :
  P JNull -> (forall b, P (JBool b)) -> (forall x, P (JNumber x)) ->
  (forall s, P (JString s)) ->
  (forall l, Forall P l -> P (JArray l)) ->
  (forall m, Forall (fun kv => P (snd kv)) m -> P (JObject m)) ->
  forall v, P v.
Proof.
  intros Hnull Hbool Hnum Hstr Harr Hobj.
  fix IH 1. intros [ | b | x | s | l | m].
  - exact Hnull.
  - apply Hbool.
  - apply Hnum.
  - apply Hstr.
  - apply Harr. induction l as [|x l IHl]; constructor; [apply IH | exact IHl].
  - apply Hobj. induction m as [|[k x] m IHm]; constructor; [apply IH | exact IHm].
Qed.

Lemma parse_value_more_fuel (fuel fuel' : nat) (s : jsstring) (r : json * jsstring) :
  parse_value fuel s = Ok r -> fuel <= fuel' -> parse_value fuel' s = Ok r.
Proof.
  intros H Hle. destruct (parse_value_stable fuel fuel' Hle) as (Hv & _).
  rewrite Hv; [exact H | rewrite H; discriminate].
Qed.

Lemma parse_elements_more_fuel (fuel fuel' : nat) (s : jsstring)
      (r : list json * jsstring) :
  parse_elements fuel s = Ok r -> fuel <= fuel' -> parse_elements fuel' s = Ok r.
Proof.
  intros H Hle. destruct (parse_value_stable fuel fuel' Hle) as (_ & He & _).
  rewrite He; [exact H | rewrite H; discriminate].
Qed.

Lemma parse_members_more_fuel (fuel fuel' : nat) (s : jsstring)
      (r : list (jsstring * json) * jsstring) :
  parse_members fuel s = Ok r -> fuel <= fuel' -> parse_members fuel' s = Ok r.
Proof.
  intros H Hle. destruct (parse_value_stable fuel fuel' Hle) as (_ & _ & Hm).
  rewrite Hm; [exact H | rewrite H; discriminate].
Qed.

Lemma value_start_plain (c : codeunit) :
  value_start c = true ->
  is_ws c = false /\ N.eqb c 93 = false /\ N.eqb c 125 = false /\
  N.eqb c 44 = false.
Proof.
  unfold value_start, is_ws, is_digit. intros H.
  repeat (apply orb_true_iff in H; destruct H as [H | H]);
    try (apply N.eqb_eq in H; subst c; repeat split; reflexivity).
  apply andb_true_iff in H. destruct H as [H1 H2].
  apply N.leb_le in H1, H2.
  repeat split; repeat (apply orb_false_iff; split); apply N.eqb_neq; lia.
Qed.

Lemma skip_ws_start (c : codeunit) (t : jsstring) :
  value_start c = true -> skip_ws (c :: t) = c :: t.
Proof.
  intros H. apply value_start_plain in H. destruct H as (H & _).
  cbn [skip_ws]. now rewrite H.
Qed.

Lemma parse_number_head (c : codeunit) (t : jsstring) (r : number * jsstring) :
  parse_number (c :: t) = Ok r -> (N.eqb c 45 || is_digit c) = true.
Proof.
  unfold parse_number. destruct (N.eqb c 45); [reflexivity|].
  unfold parse_unsigned, parse_int.
  destruct (N.eqb_spec c 48) as [-> | _]; [reflexivity|].
  destruct (is_digit c); [reflexivity | discriminate].
Qed.

Lemma clean_number (x : number) :
  clean (JNumber x) = true ->
  exists m e, x = Finite m e /\ normalize m e = (m, e).
Proof.
  destruct x as [| b | m e]; simpl; try discriminate.
  destruct (normalize m e) as [m' e'] eqn:E.
  rewrite andb_true_iff, !Z.eqb_eq. intros [-> ->]. eauto.
Qed.

Lemma stringify_start (v : json) :
  clean v = true ->
  exists c t, stringify v = c :: t /\ value_start c = true.
Proof.
  destruct v as [ | [|] | x | s | l | m]; intros Hc;
    try (eexists; eexists; split; reflexivity).
  apply clean_number in Hc. destruct Hc as (m & e & -> & Hn).
  pose proof (parse_number_toString m e [] Hn I) as H.
  rewrite List.app_nil_r in H. cbn [stringify isFinite].
  destruct (Number_toString (Finite m e)) as [|c t]; [discriminate|].
  apply parse_number_head in H. exists c, t. split; [reflexivity|].
  unfold value_start. apply orb_true_iff in H.
  destruct H as [-> | ->]; now rewrite ?orb_true_r.
Qed.

Lemma number_end_separator (c : codeunit) (t : jsstring) :
  c = 44%N \/ c = 93%N \/ c = 125%N -> number_end (c :: t).
Proof.
  intros [-> | [-> | ->]]; repeat split; discriminate.
Qed.

Lemma join_commas_one {A : Type} (f : A -> jsstring) (x : A) :
  join_commas f [x] = f x.
Proof. cbn [join_commas]. apply List.app_nil_r. Qed.

Lemma join_commas_more {A : Type} (f : A -> jsstring) (x y : A) (l : list A) :
  join_commas f (x :: y :: l) = f x ++ 44%N :: join_commas f (y :: l).
Proof. reflexivity. Qed.

Lemma parse_elements_join (l : list json) (x : json) :
  Forall reads_back (x :: l) -> forallb clean (x :: l) = true ->
  exists fuel, forall rest,
    parse_elements fuel (join_commas stringify (x :: l) ++ 93%N :: rest)
    = Ok (x :: l, rest).
Proof.
  revert x. induction l as [|y l IH]; intros x Hr Hc.
  - inversion Hr as [|? ? (fx & Hx) _]; subst.
    exists (S fx). intros rest. cbn [parse_elements].
    rewrite join_commas_one, Hx by (apply number_end_separator; auto).
    reflexivity.
  - inversion Hr as [|? ? (fx & Hx) Hr']; subst.
    cbn [forallb] in Hc. apply andb_true_iff in Hc. destruct Hc as [Hcx Hc].
    destruct (IH y Hr' Hc) as (f2 & H2).
    assert (Hcy : clean y = true)
      by (cbn [forallb] in Hc; now apply andb_true_iff in Hc).
    destruct (stringify_start y Hcy) as (c & t & Hy & Hs).
    exists (S (Nat.max fx f2)). intros rest.
    cbn [parse_elements]. rewrite join_commas_more, <- app_assoc. cbn [app].
    rewrite (parse_value_more_fuel fx _ _ _
               (Hx _ (number_end_separator 44%N _ (or_introl eq_refl))))
      by lia.
    cbn [bind app skip_ws is_ws N.eqb Pos.eqb orb].
    assert (Hskip : forall u, skip_ws (join_commas stringify (y :: l) ++ u)
                              = join_commas stringify (y :: l) ++ u).
    { intros u. cbn [join_commas]. rewrite Hy. cbn [app].
      now apply skip_ws_start. }
    rewrite Hskip.
    rewrite (parse_elements_more_fuel f2 _ _ _ (H2 rest)) by lia.
    reflexivity.
Qed.

Lemma parse_members_join (m : list (jsstring * json)) (kv : jsstring * json) :
  Forall (fun kv => reads_back (snd kv)) (kv :: m) ->
  forallb (fun kv => clean (snd kv)) (kv :: m) = true ->
  exists fuel, forall rest,
    parse_members fuel (join_commas member_text (kv :: m) ++ 125%N :: rest)
    = Ok (kv :: m, rest).
Proof.
  revert kv. induction m as [|kv' m IH]; intros [k x] Hr Hc.
  - inversion Hr as [|? ? (fx & Hx) _]; subst. simpl in Hx.
    cbn [forallb snd] in Hc. rewrite andb_true_r in Hc.
    destruct (stringify_start x Hc) as (c & t & Hxs & Hs).
    exists (S fx). intros rest.
    rewrite join_commas_one.
    cbn [member_text fst snd QuoteJSONString app parse_members].
    rewrite N.eqb_refl.
    rewrite <- !app_assoc. cbn [app].
    rewrite parse_string_quote_chars.
    cbn [bind skip_ws is_ws N.eqb Pos.eqb orb].
    assert (Hskip : forall u, skip_ws (stringify x ++ u) = stringify x ++ u)
      by (intros u; rewrite Hxs; cbn [app]; now apply skip_ws_start).
    rewrite Hskip, Hx by (apply number_end_separator; auto).
    reflexivity.
  - inversion Hr as [|? ? (fx & Hx) Hr']; subst. simpl in Hx.
    cbn [forallb snd] in Hc. apply andb_true_iff in Hc. destruct Hc as [Hcx Hc].
    destruct (IH kv' Hr' Hc) as (f2 & H2).
    destruct (stringify_start x Hcx) as (c & t & Hxs & Hs).
    exists (S (Nat.max fx f2)). intros rest.
    rewrite join_commas_more. unfold member_text at 1.
    cbn [parse_members fst snd QuoteJSONString app]. rewrite N.eqb_refl.
    rewrite <- !app_assoc. cbn [app].
    rewrite parse_string_quote_chars.
    cbn [bind skip_ws is_ws N.eqb Pos.eqb orb].
    assert (Hskip : forall u, skip_ws (stringify x ++ u) = stringify x ++ u)
      by (intros u; rewrite Hxs; cbn [app]; now apply skip_ws_start).
    rewrite Hskip.
    rewrite (parse_value_more_fuel fx _ _ _
               (Hx _ (number_end_separator 44%N _ (or_introl eq_refl))))
      by lia.
    cbn [bind skip_ws is_ws N.eqb Pos.eqb orb].
    assert (Hskip' : forall u, skip_ws (join_commas member_text (kv' :: m) ++ u)
                               = join_commas member_text (kv' :: m) ++ u).
    { intros u. cbn [join_commas]. unfold member_text at 1.
      cbn [QuoteJSONString app]. reflexivity. }
    rewrite Hskip'.
    rewrite (parse_members_more_fuel f2 _ _ _ (H2 rest)) by lia.
    reflexivity.
Qed.

Lemma stringify_reads_back (v : json) : clean v = true -> reads_back v.
Proof.
  induction v as [ | b | x | s | l IHl | m IHm] using json_induction;
    intros Hc.
  - exists 1. intros rest _. reflexivity.
  - exists 1. intros rest _. destruct b; reflexivity.
  - destruct (stringify_start _ Hc) as (c & t & Hs & Hst).
    apply clean_number in Hc. destruct Hc as (m & e & -> & Hn).
    exists 1. intros rest Hrest.
    pose proof (parse_number_toString m e rest Hn Hrest) as H.
    cbn [stringify isFinite] in *. rewrite Hs in *. cbn [app] in *.
    pose proof (parse_number_head _ _ _ H) as Hh.
    cbn [parse_value].
    assert (E1 : N.eqb c 91 = false /\ N.eqb c 123 = false /\ N.eqb c 34 = false).
    { unfold is_digit in Hh. apply orb_true_iff in Hh.
      destruct Hh as [Hh | Hh].
      - apply N.eqb_eq in Hh. subst c. repeat split.
      - apply andb_true_iff in Hh. destruct Hh as [H1 H2].
        apply N.leb_le in H1, H2. repeat split; apply N.eqb_neq; lia. }
    destruct E1 as (-> & -> & ->). rewrite Hh, H. reflexivity.
  - exists 1. intros rest _. cbn [stringify QuoteJSONString app parse_value].
    rewrite <- app_assoc. cbn [app N.eqb Pos.eqb].
    now rewrite parse_string_quote_chars.
  - destruct l as [|x l].
    + exists 1. intros rest _. reflexivity.
    + cbn [clean] in Hc.
      assert (Hr : Forall reads_back (x :: l)).
      { rewrite Forall_forall in *. intros y Hy. apply IHl; [exact Hy|].
        rewrite forallb_forall in Hc. now apply Hc. }
      destruct (parse_elements_join l x Hr Hc) as (f & Hf).
      assert (Hcx : clean x = true)
        by (cbn [forallb] in Hc; now apply andb_true_iff in Hc).
      destruct (stringify_start x Hcx) as (c & t & Hxs & Hs).
      exists (S f). intros rest _.
      cbn [stringify app parse_value N.eqb Pos.eqb].
      rewrite <- app_assoc. cbn [app].
      specialize (Hf rest).
      assert (Hhead : exists t', join_commas stringify (x :: l) ++ 93%N :: rest = c :: t')
        by (cbn [join_commas]; rewrite Hxs; cbn [app]; eauto).
      destruct Hhead as (t' & Ht'). rewrite Ht' in *.
      rewrite skip_ws_start by exact Hs.
      apply value_start_plain in Hs. destruct Hs as (_ & -> & _).
      now rewrite Hf.
  - destruct m as [|kv m].
    + exists 1. intros rest _. reflexivity.
    + cbn [clean] in Hc.
      assert (Hr : Forall (fun kv => reads_back (snd kv)) (kv :: m)).
      { rewrite Forall_forall in *. intros y Hy. apply IHm; [exact Hy|].
        rewrite forallb_forall in Hc. now apply Hc. }
      destruct (parse_members_join m kv Hr Hc) as (f & Hf).
      exists (S f). intros rest _.
      cbn [stringify app parse_value N.eqb Pos.eqb].
      rewrite <- app_assoc. cbn [app].
      specialize (Hf rest). fold member_text.
      assert (Hhead : exists t', join_commas member_text (kv :: m) ++ 125%N :: rest = 34%N :: t')
        by (cbn [join_commas]; unfold member_text at 1;
            cbn [QuoteJSONString app]; eauto).
      destruct Hhead as (t' & Ht'). unfold member_text in *. rewrite Ht' in *.
      cbn [skip_ws is_ws N.eqb Pos.eqb orb]. now rewrite Hf.
Qed.

(** Parsing the text that [JSON.stringify] writes for a clean value gives
    the value back. *)
Lemma parse_stringify (v : json) :
  clean v = true -> parse (stringify v) = Some v.
Proof.
  intros Hc. destruct (stringify_reads_back v Hc) as (f & Hf).
  specialize (Hf [] I). rewrite List.app_nil_r in Hf.
  destruct (stringify_start v Hc) as (c & t & Hs & Hst).
  unfold parse. rewrite Hs, skip_ws_start by exact Hst. rewrite <- Hs.
  set (n := 2 * length (stringify v) + 1).
  destruct (parse_value_fuel n) as (Hn & _).
  specialize (Hn (stringify v) (Nat.le_refl _)).
  destruct (parse_value_stable n (Nat.max n f) (Nat.le_max_l _ _)) as (Hv & _).
  rewrite <- (Hv _ Hn).
  rewrite (parse_value_more_fuel f _ _ _ Hf (Nat.le_max_r _ _)).
  reflexivity.
Qed.

End ValueRoundTrip.
(* ================================================================== *)
(** * The item store *)
(* ================================================================== *)

Local Open Scope nat_scope.

(** ** The fields the helpers of the page leave alone *)

Section Frame.

Variable w : world.

Lemma renderTodos_todos : todos (renderTodos w) = todos w.
Proof. unfold renderTodos. destruct (getFilteredTodos w); reflexivity. Qed.

Lemma renderTodos_localStorage : localStorage (renderTodos w) = localStorage w.
Proof. unfold renderTodos. destruct (getFilteredTodos w); reflexivity. Qed.

Lemma renderTodos_setItem_calls : setItem_calls (renderTodos w) = setItem_calls w.
Proof. unfold renderTodos. destruct (getFilteredTodos w); reflexivity. Qed.

Lemma renderTodos_currentFilter : currentFilter (renderTodos w) = currentFilter w.
Proof. unfold renderTodos. destruct (getFilteredTodos w); reflexivity. Qed.

Lemma updateTodoCounter_todos : todos (updateTodoCounter w) = todos w.
Proof. reflexivity. Qed.

Lemma updateTodoCounter_localStorage :
  localStorage (updateTodoCounter w) = localStorage w.
Proof. reflexivity. Qed.

Lemma updateTodoCounter_setItem_calls :
  setItem_calls (updateTodoCounter w) = setItem_calls w.
Proof. reflexivity. Qed.

End Frame.

Create Rewrite HintDb frame.
#[local] Hint Rewrite renderTodos_todos renderTodos_localStorage
  renderTodos_setItem_calls renderTodos_currentFilter
  updateTodoCounter_todos updateTodoCounter_localStorage
  updateTodoCounter_setItem_calls : frame.

(** ** trim *)

Lemma trimStart_nil_iff (s : jsstring) :
  trimStart s = [] <-> forallb is_white_space s = true.
Proof.
  induction s as [|c r IH]; simpl.
  - tauto.
  - destruct (is_white_space c); simpl.
    + exact IH.
    + split; discriminate.
Qed.

(** The trimmed text is empty exactly when the text is empty or holds
    nothing but white space. *)
Lemma trim_nil_iff (s : jsstring) :
  trim s = [] <-> forallb is_white_space s = true.
Proof.
  unfold trim, trimEnd. rewrite <- trimStart_nil_iff. split.
  - intros H. apply (f_equal (@rev _)) in H. rewrite rev_involutive in H.
    simpl in H. apply trimStart_nil_iff in H.
    rewrite forallb_forall in H.
    destruct (trimStart s) as [|c r] eqn:E; [reflexivity|].
    assert (Hc : is_white_space c = true)
      by (apply H, in_rev; rewrite rev_involutive; left; reflexivity).
    destruct s as [|c' r']; [discriminate|]. simpl in E.
    destruct (is_white_space c') eqn:E'.
    + clear H. revert E. clear E'. induction r' as [|a l IHl]; simpl.
      * discriminate.
      * destruct (is_white_space a) eqn:Ea; [exact IHl|].
        intros [= -> ->]. congruence.
    + injection E as -> ->. congruence.
  - intros ->. reflexivity.
Qed.

(** ** The write *)

(** Both ways [localStorage.setItem] can end, in the proofs below. *)
Ltac write_cases :=
  unfold saveTodosToStorage, localStorage_setItem;
  cbn [set_todos todos localStorage];
  destruct (accepts _ _ _) eqn:?;
  cbn [then_ world_of].

Ltac fields := cbn; autorewrite with frame; try reflexivity.

(** Whether the store takes the write or not, [saveTodosToStorage] makes one
    call of [setItem], with the key of the script and the text of the
    array, and touches nothing else but the entry of that key. *)
Lemma saveTodosToStorage_setItem_calls (w : world) :
  setItem_calls (saveTodosToStorage w) =
    (STORAGE_KEY, JSON.stringify (JArray (map todo_value (todos w))))
    :: setItem_calls w.
Proof. write_cases; reflexivity. Qed.

Lemma saveTodosToStorage_untouched (w : world) :
  todos (saveTodosToStorage w) = todos w /\
  currentFilter (saveTodosToStorage w) = currentFilter w /\
  console (saveTodosToStorage w) = console w /\
  todoMessage (saveTodosToStorage w) = todoMessage w /\
  todoInput (saveTodosToStorage w) = todoInput w /\
  todoCount (saveTodosToStorage w) = todoCount w /\
  todoList (saveTodosToStorage w) = todoList w /\
  filterButtons (saveTodosToStorage w) = filterButtons w /\
  accepts (localStorage (saveTodosToStorage w)) = accepts (localStorage w).
Proof. write_cases; repeat split. Qed.

Lemma saveTodosToStorage_returns (w : world) :
  takes w (todos w) ->
  saveTodosToStorage w = Normal None (saveTodosToStorage w) /\
  stored (saveTodosToStorage w).
Proof.
  unfold takes, stored, localStorage_getItem. intros H.
  unfold saveTodosToStorage, localStorage_setItem. rewrite H.
  cbn. unfold string_eqb.
  now destruct (list_eq_dec N.eq_dec STORAGE_KEY STORAGE_KEY).
Qed.

Lemma saveTodosToStorage_throws (w : world) :
  ~ takes w (todos w) ->
  saveTodosToStorage w = Throw (saveTodosToStorage w) /\
  localStorage (saveTodosToStorage w) = localStorage w.
Proof.
  unfold takes. intros H.
  unfold saveTodosToStorage, localStorage_setItem.
  destruct (accepts _ _ _); [now elim H | split; reflexivity].
Qed.

Lemma saveTodosToStorage_other_keys (key : jsstring) (w : world) :
  key <> STORAGE_KEY ->
  localStorage_getItem key (saveTodosToStorage w) = localStorage_getItem key w.
Proof.
  intros H. unfold localStorage_getItem. write_cases; [|reflexivity].
  cbn [set_localStorage localStorage entries]. unfold string_eqb.
  destruct (list_eq_dec N.eq_dec key STORAGE_KEY); [contradiction | reflexivity].
Qed.

(** ** addTodo *)

(** C2.  When the trimmed text is empty, [addTodo] only shows its advisory
    message (the EmptyInput outcome): the array, the stored value and the
    list of writes are those of before. *)
Theorem C2_addTodo_empty_input (now : Z) (text_ : jsstring) (w : world) :
  trim text_ = [] ->
  world_of (addTodo now text_ w) =
    setTodoMessage (lit "Please enter a todo before adding.") w /\
  todos (addTodo now text_ w) = todos w /\
  localStorage (addTodo now text_ w) = localStorage w /\
  setItem_calls (addTodo now text_ w) = setItem_calls w.
Proof.
  intros H. unfold addTodo. rewrite H. repeat split.
Qed.

Lemma C2_addTodo_empty_input_witness :
  trim (lit "   ") = [] /\
  todos (addTodo 1700000000000 (lit "   ") fresh) = todos fresh.
Proof.
  split; [reflexivity|].
  apply (C2_addTodo_empty_input 1700000000000 (lit "   ") fresh).
  reflexivity.
Defined.


Lemma addTodo_todos (now : Z) (text_ : jsstring) (w : world) :
  todos (addTodo now text_ w) =
    match trim text_ with
    | [] => todos w
    | _ :: _ => todos w ++ [{| id := of_Z now; text := trim text_;
                               completed := false |}]
    end.
Proof.
  unfold addTodo. destruct (trim text_); [reflexivity|].
  write_cases; fields.
Qed.

(** How [addTodo] ends when the text is not blank: it returns [undefined]
    when the store takes the new array, and throws otherwise. *)
Lemma addTodo_ends (now : Z) (text_ : jsstring) (w : world) :
  trim text_ <> [] ->
  (takes w (todos (addTodo now text_ w)) ->
   addTodo now text_ w = Normal None (addTodo now text_ w)) /\
  (~ takes w (todos (addTodo now text_ w)) ->
   addTodo now text_ w = Throw (addTodo now text_ w)).
Proof.
  intros H. rewrite addTodo_todos. unfold addTodo, takes.
  destruct (trim text_) as [|c r]; [now elim H|].
  write_cases; split; intros Ha; try reflexivity; congruence.
Qed.

(** C1, as the script has it.  When the trimmed text is not empty,
    [addTodo] appends one object to the end of the array, with the trimmed
    text, [completed] false and the value of [Date.now()] as its [id]; the
    items that were there stay as they were.  The [id] is the clock
    reading, so it is unused whenever every item already there carries an
    earlier reading.  The call returns [undefined], not the object, or it
    throws when the store refuses the write. *)
Theorem C1_addTodo_appends (now : Z) (text_ : jsstring) (w : world) :
  trim text_ <> [] ->
  let w' := addTodo now text_ w in
  let newTodo := {| id := of_Z now; text := trim text_; completed := false |} in
  todos w' = todos w ++ [newTodo] /\
  ((forall t, In t (todos w) ->
      exists z, id t = of_Z z /\ (z < now)%Z) ->
   forall t, In t (todos w) -> number_strict_eq (id t) (id newTodo) = false) /\
  (takes w (todos w') -> addTodo now text_ w = Normal None w') /\
  (~ takes w (todos w') -> addTodo now text_ w = Throw w').
Proof.
  intros H. cbv zeta. split; [| split].
  - rewrite addTodo_todos. destruct (trim text_); [now elim H | reflexivity].
  - intros Hold t Ht. destruct (Hold t Ht) as (z & -> & Hz). cbn [id].
    rewrite number_strict_eq_of_Z. apply Z.eqb_neq. lia.
  - now apply addTodo_ends.
Qed.

Lemma C1_addTodo_appends_witness :
  trim (lit " buy milk ") <> [] /\
  todos (addTodo 1700000000000 (lit " buy milk ") fresh) =
    [{| id := of_Z 1700000000000; text := lit "buy milk"; completed := false |}].
Proof.
  assert (H : trim (lit " buy milk ") <> []) by (vm_compute; discriminate).
  split; [exact H|].
  exact (proj1 (C1_addTodo_appends 1700000000000 (lit " buy milk ") fresh H)).
Defined.

(** C1 as the specification states it fails: two calls within one
    millisecond give the second item the [id] of the first, and what the
    call returns is [undefined]. *)
Lemma C1_id_not_fresh_counterexample :
  let w := addTodo 1700000000000 (lit "a") fresh in
  let w' := addTodo 1700000000000 (lit "b") w in
  trim (lit "b") <> [] /\
  todos w' = todos w ++ [{| id := of_Z 1700000000000; text := lit "b";
                            completed := false |}] /\
  In (of_Z 1700000000000) (map id (todos w)) /\
  addTodo 1700000000000 (lit "b") w = Normal None w'.
Proof.
  vm_compute. repeat split; [discriminate | left; reflexivity].
Qed.

(** ** getFilteredTodos *)

Lemma filter_true {A : Type} (l : list A) : filter (fun _ => true) l = l.
Proof. induction l as [|a l IH]; simpl; [reflexivity | now rewrite IH]. Qed.

(** C5.  Under each of the three filters [getFilteredTodos] gives the items
    that pass it, in the order of the array: those not completed under
    [pending], those completed under [completed], all of them under [all]. *)
Theorem C5_getFilteredTodos (f : Filter) (w : world) :
  currentFilter w = filter_name f ->
  getFilteredTodos w = filter (passes f) (todos w).
Proof.
  intros H. unfold getFilteredTodos. rewrite H.
  destruct f; simpl; [symmetry; apply filter_true | reflexivity | reflexivity].
Qed.

Lemma C5_getFilteredTodos_witness :
  let a := {| id := of_Z 1; text := lit "a"; completed := false |} in
  let b := {| id := of_Z 2; text := lit "b"; completed := true |} in
  let c := {| id := of_Z 3; text := lit "c"; completed := false |} in
  let w := setFilter (lit "pending") (set_todos [a; b; c] fresh) in
  currentFilter w = filter_name Pending /\ getFilteredTodos w = [a; c].
Proof.
  cbv zeta. split; [reflexivity|].
  rewrite (C5_getFilteredTodos Pending); reflexivity.
Defined.

(** ** The counter *)

Lemma length_filter_split {A : Type} (p : A -> bool) (l : list A) :
  length l = length (filter (fun x => negb (p x)) l) + length (filter p l).
Proof.
  induction l as [|a l IH]; simpl; [reflexivity|].
  destruct (p a); simpl; lia.
Qed.

Lemma how_many_filter (flag : bool) (l : list todo) :
  length (filter (fun t => Bool.eqb (completed t) flag) l) = how_many flag l.
Proof.
  induction l as [|t l IH]; [reflexivity|].
  cbn [filter how_many]. destruct (Bool.eqb (completed t) flag); cbn [length];
    now rewrite IH.
Qed.

(** The three numbers of [updateTodoCounter] are the length of the array
    and the numbers of its items that are not completed and that are. *)
Lemma counts_spelled (l : list todo) :
  counts l = (length l, how_many false l, how_many true l).
Proof.
  unfold counts. rewrite <- !how_many_filter.
  replace (filter (fun t => Bool.eqb (completed t) false) l)
    with (filter (fun t => negb (completed t)) l)
    by (apply filter_ext; intros t; now destruct (completed t)).
  replace (filter (fun t => Bool.eqb (completed t) true) l)
    with (filter (fun t => completed t) l)
    by (apply filter_ext; intros t; now destruct (completed t)).
  reflexivity.
Qed.

Lemma counter_text_spelled (l : list todo) :
  counter_text l =
    lit "Total: " ++ nat_text (length l) ++ lit " | Pending: " ++
    nat_text (how_many false l) ++ lit " | Completed: " ++
    nat_text (how_many true l).
Proof. unfold counter_text. now rewrite counts_spelled. Qed.

(** C6.  After every run of add, toggle and delete intents, from any
    state, the three numbers of the counter are these: the total is the
    length of the array, the pending number counts the items with
    [completed] false, the completed number those with [completed] true,
    and the total is the sum of the other two.  They are the numbers that
    [updateTodoCounter] writes on the page. *)
Theorem C6_counts_add_up (intents : list intent) (w : world) :
  let l := todos (run intents w) in
  let '(total, pending, done) := counts l in
  total = length l /\
  pending = how_many false l /\
  done = how_many true l /\
  total = pending + done /\
  todoCount (updateTodoCounter (run intents w)) =
    lit "Total: " ++ nat_text total ++ lit " | Pending: " ++
    nat_text pending ++ lit " | Completed: " ++ nat_text done.
Proof.
  cbv zeta. cbn [updateTodoCounter set_todoCount todoCount].
  rewrite counter_text_spelled, counts_spelled.
  repeat split. pose proof (counts_spelled (todos (run intents w))) as H.
  unfold counts in H. injection H as Hp Hd. rewrite <- Hp, <- Hd.
  apply length_filter_split.
Qed.

Lemma C6_counts_add_up_witness :
  let l := todos (run [Add 1700000000000 (lit "a"); Add 1700000000001 (lit "b");
                       Add 1700000000002 (lit "c");
                       Toggle (of_Z 1700000000001)] fresh) in
  length l = 3 /\ how_many false l = 2 /\ how_many true l = 1 /\
  counts l = (3, 2, 1).
Proof.
  cbv zeta.
  pose proof (C6_counts_add_up
                [Add 1700000000000 (lit "a"); Add 1700000000001 (lit "b");
                 Add 1700000000002 (lit "c"); Toggle (of_Z 1700000000001)]
                fresh) as H.
  cbv zeta in H.
  destruct (counts _) as [[total pending] done].
  destruct H as (Ht & Hp & Hd & _).
  assert (E1 : length (todos (run [Add 1700000000000 (lit "a");
                                   Add 1700000000001 (lit "b");
                                   Add 1700000000002 (lit "c");
                                   Toggle (of_Z 1700000000001)] fresh)) = 3)
    by (vm_compute; reflexivity).
  assert (E2 : how_many false
                 (todos (run [Add 1700000000000 (lit "a");
                              Add 1700000000001 (lit "b");
                              Add 1700000000002 (lit "c");
                              Toggle (of_Z 1700000000001)] fresh)) = 2)
    by (vm_compute; reflexivity).
  assert (E3 : how_many true
                 (todos (run [Add 1700000000000 (lit "a");
                              Add 1700000000001 (lit "b");
                              Add 1700000000002 (lit "c");
                              Toggle (of_Z 1700000000001)] fresh)) = 1)
    by (vm_compute; reflexivity).
  split; [exact E1|]. split; [exact E2|]. split; [exact E3|].
  rewrite Ht, Hp, Hd, E1, E2, E3. reflexivity.
Defined.

Lemma init_counter_in_sync (w : world) :
  todoCount (init w) = counter_text (todos (init w)).
Proof.
  unfold init. rewrite renderTodos_todos.
  unfold renderTodos. destruct (getFilteredTodos _); reflexivity.
Qed.

(** ** toggleTodoCompleted, deleteTodo, setFilter *)

Lemma toggleTodoCompleted_todos (id_ : number) (w : world) :
  todos (toggleTodoCompleted id_ w) = map (toggled id_) (todos w).
Proof.
  unfold toggleTodoCompleted. write_cases; fields.
Qed.

Lemma toggled_twice (id_ : number) (t : todo) :
  toggled id_ (toggled id_ t) = t.
Proof.
  unfold toggled. destruct (number_strict_eq (id t) id_) eqn:E; simpl.
  - rewrite E, negb_involutive. now destruct t.
  - now rewrite E.
Qed.

(** C7.  Two calls of [toggleTodoCompleted] with the same id leave the
    array as it was, every [completed] flag included. *)
Theorem C7_toggle_twice (id_ : number) (w : world) :
  todos (toggleTodoCompleted id_ (toggleTodoCompleted id_ w)) = todos w.
Proof.
  rewrite !toggleTodoCompleted_todos, map_map.
  rewrite <- (map_id (todos w)) at 2.
  apply map_ext. intros t. apply toggled_twice.
Qed.

Lemma toggleTodoCompleted_setItem_calls (id_ : number) (w : world) :
  setItem_calls (toggleTodoCompleted id_ w) =
    (STORAGE_KEY,
     JSON.stringify (JArray (map todo_value (map (toggled id_) (todos w)))))
    :: setItem_calls w.
Proof. unfold toggleTodoCompleted. write_cases; fields. Qed.

(** How [toggleTodoCompleted] ends: it returns [undefined] with the store
    holding the new array when the store takes it, and it throws with the
    store as it was otherwise. *)
Lemma toggleTodoCompleted_ends (id_ : number) (w : world) :
  (takes w (todos (toggleTodoCompleted id_ w)) ->
   toggleTodoCompleted id_ w = Normal None (toggleTodoCompleted id_ w) /\
   stored (toggleTodoCompleted id_ w)) /\
  (~ takes w (todos (toggleTodoCompleted id_ w)) ->
   toggleTodoCompleted id_ w = Throw (toggleTodoCompleted id_ w) /\
   localStorage (toggleTodoCompleted id_ w) = localStorage w).
Proof.
  rewrite toggleTodoCompleted_todos.
  unfold toggleTodoCompleted, takes, stored, localStorage_getItem.
  write_cases; split; intros Ha; try congruence.
  - split; [reflexivity | fields].
  - split; reflexivity.
Qed.

(** Items that are, one by one, those of another array with [completed]
    negated where the id matches. *)
Lemma flipped_determined (id_ : number) (l l' : list todo) :
  Forall2 (fun before after =>
             id after = id before /\ text after = text before /\
             completed after =
               if number_strict_eq (id before) id_
               then negb (completed before) else completed before) l l' ->
  l' = map (fun t => {| id := id t; text := text t;
                        completed := if number_strict_eq (id t) id_
                                     then negb (completed t)
                                     else completed t |}) l.
Proof.
  induction 1 as [|a b l l' (Hi & Ht & Hc) _ IH]; [reflexivity|].
  cbn [map]. rewrite <- IH, <- Hi, <- Ht, <- Hc at 1. now destruct b.
Qed.

(** C8, as the script has it.  [toggleTodoCompleted(id)] negates
    [completed] on every item whose id is [id] and keeps the others, with
    every id and text as it was; when no item has that id the array is
    unchanged, and nothing tells the caller so: with or without a match the
    call makes its one [setItem] call with the text of the resulting array
    and returns [undefined].  The store then holds that text.  The one way
    the call can end otherwise is the store refusing the write: then it
    throws, and the store keeps what it had. *)
Theorem C8_toggle_always_writes (id_ : number) (w : world) :
  let w' := toggleTodoCompleted id_ w in
  Forall2 (fun before after =>
             id after = id before /\ text after = text before /\
             completed after =
               if number_strict_eq (id before) id_
               then negb (completed before) else completed before)
          (todos w) (todos w') /\
  ((forall t, In t (todos w) -> number_strict_eq (id t) id_ = false) ->
   todos w' = todos w) /\
  setItem_calls w' =
    (STORAGE_KEY, JSON.stringify (JArray (map todo_value (todos w'))))
    :: setItem_calls w /\
  (takes w (todos w') ->
   toggleTodoCompleted id_ w = Normal None w' /\ stored w') /\
  (~ takes w (todos w') ->
   toggleTodoCompleted id_ w = Throw w' /\ localStorage w' = localStorage w).
Proof.
  cbv zeta. split; [| split; [| split]].
  - rewrite toggleTodoCompleted_todos.
    induction (todos w) as [|t l IH]; constructor; [|exact IH].
    unfold toggled. destruct (number_strict_eq (id t) id_); repeat split.
  - intros H. rewrite toggleTodoCompleted_todos.
    rewrite <- (map_id (todos w)) at 2.
    apply map_ext_in. intros t Ht. unfold toggled. now rewrite (H t Ht).
  - rewrite toggleTodoCompleted_todos. apply toggleTodoCompleted_setItem_calls.
  - apply toggleTodoCompleted_ends.
Qed.

Lemma C8_toggle_always_writes_witness :
  let w := addTodo 1700000000001 (lit "b")
             (addTodo 1700000000000 (lit "a") fresh) in
  todos (toggleTodoCompleted (of_Z 1700000000001) w) =
    [{| id := of_Z 1700000000000; text := lit "a"; completed := false |};
     {| id := of_Z 1700000000001; text := lit "b"; completed := true |}] /\
  todos (toggleTodoCompleted (of_Z 7) w) = todos w /\
  length (setItem_calls (toggleTodoCompleted (of_Z 7) w)) =
    S (length (setItem_calls w)).
Proof.
  cbv zeta.
  set (w := world_of (addTodo 1700000000001 (lit "b")
                        (addTodo 1700000000000 (lit "a") fresh))).
  pose proof (C8_toggle_always_writes (of_Z 1700000000001) w) as H1.
  pose proof (C8_toggle_always_writes (of_Z 7) w) as H2.
  cbv zeta in H1, H2.
  destruct H1 as (F1 & _). destruct H2 as (_ & N2 & S2 & _).
  assert (E : todos w =
              [{| id := of_Z 1700000000000; text := lit "a"; completed := false |};
               {| id := of_Z 1700000000001; text := lit "b"; completed := false |}])
    by (vm_compute; reflexivity).
  split; [| split].
  - apply flipped_determined in F1. rewrite F1, E. vm_compute. reflexivity.
  - apply N2. rewrite E. intros t [<- | [<- | []]]; reflexivity.
  - rewrite S2. reflexivity.
Defined.

(** C8 as the specification states it fails: toggling an id that no item
    has changes nothing in memory, and the store is written all the same. *)
Lemma C8_write_without_change_counterexample :
  let w' := toggleTodoCompleted (of_Z 7) fresh in
  existsb (fun t => number_strict_eq (id t) (of_Z 7)) (todos fresh) = false /\
  todos w' = todos fresh /\
  setItem_calls fresh = [] /\
  setItem_calls w' = [(STORAGE_KEY, lit "[]")].
Proof.
  vm_compute. repeat split.
Qed.

(** C9.  [setFilter] sets the active filter and leaves the array, the
    stored value and the list of writes as they were. *)
Theorem C9_setFilter_frame (filter_ : jsstring) (w : world) :
  let w' := setFilter filter_ w in
  currentFilter w' = filter_ /\
  todos w' = todos w /\
  localStorage w' = localStorage w /\
  setItem_calls w' = setItem_calls w.
Proof.
  cbv zeta. unfold setFilter.
  repeat split; autorewrite with frame; reflexivity.
Qed.

(** ** loadTodosFromStorage *)

(** C4.  When the store has no entry, or its text is not JSON, or the text
    is JSON for something that is not an array, [loadTodosFromStorage]
    leaves the array empty; being a total function it raises nothing. *)
Theorem C4_load_resets (w : world) :
  (localStorage_getItem STORAGE_KEY w = None \/
   exists saved, localStorage_getItem STORAGE_KEY w = Some saved /\
     (JSON.parse saved = None \/
      exists v, JSON.parse saved = Some v /\ forall l, v <> JArray l)) ->
  todos (loadTodosFromStorage w) = [].
Proof.
  unfold loadTodosFromStorage.
  intros [-> | (saved & -> & H)]; [reflexivity|].
  destruct saved as [|c r]; [reflexivity|].
  destruct H as [-> | (v & -> & Hv)]; [reflexivity|].
  destruct v; try reflexivity. now elim (Hv elements).
Qed.

Lemma C4_load_resets_witness :
  todos (loadTodosFromStorage
           (localStorage_setItem STORAGE_KEY (lit "{]") fresh)) = [] /\
  todos (loadTodosFromStorage
           (localStorage_setItem STORAGE_KEY (lit "{}")
              (addTodo 5 (lit "a") fresh))) = [].
Proof.
  split; apply C4_load_resets; right.
  - exists (lit "{]"). split; [reflexivity|]. left. reflexivity.
  - exists (lit "{}"). split; [reflexivity|]. right.
    exists (JObject []). split; [reflexivity|]. discriminate.
Defined.

Lemma Array_map_Some (f : json -> option todo) (l : list json) (r : list todo) :
  Array_map f l = Some r -> Forall2 (fun x y => f x = Some y) l r.
Proof.
  revert r. induction l as [|x l IH]; simpl; intros r.
  - intros [= <-]. constructor.
  - destruct (f x) eqn:E; [|discriminate].
    destruct (Array_map f l); [|discriminate].
    intros [= <-]. constructor; auto.
Qed.

Lemma Array_map_None (f : json -> option todo) (l : list json) :
  Array_map f l = None <-> exists x, In x l /\ f x = None.
Proof.
  induction l as [|x l IH]; simpl.
  - split; [discriminate | intros (? & [] & _)].
  - destruct (f x) eqn:E.
    + destruct (Array_map f l).
      * split; [discriminate|]. intros (y & [<- | Hy] & Hn); [congruence|].
        destruct IH as [_ IH]. discriminate IH. eauto.
      * split; [|reflexivity]. intros _.
        destruct IH as [IH _]. destruct (IH eq_refl) as (y & Hy & Hn). eauto.
    + split; [|reflexivity]. eauto.
Qed.

Lemma load_item_coerced (item : json) (t : todo) :
  load_item item = Some t -> coerced item t.
Proof.
  unfold load_item, coerced.
  destruct (Get item (lit "id")) as [i|]; [|discriminate].
  destruct (Number_ i) as [n|] eqn:En; [|discriminate].
  destruct (Get item (lit "text")) as [tx|]; [|discriminate].
  destruct (String_ tx) as [str|] eqn:Es; [|discriminate].
  destruct (Get item (lit "completed")) as [c|]; [|discriminate].
  intros [= <-]. exists i, tx, c. simpl.
  repeat match goal with |- _ /\ _ => split end;
    try reflexivity; try assumption.
  - intros ->. simpl in Es. congruence.
  - intros ->. simpl in Es. congruence.
Qed.

Lemma load_item_None (item : json) :
  load_item item = None <->
  item = JNull \/
  exists m, item = JObject m /\
    (Number_ (lookup (lit "id") m) = None \/
     String_ (lookup (lit "text") m) = None).
Proof.
  unfold load_item. destruct item; simpl;
    try (split; [discriminate | intros [H | (m & H & _)]; discriminate]).
  - split; auto.
  - destruct (Number_ (lookup (lit "id") members)) eqn:En.
    + destruct (String_ (lookup (lit "text") members)) eqn:Es.
      * split; [discriminate|].
        intros [H | (m & [= <-] & [H | H])]; congruence.
      * split; [|reflexivity]. intros _. right. exists members. auto.
    + split; [|reflexivity]. intros _. right. exists members. auto.
Qed.

(** C10, as the script has it.  When the stored text parses to an array and
    no element makes the callback throw, the loaded array has one item per
    element, in order, with [id], [text] and [completed] coerced by
    [Number], [String] and [Boolean]; nothing is skipped, a missing [text]
    becomes [undefined] and an empty [text] stays empty.  When an element
    does make it throw, as [null] does and as an [id] or [text] that is an
    object with a member named [toString] does, the [catch] empties the
    array. *)
Theorem C10_load_array (w : world) (saved : jsstring) (parsed : list json) :
  localStorage_getItem STORAGE_KEY w = Some saved ->
  JSON.parse saved = Some (JArray parsed) ->
  ((forall item, In item parsed -> load_item item <> None) ->
   Forall2 coerced parsed (todos (loadTodosFromStorage w)) /\
   length (todos (loadTodosFromStorage w)) = length parsed) /\
  ((exists item, In item parsed /\ load_item item = None) ->
   todos (loadTodosFromStorage w) = []) /\
  (forall item, load_item item = None <->
     item = JNull \/
     exists m, item = JObject m /\
       (Number_ (lookup (lit "id") m) = None \/
        String_ (lookup (lit "text") m) = None)).
Proof.
  intros Hs Hp. unfold loadTodosFromStorage. rewrite Hs.
  destruct saved as [|c r]; [discriminate|]. rewrite Hp.
  split; [| split].
  - intros Hok. destruct (Array_map load_item parsed) as [l|] eqn:E.
    + apply Array_map_Some in E. simpl. split.
      * eapply Forall2_impl; [|exact E]. apply load_item_coerced.
      * symmetry. eapply Forall2_length; eassumption.
    + apply Array_map_None in E. destruct E as (x & Hx & Hn).
      now elim (Hok x Hx).
  - intros H. apply Array_map_None in H. now rewrite H.
  - apply load_item_None.
Qed.


(* ================================================================== *)
(** * Saving and loading *)
(* ================================================================== *)




Lemma Number_toString_canon (x : number) :
  Number_toString (canon x) = Number_toString x.
Proof.
  destruct x as [| b | m e]; try reflexivity.
  unfold canon, decimal. pose proof (normalize_idempotent m e) as H.
  unfold Number_toString. destruct (normalize m e) as [m' e']. now rewrite H.
Qed.



Lemma join_commas_map {A B : Type} (f : B -> jsstring) (g : A -> B) (l : list A) :
  JSON.join_commas f (map g l) = JSON.join_commas (fun x => f (g x)) l.
Proof.
  induction l as [|x l IH]; [reflexivity|].
  cbn [map JSON.join_commas]. destruct l as [|y l]; [reflexivity|].
  cbn [map] in *. now rewrite IH.
Qed.

Lemma join_commas_ext {A : Type} (f g : A -> jsstring) (l : list A) :
  (forall x, f x = g x) -> JSON.join_commas f l = JSON.join_commas g l.
Proof.
  intros H. induction l as [|x l IH]; [reflexivity|].
  cbn [JSON.join_commas]. rewrite H. destruct l; [reflexivity | now rewrite IH].
Qed.






Lemma C10_load_array_witness :
  let saved := json_text "[{'text':''},7]" in
  let parsed := [JObject [(lit "text", JString [])]; JNumber (of_Z 7)] in
  let w := localStorage_setItem STORAGE_KEY saved fresh in
  (forall item, In item parsed -> load_item item <> None) /\
  Forall2 coerced parsed (todos (loadTodosFromStorage w)) /\
  length (todos (loadTodosFromStorage w)) = length parsed /\
  todos (loadTodosFromStorage w) =
    [{| id := NaN; text := []; completed := false |};
     {| id := NaN; text := lit "undefined"; completed := false |}].
Proof.
  cbv zeta.
  set (saved := json_text "[{'text':''},7]").
  set (parsed := [JObject [(lit "text", JString [])]; JNumber (of_Z 7)]).
  assert (H : forall item, In item parsed -> load_item item <> None)
    by (intros item [<- | [<- | []]]; discriminate).
  destruct (C10_load_array (localStorage_setItem STORAGE_KEY saved fresh)
              saved parsed
              eq_refl eq_refl) as (Hok & _).
  destruct (Hok H) as [HF HL].
  split; [exact H|]. split; [exact HF|]. split; [exact HL|].
  reflexivity.
Defined.

(** C10 as the specification states it fails: the text [[null]] parses to
    an array of one element, reading [null.id] throws, and the loaded array
    is empty. *)
Lemma C10_null_element_counterexample :
  let w := localStorage_setItem STORAGE_KEY (lit "[null]") fresh in
  JSON.parse (lit "[null]") = Some (JArray [JNull]) /\
  todos (loadTodosFromStorage w) = [] /\
  length (todos (loadTodosFromStorage w)) <> length [JNull].
Proof.
  vm_compute. repeat split. discriminate.
Qed.

(* ================================================================== *)
(** * Beyond the specification: the rest of the script *)
(* ================================================================== *)

Section MoreFrame.

Variable w : world.

Lemma renderTodos_console : console (renderTodos w) = console w.
Proof. unfold renderTodos. destruct (getFilteredTodos w); reflexivity. Qed.

Lemma renderTodos_todoMessage : todoMessage (renderTodos w) = todoMessage w.
Proof. unfold renderTodos. destruct (getFilteredTodos w); reflexivity. Qed.

Lemma renderTodos_todoInput : todoInput (renderTodos w) = todoInput w.
Proof. unfold renderTodos. destruct (getFilteredTodos w); reflexivity. Qed.

Lemma renderTodos_todoCount : todoCount (renderTodos w) = todoCount w.
Proof. unfold renderTodos. destruct (getFilteredTodos w); reflexivity. Qed.

Lemma renderTodos_filterButtons :
  filterButtons (renderTodos w) = filterButtons w.
Proof. unfold renderTodos. destruct (getFilteredTodos w); reflexivity. Qed.

End MoreFrame.

#[local] Hint Rewrite renderTodos_console renderTodos_todoMessage
  renderTodos_todoInput renderTodos_todoCount renderTodos_filterButtons
  : frame.

(** The list that [renderTodos] draws depends on the array and on the
    filter only. *)
Lemma renderTodos_todoList (w w' : world) :
  currentFilter w = currentFilter w' -> todos w = todos w' ->
  todoList (renderTodos w) = todoList (renderTodos w').
Proof.
  intros Hf Ht. unfold renderTodos, getFilteredTodos. rewrite Hf, Ht.
  destruct (string_eqb (currentFilter w') (lit "pending")).
  - destruct (filter _ (todos w')); reflexivity.
  - destruct (string_eqb (currentFilter w') (lit "completed")).
    + destruct (filter _ (todos w')); reflexivity.
    + destruct (todos w'); reflexivity.
Qed.

(** ** deleteTodo *)

Lemma deleteTodo_todos (id_ : number) (w : world) :
  todos (deleteTodo id_ w) =
    filter (fun t => negb (number_strict_eq (id t) id_)) (todos w).
Proof. unfold deleteTodo. write_cases; fields. Qed.

Lemma filter_filter {A : Type} (p q : A -> bool) (l : list A) :
  filter p (filter q l) = filter (fun x => q x && p x) l.
Proof.
  induction l as [|a l IH]; simpl; [reflexivity|].
  destruct (q a); simpl; [destruct (p a)|]; now rewrite IH.
Qed.

Lemma filter_length_le' {A : Type} (p : A -> bool) (l : list A) :
  length (filter p l) <= length l.
Proof.
  induction l as [|a l IH]; simpl; [lia|]. destruct (p a); simpl; lia.
Qed.

Lemma deleteTodo_setItem_calls (id_ : number) (w : world) :
  setItem_calls (deleteTodo id_ w) =
    (STORAGE_KEY,
     JSON.stringify (JArray (map todo_value (todos (deleteTodo id_ w)))))
    :: setItem_calls w.
Proof.
  rewrite deleteTodo_todos. unfold deleteTodo. write_cases; fields.
Qed.

(** The entry of the script after [deleteTodo]: the text of the new array
    when the store took it, the entry of before when it did not. *)
Lemma deleteTodo_entry (id_ : number) (w : world) :
  localStorage_getItem STORAGE_KEY (deleteTodo id_ w) =
    (if accepts (localStorage w) STORAGE_KEY
          (JSON.stringify (JArray (map todo_value (todos (deleteTodo id_ w)))))
     then Some (JSON.stringify
                  (JArray (map todo_value (todos (deleteTodo id_ w)))))
     else localStorage_getItem STORAGE_KEY w) /\
  accepts (localStorage (deleteTodo id_ w)) = accepts (localStorage w).
Proof.
  rewrite deleteTodo_todos. unfold deleteTodo, localStorage_getItem.
  unfold saveTodosToStorage, localStorage_setItem.
  cbn [set_todos todos localStorage].
  destruct (accepts _ _ _); cbn [then_ world_of]; autorewrite with frame;
    cbn [set_localStorage localStorage entries accepts];
    [|split; reflexivity].
  unfold string_eqb.
  now destruct (list_eq_dec N.eq_dec STORAGE_KEY STORAGE_KEY).
Qed.

(** X1.  [deleteTodo(id)] keeps, in their order, exactly the items whose id
    is not [===] to [id]: afterwards no item has that id, every other item
    is still there and the array has not grown.  It hands the text of the
    new array to [setItem] once, match or no match; the store then holds
    that text, unless it refuses the write, and then it keeps what it
    had. *)
Theorem X1_deleteTodo_removes (id_ : number) (w : world) :
  let w' := deleteTodo id_ w in
  todos w' = filter (fun t => negb (number_strict_eq (id t) id_)) (todos w) /\
  (forall t, In t (todos w') <->
             In t (todos w) /\ number_strict_eq (id t) id_ = false) /\
  length (todos w') <= length (todos w) /\
  setItem_calls w' =
    (STORAGE_KEY, JSON.stringify (JArray (map todo_value (todos w'))))
    :: setItem_calls w /\
  (takes w (todos w') -> stored w') /\
  (~ takes w (todos w') ->
   localStorage_getItem STORAGE_KEY w' = localStorage_getItem STORAGE_KEY w).
Proof.
  cbv zeta. pose proof (proj1 (deleteTodo_entry id_ w)) as He.
  split; [apply deleteTodo_todos|]. split; [|split; [|split; [|split]]].
  - intros t. rewrite deleteTodo_todos, filter_In, negb_true_iff. reflexivity.
  - rewrite deleteTodo_todos. apply filter_length_le'.
  - apply deleteTodo_setItem_calls.
  - unfold takes, stored. intros H. now rewrite H in He.
  - unfold takes. intros H. destruct (accepts _ _ _); [now elim H | exact He].
Qed.

(** X2.  Deleting the same id a second time changes nothing in the array:
    the second call only writes the same array again. *)
Theorem X2_deleteTodo_twice (id_ : number) (w : world) :
  let w1 := deleteTodo id_ w in
  let w2 := deleteTodo id_ w1 in
  todos w2 = todos w1 /\
  localStorage_getItem STORAGE_KEY w2 = localStorage_getItem STORAGE_KEY w1 /\
  length (setItem_calls w2) = S (length (setItem_calls w1)).
Proof.
  cbv zeta.
  assert (H : todos (deleteTodo id_ (deleteTodo id_ w)) = todos (deleteTodo id_ w)).
  { rewrite !deleteTodo_todos, filter_filter. apply filter_ext.
    intros t. now destruct (number_strict_eq (id t) id_). }
  split; [exact H|]. split.
  - destruct (deleteTodo_entry id_ (deleteTodo id_ w)) as [E2 _].
    destruct (deleteTodo_entry id_ w) as [E1 A1].
    rewrite E2, H, A1, E1.
    destruct (accepts (localStorage w) STORAGE_KEY _); reflexivity.
  - now rewrite deleteTodo_setItem_calls.
Qed.

(** ** toggleTodoCompleted *)

Lemma toggled_id (id_ : number) (t : todo) : id (toggled id_ t) = id t.
Proof. unfold toggled. now destruct (number_strict_eq (id t) id_). Qed.

Lemma toggled_text (id_ : number) (t : todo) : text (toggled id_ t) = text t.
Proof. unfold toggled. now destruct (number_strict_eq (id t) id_). Qed.

(** X3.  [toggleTodoCompleted] never adds, removes, reorders or renames:
    the array keeps its length, and position by position its ids and its
    texts. *)
Theorem X3_toggle_keeps_ids_and_texts (id_ : number) (w : world) :
  let w' := toggleTodoCompleted id_ w in
  length (todos w') = length (todos w) /\
  map id (todos w') = map id (todos w) /\
  map text (todos w') = map text (todos w).
Proof.
  cbv zeta. rewrite toggleTodoCompleted_todos, length_map, !map_map.
  repeat split; apply map_ext; intros t;
    [apply toggled_id | apply toggled_text].
Qed.

Lemma toggled_comm (a b : number) (t : todo) :
  toggled a (toggled b t) = toggled b (toggled a t).
Proof.
  unfold toggled.
  destruct (number_strict_eq (id t) a) eqn:Ea,
           (number_strict_eq (id t) b) eqn:Eb; simpl;
    rewrite ?Ea, ?Eb; reflexivity.
Qed.

(** X4.  The array left by toggles and deletes does not depend on their
    order: two toggles commute, two deletes commute, and a toggle commutes
    with a delete. *)
Theorem X4_toggle_delete_commute (a b : number) (w : world) :
  todos (toggleTodoCompleted a (toggleTodoCompleted b w)) =
    todos (toggleTodoCompleted b (toggleTodoCompleted a w)) /\
  todos (deleteTodo a (deleteTodo b w)) =
    todos (deleteTodo b (deleteTodo a w)) /\
  todos (toggleTodoCompleted a (deleteTodo b w)) =
    todos (deleteTodo b (toggleTodoCompleted a w)).
Proof.
  repeat split.
  - rewrite !toggleTodoCompleted_todos, !map_map.
    apply map_ext. intros t. apply toggled_comm.
  - rewrite !deleteTodo_todos, !filter_filter. apply filter_ext.
    intros t. apply andb_comm.
  - rewrite toggleTodoCompleted_todos, !deleteTodo_todos,
      toggleTodoCompleted_todos.
    induction (todos w) as [|t l IH]; [reflexivity|].
    cbn [filter map]. rewrite toggled_id.
    destruct (number_strict_eq (id t) b); cbn [negb map]; now rewrite IH.
Qed.

(** ** Items whose id is NaN *)

Lemma isNaN_strict_eq (x y : number) :
  isNaN x = true -> number_strict_eq x y = false.
Proof. destruct x; simpl; [reflexivity | discriminate | discriminate]. Qed.

Lemma isNaN_of_Z (z : Z) : isNaN (of_Z z) = false.
Proof. unfold of_Z, decimal. now destruct (normalize z 0). Qed.

Lemma NaN_items_toggle (id_ : number) (l : list todo) :
  filter (fun t => isNaN (id t)) (map (toggled id_) l) =
  filter (fun t => isNaN (id t)) l.
Proof.
  induction l as [|t l IH]; [reflexivity|]. cbn [map filter].
  rewrite toggled_id, IH.
  destruct (isNaN (id t)) eqn:E; [|reflexivity].
  unfold toggled. now rewrite (isNaN_strict_eq _ id_ E).
Qed.

Lemma NaN_items_delete (id_ : number) (l : list todo) :
  filter (fun t => isNaN (id t))
         (filter (fun t => negb (number_strict_eq (id t) id_)) l)
  = filter (fun t => isNaN (id t)) l.
Proof.
  rewrite filter_filter. apply filter_ext. intros t.
  destruct (isNaN (id t)) eqn:E; [|apply andb_false_r].
  now rewrite (isNaN_strict_eq _ id_ E).
Qed.

Lemma handleFormSubmit_world (now : Z) (w : world) :
  world_of (handleFormSubmit now w) = world_of (addTodo now (todoInput w) w).
Proof. unfold handleFormSubmit. now destruct (addTodo now (todoInput w) w). Qed.

Lemma setFilter_todos (filter_ : jsstring) (w : world) :
  todos (setFilter filter_ w) = todos w.
Proof. unfold setFilter. now autorewrite with frame. Qed.

Lemma NaN_items_dispatch (e : event) (w : world) :
  filter (fun t => isNaN (id t)) (todos (dispatch e w)) =
  filter (fun t => isNaN (id t)) (todos w).
Proof.
  destruct e as [v | now | n | n | f]; cbn [dispatch].
  - reflexivity.
  - rewrite handleFormSubmit_world, addTodo_todos.
    destruct (trim (todoInput w)); [reflexivity|].
    rewrite filter_app. cbn [filter id].
    now rewrite isNaN_of_Z, List.app_nil_r.
  - destruct (nth_error (todoList w) n) as [[m | t]|]; try reflexivity.
    rewrite toggleTodoCompleted_todos. apply NaN_items_toggle.
  - destruct (nth_error (todoList w) n) as [[m | t]|]; try reflexivity.
    rewrite deleteTodo_todos. apply NaN_items_delete.
  - now rewrite setFilter_todos.
Qed.

(** X5.  An item whose id is NaN (one loaded from an element without a
    usable id) can be neither toggled nor deleted: since NaN is [===] to
    nothing, whatever the user does on the page the items with a NaN id
    stay in the array as they are, in their order. *)
Theorem X5_NaN_items_stay (events : list event) (w : world) :
  filter (fun t => isNaN (id t)) (todos (session events w)) =
  filter (fun t => isNaN (id t)) (todos w).
Proof.
  revert w. induction events as [|e rest IH]; intros w; [reflexivity|].
  cbn [session]. rewrite IH. apply NaN_items_dispatch.
Qed.

(** ** What every change of the array is followed by *)

Lemma then_taken (w0 : world) (rest : world -> completion) :
  takes w0 (todos w0) ->
  saveTodosToStorage w0 >> rest = rest (saveTodosToStorage w0).
Proof.
  unfold takes. intros H. unfold saveTodosToStorage, localStorage_setItem.
  rewrite H. reflexivity.
Qed.

Lemma then_refused (w0 : world) (rest : world -> completion) :
  ~ takes w0 (todos w0) ->
  saveTodosToStorage w0 >> rest = Throw (saveTodosToStorage w0).
Proof.
  unfold takes. intros H. unfold saveTodosToStorage, localStorage_setItem.
  destruct (accepts _ _ _); [now elim H | reflexivity].
Qed.

Lemma takes_dec (w : world) (l : list todo) : takes w l \/ ~ takes w l.
Proof. unfold takes. destruct (accepts _ _ _); [now left | now right]. Qed.

Section Commit.

(** The tail of [addTodo], [toggleTodoCompleted] and [deleteTodo] when the
    store takes the write: save, render, update the counter. *)
Variable w0 : world.
Let w1 := updateTodoCounter (renderTodos (saveTodosToStorage w0)).

Lemma commit_todos : todos w1 = todos w0.
Proof. unfold w1. write_cases; fields. Qed.

Lemma commit_currentFilter : currentFilter w1 = currentFilter w0.
Proof. unfold w1. write_cases; fields. Qed.

Lemma commit_stored : takes w0 (todos w0) -> stored w1.
Proof.
  intros H. destruct (saveTodosToStorage_returns w0 H) as [_ Hs].
  unfold stored, localStorage_getItem, w1 in *.
  autorewrite with frame. cbn [updateTodoCounter set_todoCount localStorage].
  now autorewrite with frame.
Qed.

Lemma commit_rendered : rendered w1.
Proof.
  unfold rendered. unfold w1 at 1. cbn [updateTodoCounter set_todoCount todoList].
  apply renderTodos_todoList; unfold w1;
    cbn [updateTodoCounter set_todoCount currentFilter todos];
    now autorewrite with frame.
Qed.

Lemma commit_counted : counted w1.
Proof. unfold counted, w1. write_cases; fields. Qed.

End Commit.

(** A change that leaves the array, the filter, the store, the list and
    the counter as they are keeps the three agreements. *)
Lemma agreements_kept (w w' : world) :
  todos w' = todos w -> currentFilter w' = currentFilter w ->
  localStorage w' = localStorage w -> todoList w' = todoList w ->
  todoCount w' = todoCount w ->
  (stored w -> stored w') /\ (rendered w -> rendered w') /\
  (counted w -> counted w').
Proof.
  intros Ht Hf Hs Hl Hc. unfold stored, rendered, counted, localStorage_getItem.
  rewrite Ht, Hs, Hl, Hc. repeat split; try tauto.
  intros ->. now apply renderTodos_todoList.
Qed.

(** The page after each of the three operations when the store takes the
    write. *)
Lemma toggleTodoCompleted_taken (id_ : number) (w : world) :
  takes w (todos (toggleTodoCompleted id_ w)) ->
  world_of (toggleTodoCompleted id_ w) =
    updateTodoCounter
      (renderTodos
         (saveTodosToStorage (set_todos (map (toggled id_) (todos w)) w))).
Proof.
  rewrite toggleTodoCompleted_todos. intros H. unfold toggleTodoCompleted.
  now rewrite then_taken.
Qed.

Lemma deleteTodo_taken (id_ : number) (w : world) :
  takes w (todos (deleteTodo id_ w)) ->
  world_of (deleteTodo id_ w) =
    updateTodoCounter
      (renderTodos
         (saveTodosToStorage
            (set_todos
               (filter (fun t => negb (number_strict_eq (id t) id_)) (todos w))
               w))).
Proof.
  rewrite deleteTodo_todos. intros H. unfold deleteTodo.
  now rewrite then_taken.
Qed.

Lemma addTodo_taken (now : Z) (text_ : jsstring) (w : world) :
  trim text_ <> [] ->
  takes w (todos (addTodo now text_ w)) ->
  world_of (addTodo now text_ w) =
    resetInput
      (setTodoMessage []
         (updateTodoCounter
            (renderTodos
               (saveTodosToStorage
                  (set_todos
                     (todos w ++ [{| id := of_Z now; text := trim text_;
                                     completed := false |}]) w))))).
Proof.
  rewrite addTodo_todos. intros Hn H. unfold addTodo.
  destruct (trim text_) as [|c r]; [now elim Hn|].
  now rewrite then_taken.
Qed.

(** The page after each of them when the store refuses it: the array is
    the new one, and the call stopped at the write. *)
Lemma toggleTodoCompleted_refused (id_ : number) (w : world) :
  ~ takes w (todos (toggleTodoCompleted id_ w)) ->
  world_of (toggleTodoCompleted id_ w) =
    saveTodosToStorage (set_todos (map (toggled id_) (todos w)) w).
Proof.
  rewrite toggleTodoCompleted_todos. intros H. unfold toggleTodoCompleted.
  now rewrite then_refused.
Qed.

Lemma deleteTodo_refused (id_ : number) (w : world) :
  ~ takes w (todos (deleteTodo id_ w)) ->
  world_of (deleteTodo id_ w) =
    saveTodosToStorage
      (set_todos
         (filter (fun t => negb (number_strict_eq (id t) id_)) (todos w)) w).
Proof.
  rewrite deleteTodo_todos. intros H. unfold deleteTodo.
  now rewrite then_refused.
Qed.

Lemma addTodo_refused (now : Z) (text_ : jsstring) (w : world) :
  trim text_ <> [] ->
  ~ takes w (todos (addTodo now text_ w)) ->
  world_of (addTodo now text_ w) =
    saveTodosToStorage
      (set_todos (todos w ++ [{| id := of_Z now; text := trim text_;
                                 completed := false |}]) w).
Proof.
  rewrite addTodo_todos. intros Hn H. unfold addTodo.
  destruct (trim text_) as [|c r]; [now elim Hn|].
  now rewrite then_refused.
Qed.

Lemma addTodo_todos_nonblank (now : Z) (text_ : jsstring) (w : world) :
  trim text_ <> [] ->
  todos (addTodo now text_ w) =
    todos w ++ [{| id := of_Z now; text := trim text_; completed := false |}].
Proof.
  intros H. rewrite addTodo_todos.
  destruct (trim text_); [now elim H | reflexivity].
Qed.

Lemma addTodo_blank (now : Z) (text_ : jsstring) (w : world) :
  trim text_ = [] ->
  addTodo now text_ w =
    Normal None (setTodoMessage (lit "Please enter a todo before adding.") w).
Proof. intros H. unfold addTodo. now rewrite H. Qed.

Lemma addTodo_setItem_calls (now : Z) (text_ : jsstring) (w : world) :
  setItem_calls (addTodo now text_ w) =
    match trim text_ with
    | [] => setItem_calls w
    | _ :: _ =>
        (STORAGE_KEY,
         JSON.stringify (JArray (map todo_value (todos (addTodo now text_ w)))))
        :: setItem_calls w
    end.
Proof.
  rewrite addTodo_todos. unfold addTodo.
  destruct (trim text_); [reflexivity|]. write_cases; fields.
Qed.

Lemma cons_neq {A : Type} (x : A) (l : list A) : x :: l <> l.
Proof.
  intros H. apply (f_equal (@length A)) in H. cbn [length] in H. lia.
Qed.

Lemma addTodo_agreements (now : Z) (text_ : jsstring) (w : world) :
  setItem_calls (addTodo now text_ w) = setItem_calls w \/
  takes w (todos (addTodo now text_ w)) ->
  (stored w -> stored (addTodo now text_ w)) /\
  (rendered w -> rendered (addTodo now text_ w)) /\
  (counted w -> counted (addTodo now text_ w)).
Proof.
  intros H. destruct (trim text_) as [|c r] eqn:E.
  - rewrite (addTodo_blank _ _ _ E). now apply agreements_kept.
  - assert (Hn : trim text_ <> []) by (rewrite E; discriminate).
    destruct H as [H | H].
    { rewrite addTodo_setItem_calls, E in H. now apply cons_neq in H. }
    rewrite (addTodo_taken _ _ _ Hn H).
    rewrite (addTodo_todos_nonblank _ _ _ Hn) in H.
    set (w0 := set_todos _ w) in *.
    pose proof (commit_stored w0 H) as Hs. pose proof (commit_rendered w0) as Hr.
    pose proof (commit_counted w0) as Hc.
    set (w1 := updateTodoCounter (renderTodos (saveTodosToStorage w0))) in *.
    destruct (agreements_kept w1 (resetInput (setTodoMessage [] w1)))
      as (H1 & H2 & H3); try reflexivity.
    auto.
Qed.

Lemma toggle_agreements (id_ : number) (w : world) :
  takes w (todos (toggleTodoCompleted id_ w)) ->
  stored (toggleTodoCompleted id_ w) /\
  rendered (toggleTodoCompleted id_ w) /\
  counted (toggleTodoCompleted id_ w).
Proof.
  intros H. rewrite (toggleTodoCompleted_taken _ _ H).
  rewrite toggleTodoCompleted_todos in H.
  split; [now apply commit_stored
         | split; [apply commit_rendered | apply commit_counted]].
Qed.

Lemma delete_agreements (id_ : number) (w : world) :
  takes w (todos (deleteTodo id_ w)) ->
  stored (deleteTodo id_ w) /\
  rendered (deleteTodo id_ w) /\
  counted (deleteTodo id_ w).
Proof.
  intros H. rewrite (deleteTodo_taken _ _ H).
  rewrite deleteTodo_todos in H.
  split; [now apply commit_stored
         | split; [apply commit_rendered | apply commit_counted]].
Qed.

Lemma setFilter_agreements (filter_ : jsstring) (w : world) :
  (stored w -> stored (setFilter filter_ w)) /\
  rendered (setFilter filter_ w) /\
  (counted w -> counted (setFilter filter_ w)).
Proof.
  unfold setFilter, stored, rendered, counted, localStorage_getItem.
  autorewrite with frame. simpl. repeat split; try tauto.
  apply renderTodos_todoList; now autorewrite with frame.
Qed.

Lemma dispatch_agreements (e : event) (w : world) :
  unrefused e w ->
  (stored w -> stored (dispatch e w)) /\
  (rendered w -> rendered (dispatch e w)) /\
  (counted w -> counted (dispatch e w)).
Proof.
  unfold unrefused.
  destruct e as [v | now | n | n | f]; cbn [dispatch]; intros H.
  - now apply agreements_kept.
  - rewrite handleFormSubmit_world in *. now apply addTodo_agreements.
  - destruct (nth_error (todoList w) n) as [[m | t]|]; try tauto.
    destruct H as [H | H].
    { rewrite toggleTodoCompleted_setItem_calls in H. now apply cons_neq in H. }
    destruct (toggle_agreements (id t) w H) as (? & ? & ?). auto.
  - destruct (nth_error (todoList w) n) as [[m | t]|]; try tauto.
    destruct H as [H | H].
    { rewrite deleteTodo_setItem_calls in H. now apply cons_neq in H. }
    destruct (delete_agreements (id t) w H) as (? & ? & ?). auto.
  - destruct (setFilter_agreements f w) as (? & ? & ?). auto.
Qed.

Lemma session_agreements (events : list event) (w : world) :
  all_unrefused events w ->
  (stored w -> stored (session events w)) /\
  (rendered w -> rendered (session events w)) /\
  (counted w -> counted (session events w)).
Proof.
  revert w. induction events as [|e rest IH]; intros w; [tauto|].
  cbn [session all_unrefused]. intros [He Hr].
  destruct (dispatch_agreements e w He) as (H1 & H2 & H3).
  destruct (IH (dispatch e w) Hr) as (H4 & H5 & H6). auto.
Qed.

Lemma init_rendered (w : world) : rendered (init w).
Proof.
  unfold init, rendered. apply renderTodos_todoList; now autorewrite with frame.
Qed.

(** The store answers the same before and after an event. *)
Lemma setFilter_localStorage (filter_ : jsstring) (w : world) :
  localStorage (setFilter filter_ w) = localStorage w.
Proof. unfold setFilter. now autorewrite with frame. Qed.

Lemma dispatch_accepts (e : event) (w : world) :
  accepts (localStorage (dispatch e w)) = accepts (localStorage w).
Proof.
  destruct e as [v | now | n | n | f]; cbn [dispatch].
  - reflexivity.
  - rewrite handleFormSubmit_world. unfold addTodo.
    destruct (trim (todoInput w)); [reflexivity|]. write_cases; fields.
  - destruct (nth_error (todoList w) n) as [[m | t]|]; try reflexivity.
    unfold toggleTodoCompleted. write_cases; fields.
  - destruct (nth_error (todoList w) n) as [[m | t]|]; try reflexivity.
    unfold deleteTodo. write_cases; fields.
  - now rewrite setFilter_localStorage.
Qed.

(** A store with room for every array refuses nothing. *)
Lemma roomy_unrefused (events : list event) (w : world) :
  roomy w -> all_unrefused events w.
Proof.
  revert w. induction events as [|e rest IH]; intros w H; [exact I|].
  cbn [all_unrefused]. split; [right; apply H|].
  apply IH. intros l. unfold takes. rewrite dispatch_accepts. apply H.
Qed.

(** The same for the events of a given session, one by one. *)
Ltac no_refusal :=
  cbn [all_unrefused];
  repeat (split;
          [first [right; vm_compute; reflexivity
                 | left; vm_compute; reflexivity] |]);
  exact I.

(** X6.  Once the store holds the text of the array, it does so after
    every event of the page, as long as the store refuses no write: each
    change of the array is written before the listener returns, and nothing
    else touches either. *)
Theorem X6_store_mirrors_array (events : list event) (w : world) :
  all_unrefused events w -> stored w -> stored (session events w).
Proof. intros H. now apply session_agreements. Qed.

Lemma X6_store_mirrors_array_witness :
  let w := addTodo 1700000000000 (lit "a") fresh in
  let events := [InputText (lit " b "); SubmitForm 1700000000005;
                 ChangeCheckbox 0; ClickFilter (lit "pending");
                 ClickDelete 0] in
  all_unrefused events w /\ stored w /\ stored (session events w).
Proof.
  cbv zeta.
  assert (Hu : all_unrefused
                 [InputText (lit " b "); SubmitForm 1700000000005;
                  ChangeCheckbox 0; ClickFilter (lit "pending");
                  ClickDelete 0]
                 (addTodo 1700000000000 (lit "a") fresh)) by no_refusal.
  assert (H : stored (addTodo 1700000000000 (lit "a") fresh)) by reflexivity.
  split; [exact Hu|]. split; [exact H|].
  exact (X6_store_mirrors_array _ _ Hu H).
Defined.

(** X7.  From [init] on, through every event of the page, as long as the
    store refuses no write, the list shown is the one [renderTodos] draws
    for the array and the filter of the moment: it is never empty, its todo
    elements are exactly the visible todos in their order, and the
    empty-state line is there exactly when no todo is visible. *)
Theorem X7_list_shows_visible_todos (events : list event) (w : world) :
  all_unrefused events (init w) ->
  let w' := session events (init w) in
  rendered w' /\
  todoList w' <> [] /\
  (getFilteredTodos w' <> [] ->
   todoList w' = map TodoElement (getFilteredTodos w')) /\
  (getFilteredTodos w' = [] -> exists message, todoList w' = [EmptyItem message]).
Proof.
  intros Hu. cbv zeta.
  pose proof (proj1 (proj2 (session_agreements events (init w) Hu))
                (init_rendered w)) as H.
  set (w' := session events (init w)) in *.
  split; [exact H|]. unfold rendered in H. rewrite H. unfold renderTodos.
  destruct (getFilteredTodos w') as [|t l]; cbn [todoList set_todoList].
  - repeat split; [discriminate | intros E; now elim E | eauto].
  - repeat split; [discriminate | discriminate].
Qed.

Lemma X7_list_shows_visible_todos_witness :
  let events := [InputText (lit "a"); SubmitForm 1700000000000;
                 InputText (lit "b"); SubmitForm 1700000000001;
                 ChangeCheckbox 0; ClickFilter (lit "pending")] in
  let w' := session events (init fresh) in
  all_unrefused events (init fresh) /\
  rendered w' /\
  todoList w' =
    [TodoElement {| id := of_Z 1700000000001; text := lit "b";
                    completed := false |}].
Proof.
  cbv zeta.
  assert (Hu : all_unrefused
                 [InputText (lit "a"); SubmitForm 1700000000000;
                  InputText (lit "b"); SubmitForm 1700000000001;
                  ChangeCheckbox 0; ClickFilter (lit "pending")]
                 (init fresh)) by no_refusal.
  pose proof (X7_list_shows_visible_todos _ fresh Hu) as H.
  cbv zeta in H. destruct H as (H1 & _ & H3 & _).
  split; [exact Hu|]. split; [exact H1|].
  rewrite H3; [vm_compute; reflexivity | vm_compute; discriminate].
Defined.

(** X8.  From [init] on, through every event of the page, as long as the
    store refuses no write, the counter shows the summary of the array in
    memory: its length and the numbers of its items that are not completed
    and that are. *)
Theorem X8_counter_shows_array (events : list event) (w : world) :
  all_unrefused events (init w) ->
  let l := todos (session events (init w)) in
  todoCount (session events (init w)) =
    lit "Total: " ++ nat_text (length l) ++ lit " | Pending: " ++
    nat_text (how_many false l) ++ lit " | Completed: " ++
    nat_text (how_many true l).
Proof.
  intros Hu. cbv zeta. rewrite <- counter_text_spelled.
  apply (proj2 (proj2 (session_agreements events (init w) Hu))).
  apply init_counter_in_sync.
Qed.

Lemma X8_counter_shows_array_witness :
  let events := [InputText (lit "a"); SubmitForm 1700000000000;
                 InputText (lit "b"); SubmitForm 1700000000001;
                 ChangeCheckbox 0] in
  all_unrefused events (init fresh) /\
  todoCount (session events (init fresh)) =
    lit "Total: 2 | Pending: 1 | Completed: 1".
Proof.
  cbv zeta.
  assert (Hu : all_unrefused
                 [InputText (lit "a"); SubmitForm 1700000000000;
                  InputText (lit "b"); SubmitForm 1700000000001;
                  ChangeCheckbox 0]
                 (init fresh)) by no_refusal.
  split; [exact Hu|].
  rewrite (X8_counter_shows_array _ fresh Hu).
  vm_compute. reflexivity.
Defined.

(** ** Saving and loading, whatever the ids *)

Lemma stringify_reloaded_values (l : list todo) :
  JSON.stringify (JArray (map reloaded_value l)) =
  JSON.stringify (JArray (map todo_value l)).
Proof.
  cbn [JSON.stringify]. do 2 f_equal. rewrite !join_commas_map.
  apply join_commas_ext. intros [i tx c]. unfold todo_value, reloaded_value.
  cbn [id text completed JSON.stringify JSON.join_commas fst snd].
  destruct i as [| b | m e]; try reflexivity.
  cbn [isFinite JSON.stringify]. change (decimal m e) with (canon (Finite m e)).
  assert (Hf : isFinite (canon (Finite m e)) = true)
    by (unfold canon, decimal; now destruct (normalize m e)).
  now rewrite Hf, Number_toString_canon.
Qed.

Lemma clean_reloaded_values (l : list todo) :
  JSON.clean (JArray (map reloaded_value l)) = true.
Proof.
  cbn [JSON.clean]. apply forallb_forall. intros v Hv.
  apply in_map_iff in Hv. destruct Hv as (t & <- & _).
  destruct t as [i tx c]. unfold reloaded_value. cbn [id text completed].
  destruct i as [| b | m e]; try reflexivity.
  cbn [isFinite canon]. pose proof (canonical_decimal m e) as Hc.
  destruct (decimal m e) as [| b | m' e'] eqn:E;
    try (unfold decimal in E; destruct (normalize m e); discriminate E).
  simpl in Hc. simpl. rewrite Hc, !Z.eqb_refl. reflexivity.
Qed.

Lemma Array_map_reloaded_value (l : list todo) :
  Array_map load_item (map reloaded_value l) = Some (map reloaded l).
Proof.
  induction l as [|t l IH]; [reflexivity|].
  cbn [map Array_map]. rewrite IH.
  destruct t as [i tx c]. destruct i as [| b | m e]; reflexivity.
Qed.

(** What [loadTodosFromStorage] makes of a store that holds the text of the
    array. *)
Lemma load_stored (w : world) :
  stored w -> todos (loadTodosFromStorage w) = map reloaded (todos w).
Proof.
  unfold stored. intros Hs.
  pose proof (parse_stringify _ (clean_reloaded_values (todos w))) as Hp.
  rewrite stringify_reloaded_values in Hp.
  unfold loadTodosFromStorage. rewrite Hs.
  destruct (JSON.stringify (JArray (map todo_value (todos w)))) as [|c r] eqn:E;
    [discriminate E|].
  rewrite Hp, Array_map_reloaded_value. reflexivity.
Qed.


Lemma init_todos (w : world) : todos (init w) = todos (loadTodosFromStorage w).
Proof. unfold init. now autorewrite with frame. Qed.





(** ** What is written, and where *)

Lemma setFilter_setItem_calls (filter_ : jsstring) (w : world) :
  setItem_calls (setFilter filter_ w) = setItem_calls w.
Proof. unfold setFilter. now autorewrite with frame. Qed.

Ltac other_key H :=
  unfold localStorage_getItem; write_cases; autorewrite with frame;
  cbn [updateTodoCounter set_todoCount setTodoMessage resetInput set_todoInput
       set_localStorage localStorage entries];
  autorewrite with frame;
  cbn [set_localStorage localStorage entries];
  try reflexivity;
  unfold string_eqb;
  match goal with
  | |- context [list_eq_dec N.eq_dec ?k STORAGE_KEY] =>
      destruct (list_eq_dec N.eq_dec k STORAGE_KEY);
      [now elim H | reflexivity]
  end.

Lemma addTodo_other_keys (now : Z) (text_ key : jsstring) (w : world) :
  key <> STORAGE_KEY ->
  localStorage_getItem key (addTodo now text_ w) = localStorage_getItem key w.
Proof.
  intros H. unfold addTodo. destruct (trim text_); [reflexivity|].
  other_key H.
Qed.

Lemma toggleTodoCompleted_other_keys (id_ : number) (key : jsstring) (w : world) :
  key <> STORAGE_KEY ->
  localStorage_getItem key (toggleTodoCompleted id_ w) =
    localStorage_getItem key w.
Proof. intros H. unfold toggleTodoCompleted. other_key H. Qed.

Lemma deleteTodo_other_keys (id_ : number) (key : jsstring) (w : world) :
  key <> STORAGE_KEY ->
  localStorage_getItem key (deleteTodo id_ w) = localStorage_getItem key w.
Proof. intros H. unfold deleteTodo. other_key H. Qed.

(** An event makes no write or one, of the text of the new array under the
    key of the script, and leaves every other key alone. *)
Lemma dispatch_writes (e : event) (w : world) :
  (setItem_calls (dispatch e w) = setItem_calls w /\
   localStorage (dispatch e w) = localStorage w) \/
  (setItem_calls (dispatch e w) =
     (STORAGE_KEY,
      JSON.stringify (JArray (map todo_value (todos (dispatch e w)))))
     :: setItem_calls w /\
   forall key, key <> STORAGE_KEY ->
     localStorage_getItem key (dispatch e w) = localStorage_getItem key w).
Proof.
  destruct e as [v | now | n | n | f]; cbn [dispatch].
  - left. split; reflexivity.
  - rewrite handleFormSubmit_world.
    destruct (trim (todoInput w)) as [|c r] eqn:E.
    + left. rewrite (addTodo_blank _ _ _ E). split; reflexivity.
    + right. split.
      * rewrite addTodo_setItem_calls, E. reflexivity.
      * intros key. apply addTodo_other_keys.
  - destruct (nth_error (todoList w) n) as [[m | t]|];
      [left; split; reflexivity | | left; split; reflexivity].
    right. split.
    + rewrite toggleTodoCompleted_todos. apply toggleTodoCompleted_setItem_calls.
    + intros key. apply toggleTodoCompleted_other_keys.
  - destruct (nth_error (todoList w) n) as [[m | t]|];
      [left; split; reflexivity | | left; split; reflexivity].
    right. split.
    + apply deleteTodo_setItem_calls.
    + intros key. apply deleteTodo_other_keys.
  - left. split; [apply setFilter_setItem_calls | apply setFilter_localStorage].
Qed.

(** X11.  The script keeps to its own key: whatever the events, the value
    stored under any other key is the one that was there. *)
Theorem X11_other_keys_untouched (events : list event) (key : jsstring)
    (w : world) :
  key <> STORAGE_KEY ->
  localStorage_getItem key (session events w) = localStorage_getItem key w.
Proof.
  intros Hk. revert w. induction events as [|e rest IH]; intros w;
    [reflexivity|].
  cbn [session]. rewrite IH.
  destruct (dispatch_writes e w) as [[_ H] | [_ H]].
  - unfold localStorage_getItem. now rewrite H.
  - now apply H.
Qed.

Lemma X11_other_keys_untouched_witness :
  let w := localStorage_setItem (lit "theme") (lit "dark") fresh in
  let events := [InputText (lit "a"); SubmitForm 1700000000000;
                 ChangeCheckbox 0; ClickDelete 0] in
  lit "theme" <> STORAGE_KEY /\
  localStorage_getItem (lit "theme") (session events w) = Some (lit "dark").
Proof.
  cbv zeta.
  assert (H : lit "theme" <> STORAGE_KEY) by discriminate.
  split; [exact H | exact (X11_other_keys_untouched _ _ _ H)].
Defined.

(** X12.  The writes of a sequence of events come on top of the earlier
    ones, at most one for each event, every one under the key of the
    script; filter clicks and typing make none. *)
Theorem X12_session_writes (events : list event) (w : world) :
  exists writes,
    setItem_calls (session events w) = (writes ++ setItem_calls w)%list /\
    length writes <= length events /\
    Forall (fun call => fst call = STORAGE_KEY) writes /\
    ((forall e, In e events ->
        match e with InputText _ | ClickFilter _ => True | _ => False end) ->
     writes = []).
Proof.
  revert w. induction events as [|e rest IH]; intros w.
  - exists []. repeat split; auto.
  - cbn [session]. destruct (IH (dispatch e w)) as (ws & H1 & H2 & H3 & H4).
    destruct (dispatch_writes e w) as [[Hw _] | [Hw _]].
    + exists ws. rewrite H1, Hw. split; [reflexivity|].
      split; [cbn [length]; lia|]. split; [exact H3|].
      intros He. apply H4. intros e' He'. apply He. now right.
    + exists (ws ++ [(STORAGE_KEY,
                      JSON.stringify
                        (JArray (map todo_value (todos (dispatch e w)))))])%list.
      rewrite H1, Hw, <- app_assoc. split; [reflexivity|].
      split; [rewrite length_app; cbn [length]; lia|].
      split; [apply Forall_app; split; [exact H3 | now constructor]|].
      intros He. exfalso.
      assert (Hs : setItem_calls (dispatch e w) = setItem_calls w).
      { specialize (He e (or_introl eq_refl)).
        destruct e; try contradiction; cbn [dispatch];
          [reflexivity | apply setFilter_setItem_calls]. }
      rewrite Hs in Hw. apply (f_equal (@length _)) in Hw.
      cbn [length] in Hw. lia.
Qed.

Lemma perform_writes (i : intent) (w : world) :
  length (setItem_calls (perform i w)) =
    (if effective i then 1 else 0) + length (setItem_calls w).
Proof.
  destruct i as [now text_ | id_ | id_]; cbn [perform effective].
  - rewrite addTodo_setItem_calls. now destruct (trim text_) as [|c r].
  - now rewrite toggleTodoCompleted_setItem_calls.
  - now rewrite deleteTodo_setItem_calls.
Qed.

(** X13.  A run of intents writes the store once for each intent other
    than an add of blank text: toggles and deletes count whether or not
    they matched an item. *)
Theorem X13_one_write_per_effective_intent (intents : list intent) (w : world) :
  length (setItem_calls (run intents w)) =
    length (filter effective intents) + length (setItem_calls w).
Proof.
  revert w. induction intents as [|i rest IH]; intros w; [reflexivity|].
  cbn [run filter]. rewrite IH, perform_writes.
  destruct (effective i); cbn [length]; lia.
Qed.

(** ** The form *)

(** The page after an add of text that is not blank: with the write taken
    the field and the message are emptied; with the write refused the call
    stopped before it drew anything, and the page shows what it showed. *)
Lemma addTodo_page_taken (now : Z) (text_ : jsstring) (w : world) :
  trim text_ <> [] ->
  takes w (todos (addTodo now text_ w)) ->
  todoInput (addTodo now text_ w) = [] /\
  todoMessage (addTodo now text_ w) = [].
Proof.
  intros Hn H. rewrite (addTodo_taken _ _ _ Hn H). split; reflexivity.
Qed.

Lemma saveTodosToStorage_refused_page (w0 : world) :
  ~ takes w0 (todos w0) ->
  localStorage (saveTodosToStorage w0) = localStorage w0 /\
  todoList (saveTodosToStorage w0) = todoList w0 /\
  todoCount (saveTodosToStorage w0) = todoCount w0 /\
  todoMessage (saveTodosToStorage w0) = todoMessage w0 /\
  todoInput (saveTodosToStorage w0) = todoInput w0.
Proof.
  intros H. destruct (saveTodosToStorage_throws w0 H) as [_ Hs].
  destruct (saveTodosToStorage_untouched w0)
    as (_ & _ & _ & Hm & Hi & Hc & Hl & _).
  repeat split; assumption.
Qed.

Lemma addTodo_page_refused (now : Z) (text_ : jsstring) (w : world) :
  trim text_ <> [] ->
  ~ takes w (todos (addTodo now text_ w)) ->
  localStorage (addTodo now text_ w) = localStorage w /\
  todoList (addTodo now text_ w) = todoList w /\
  todoCount (addTodo now text_ w) = todoCount w /\
  todoMessage (addTodo now text_ w) = todoMessage w /\
  todoInput (addTodo now text_ w) = todoInput w.
Proof.
  intros Hn H. rewrite (addTodo_refused _ _ _ Hn H).
  rewrite (addTodo_todos_nonblank _ _ _ Hn) in H.
  exact (saveTodosToStorage_refused_page (set_todos _ w) H).
Qed.

Lemma toggleTodoCompleted_page_refused (id_ : number) (w : world) :
  ~ takes w (todos (toggleTodoCompleted id_ w)) ->
  localStorage (toggleTodoCompleted id_ w) = localStorage w /\
  todoList (toggleTodoCompleted id_ w) = todoList w /\
  todoCount (toggleTodoCompleted id_ w) = todoCount w /\
  todoMessage (toggleTodoCompleted id_ w) = todoMessage w /\
  todoInput (toggleTodoCompleted id_ w) = todoInput w.
Proof.
  intros H. rewrite (toggleTodoCompleted_refused _ _ H).
  rewrite toggleTodoCompleted_todos in H.
  exact (saveTodosToStorage_refused_page (set_todos _ w) H).
Qed.

Lemma deleteTodo_page_refused (id_ : number) (w : world) :
  ~ takes w (todos (deleteTodo id_ w)) ->
  localStorage (deleteTodo id_ w) = localStorage w /\
  todoList (deleteTodo id_ w) = todoList w /\
  todoCount (deleteTodo id_ w) = todoCount w /\
  todoMessage (deleteTodo id_ w) = todoMessage w /\
  todoInput (deleteTodo id_ w) = todoInput w.
Proof.
  intros H. rewrite (deleteTodo_refused _ _ H).
  rewrite deleteTodo_todos in H.
  exact (saveTodosToStorage_refused_page (set_todos _ w) H).
Qed.

(** X14.  Submitting the form.  With nothing but white space in the field
    the array and the store stay as they are, the field keeps what was
    typed and the advice is shown.  Otherwise one todo with the trimmed
    text of the field, not completed, comes at the end of the array.  When
    the store takes the write, the field is emptied and the message
    cleared, and submitting again at once adds nothing.  When the store
    refuses it, the call stops there: the field and the message stay, and
    submitting again adds the same text a second time. *)
Theorem X14_submit (now now' : Z) (w : world) :
  let w' := handleFormSubmit now w in
  let added :=
    (todos w ++ [{| id := of_Z now; text := trim (todoInput w);
                    completed := false |}])%list in
  (trim (todoInput w) = [] ->
     todos w' = todos w /\ localStorage w' = localStorage w /\
     todoInput w' = todoInput w /\
     todoMessage w' = lit "Please enter a todo before adding." /\
     todos (handleFormSubmit now' w') = todos w') /\
  (trim (todoInput w) <> [] ->
     todos w' = added /\
     (takes w added ->
        todoInput w' = [] /\ todoMessage w' = [] /\
        todos (handleFormSubmit now' w') = todos w') /\
     (~ takes w added ->
        todoInput w' = todoInput w /\ todoMessage w' = todoMessage w /\
        todos (handleFormSubmit now' w') =
          (added ++ [{| id := of_Z now'; text := trim (todoInput w);
                        completed := false |}])%list)).
Proof.
  cbv zeta. rewrite !handleFormSubmit_world. split.
  - intros E. rewrite (addTodo_blank _ _ _ E).
    cbn [world_of setTodoMessage todoInput todos localStorage todoMessage].
    rewrite (addTodo_blank _ _ _ E). repeat split.
  - intros Hn. pose proof (addTodo_todos_nonblank now _ w Hn) as Ht.
    split; [exact Ht|]. split; intros H; rewrite <- Ht in H.
    + destruct (addTodo_page_taken _ _ _ Hn H) as [Hi Hm].
      split; [exact Hi|]. split; [exact Hm|].
      rewrite addTodo_todos, Hi. reflexivity.
    + destruct (addTodo_page_refused _ _ _ Hn H) as (_ & _ & _ & Hm & Hi).
      split; [exact Hi|]. split; [exact Hm|].
      rewrite addTodo_todos, Hi, Ht.
      destruct (trim (todoInput w)); [now elim Hn | reflexivity].
Qed.

(** ** Trimmed texts *)

Lemma trimStart_idempotent (s : jsstring) : trimStart (trimStart s) = trimStart s.
Proof.
  induction s as [|c r IH]; [reflexivity|].
  cbn [trimStart]. destruct (is_white_space c) eqn:E; [exact IH|].
  cbn [trimStart]. now rewrite E.
Qed.

Lemma trimStart_app (l m : jsstring) (c : codeunit) :
  is_white_space c = false ->
  trimStart (l ++ c :: m) = (trimStart l ++ c :: m)%list.
Proof.
  intros Hc. induction l as [|a l IH]; cbn [app trimStart].
  - now rewrite Hc.
  - destruct (is_white_space a); [exact IH | reflexivity].
Qed.

Lemma trimEnd_cons (c : codeunit) (r : jsstring) :
  is_white_space c = false -> trimEnd (c :: r) = c :: trimEnd r.
Proof.
  intros Hc. unfold trimEnd. cbn [rev].
  rewrite (trimStart_app _ [] _ Hc), rev_app_distr. reflexivity.
Qed.

Lemma trimStart_head (s : jsstring) :
  trimStart s = [] \/
  exists c r, trimStart s = c :: r /\ is_white_space c = false.
Proof.
  induction s as [|c r IH]; [now left|].
  cbn [trimStart]. destruct (is_white_space c) eqn:E; [exact IH|].
  right. now exists c, r.
Qed.

Lemma trimEnd_idempotent (s : jsstring) : trimEnd (trimEnd s) = trimEnd s.
Proof.
  unfold trimEnd. now rewrite rev_involutive, trimStart_idempotent.
Qed.

(** [text.trim().trim()] is [text.trim()]. *)
Lemma trim_idempotent (s : jsstring) : trim (trim s) = trim s.
Proof.
  unfold trim. destruct (trimStart_head s) as [-> | (c & r & -> & Hc)].
  - reflexivity.
  - rewrite (trimEnd_cons _ _ Hc). cbn [trimStart]. rewrite Hc.
    rewrite <- (trimEnd_cons _ _ Hc). apply trimEnd_idempotent.
Qed.

Lemma trimmed_texts_dispatch (e : event) (w : world) :
  Forall (fun t => trimmed (text t)) (todos w) ->
  Forall (fun t => trimmed (text t)) (todos (dispatch e w)).
Proof.
  intros H. destruct e as [v | now | n | n | f]; cbn [dispatch].
  - exact H.
  - rewrite handleFormSubmit_world, addTodo_todos.
    destruct (trim (todoInput w)) as [|c r] eqn:E; [exact H|].
    apply Forall_app. split; [exact H|]. constructor; [|constructor].
    cbn [text]. split; [discriminate|]. rewrite <- E. apply trim_idempotent.
  - destruct (nth_error (todoList w) n) as [[m | t]|]; try exact H.
    rewrite toggleTodoCompleted_todos. apply Forall_map.
    eapply Forall_impl; [|exact H]. intros a Ha. now rewrite toggled_text.
  - destruct (nth_error (todoList w) n) as [[m | t]|]; try exact H.
    rewrite deleteTodo_todos. apply Forall_forall. intros a Ha.
    apply filter_In in Ha. rewrite Forall_forall in H. now apply H.
  - now rewrite setFilter_todos.
Qed.

(** X15.  The texts stay trimmed.  When every text in the array is
    non-empty and has no white space at either end, it is so after every
    sequence of events: the form only ever appends a trimmed, non-empty
    text. *)
Theorem X15_texts_stay_trimmed (events : list event) (w : world) :
  Forall (fun t => trimmed (text t)) (todos w) ->
  Forall (fun t => trimmed (text t)) (todos (session events w)).
Proof.
  revert w. induction events as [|e rest IH]; intros w H; [exact H|].
  cbn [session]. apply IH. now apply trimmed_texts_dispatch.
Qed.

Lemma X15_texts_stay_trimmed_witness :
  let w := addTodo 1700000000000 (lit "  buy milk ") fresh in
  let events := [InputText (lit "   "); SubmitForm 1700000000001;
                 InputText (lit " call  home  "); SubmitForm 1700000000002;
                 ChangeCheckbox 1] in
  Forall (fun t => trimmed (text t)) (todos w) /\
  Forall (fun t => trimmed (text t)) (todos (session events w)).
Proof.
  cbv zeta.
  assert (H : Forall (fun t => trimmed (text t))
                (todos (addTodo 1700000000000 (lit "  buy milk ") fresh))).
  { constructor; [|constructor]. split; [discriminate | reflexivity]. }
  split; [exact H | exact (X15_texts_stay_trimmed _ _ H)].
Defined.

(** ** The filter buttons *)

Lemma world_eq (a b : world) :
  todos a = todos b -> currentFilter a = currentFilter b ->
  localStorage a = localStorage b -> setItem_calls a = setItem_calls b ->
  console a = console b -> todoMessage a = todoMessage b ->
  todoInput a = todoInput b -> todoCount a = todoCount b ->
  todoList a = todoList b -> filterButtons a = filterButtons b ->
  a = b.
Proof. destruct a, b. cbn. intros. now subst. Qed.

Lemma string_eqb_eq (a b : jsstring) : string_eqb a b = true <-> a = b.
Proof.
  unfold string_eqb. destruct (list_eq_dec N.eq_dec a b); split; auto;
    discriminate.
Qed.

Lemma setFilter_currentFilter (filter_ : jsstring) (w : world) :
  currentFilter (setFilter filter_ w) = filter_.
Proof. unfold setFilter. now autorewrite with frame. Qed.

Lemma setFilter_filterButtons (filter_ : jsstring) (w : world) :
  filterButtons (setFilter filter_ w) =
    map (fun b =>
           let isActive :=
             match data_filter b with
             | Some buttonFilter => string_eqb buttonFilter filter_
             | None => false
             end in
           {| data_filter := data_filter b; active := isActive;
              aria_pressed := if isActive then lit "true" else lit "false" |})
        (filterButtons w).
Proof. unfold setFilter. now autorewrite with frame. Qed.

Lemma setFilter_untouched (filter_ : jsstring) (w : world) :
  console (setFilter filter_ w) = console w /\
  todoMessage (setFilter filter_ w) = todoMessage w /\
  todoInput (setFilter filter_ w) = todoInput w /\
  todoCount (setFilter filter_ w) = todoCount w.
Proof. unfold setFilter. now autorewrite with frame. Qed.

(** X16.  After [setFilter(filter)] the filter is that name and every
    button shows it: a button is active exactly when its [data-filter] is
    the name, [aria-pressed] says the same, and the buttons keep their
    [data-filter] and their order.  Of two filter choices in a row only the
    second one shows: the page is as if the first had not been made. *)
Theorem X16_setFilter_buttons (filter_ earlier : jsstring) (w : world) :
  currentFilter (setFilter filter_ w) = filter_ /\
  Forall (pressed filter_) (filterButtons (setFilter filter_ w)) /\
  map data_filter (filterButtons (setFilter filter_ w)) =
    map data_filter (filterButtons w) /\
  setFilter filter_ (setFilter earlier w) = setFilter filter_ w.
Proof.
  split; [apply setFilter_currentFilter|].
  split; [| split].
  - rewrite setFilter_filterButtons. apply Forall_map, Forall_forall.
    intros b _. unfold pressed. cbn [active data_filter aria_pressed].
    split; [|reflexivity].
    destruct (data_filter b) as [name|].
    + rewrite string_eqb_eq. split; [now intros -> | now intros [= ->]].
    + split; discriminate.
  - rewrite setFilter_filterButtons, map_map. reflexivity.
  - destruct (setFilter_untouched filter_ (setFilter earlier w))
      as (A1 & A2 & A3 & A4).
    destruct (setFilter_untouched filter_ w) as (B1 & B2 & B3 & B4).
    destruct (setFilter_untouched earlier w) as (C1 & C2 & C3 & C4).
    apply world_eq; try congruence.
    + now rewrite !setFilter_todos.
    + now rewrite !setFilter_currentFilter.
    + now rewrite !setFilter_localStorage.
    + now rewrite !setFilter_setItem_calls.
    + unfold setFilter at 1 3. apply renderTodos_todoList.
      * reflexivity.
      * cbn [todos set_filterButtons set_currentFilter].
        apply setFilter_todos.
    + rewrite !setFilter_filterButtons, map_map. reflexivity.
Qed.

(** X17.  A name that is neither [pending] nor [completed] filters nothing:
    after [setFilter] with such a name the whole array is visible, as
    under [all]. *)
Theorem X17_other_filter_names_show_all (filter_ : jsstring) (w : world) :
  filter_ <> lit "pending" -> filter_ <> lit "completed" ->
  getFilteredTodos (setFilter filter_ w) = todos w.
Proof.
  intros Hp Hc. unfold getFilteredTodos.
  rewrite setFilter_currentFilter, setFilter_todos.
  destruct (string_eqb filter_ (lit "pending")) eqn:E1;
    [apply string_eqb_eq in E1; contradiction|].
  destruct (string_eqb filter_ (lit "completed")) eqn:E2;
    [apply string_eqb_eq in E2; contradiction|].
  reflexivity.
Qed.

Lemma X17_other_filter_names_show_all_witness :
  let w := run [Add 1700000000000 (lit "a"); Add 1700000000001 (lit "b");
                Toggle (of_Z 1700000000000)] fresh in
  lit "Pending" <> lit "pending" /\ lit "Pending" <> lit "completed" /\
  getFilteredTodos (setFilter (lit "Pending") w) = todos w.
Proof.
  cbv zeta.
  assert (Hp : lit "Pending" <> lit "pending") by discriminate.
  assert (Hc : lit "Pending" <> lit "completed") by discriminate.
  split; [exact Hp|]. split; [exact Hc|].
  exact (X17_other_filter_names_show_all _ _ Hp Hc).
Defined.

(** ** Opening the page *)


Lemma loadTodosFromStorage_reads (w w' : world) :
  localStorage w = localStorage w' ->
  todos (loadTodosFromStorage w) = todos (loadTodosFromStorage w').
Proof.
  intros H. unfold loadTodosFromStorage, localStorage_getItem. rewrite H.
  destruct (entries (localStorage w') STORAGE_KEY) as [[|c r]|];
    try reflexivity.
  destruct (JSON.parse (c :: r)) as [[| b | x | s | l | m]|]; try reflexivity.
  destruct (Array_map load_item l); reflexivity.
Qed.


(** ** Ids from the clock *)

Lemma clocked_weaken (b b' : Z) (l : list todo) :
  (b <= b')%Z -> clocked b l -> clocked b' l.
Proof.
  intros Hb (zs & Hm & Hs & Hf). exists zs. repeat split; auto.
  eapply Forall_impl; [|exact Hf]. cbv beta. intros z Hz. lia.
Qed.

Lemma clocked_filter (p : todo -> bool) (b : Z) (l : list todo) :
  clocked b l -> clocked b (filter p l).
Proof.
  intros (zs & Hm & Hs & Hf).
  enough (H : exists zs', map id (filter p l) = map of_Z zs' /\
                          StronglySorted Z.lt zs' /\ incl zs' zs).
  { destruct H as (zs' & Hm' & Hs' & Hi). exists zs'. repeat split; auto.
    rewrite Forall_forall in *. intros z Hz. apply Hf, Hi, Hz. }
  clear Hf. revert zs Hm Hs. induction l as [|a l IH]; intros zs Hm Hs.
  - exists []. repeat split; [constructor | intros z []].
  - destruct zs as [|z zs]; [discriminate Hm|].
    cbn [map] in Hm. injection Hm as Ha Hm.
    apply StronglySorted_inv in Hs. destruct Hs as [Hs Hz].
    destruct (IH zs Hm Hs) as (zs' & Hm' & Hs' & Hi).
    cbn [filter]. destruct (p a).
    + exists (z :: zs'). cbn [map]. rewrite Ha, Hm'.
      split; [reflexivity|]. split.
      * constructor; [exact Hs'|]. rewrite Forall_forall in *.
        intros y Hy. apply Hz, Hi, Hy.
      * intros y [<- | Hy]; [now left | right; now apply Hi].
    + exists zs'. repeat split; auto. intros y Hy. right. now apply Hi.
Qed.

Lemma clocked_append (b now : Z) (l : list todo) (t : todo) :
  clocked b l -> (b <= now)%Z -> id t = of_Z now ->
  clocked (now + 1) (l ++ [t]).
Proof.
  intros (zs & Hm & Hs & Hf) Hb Ht. exists (zs ++ [now])%list.
  rewrite !map_app. cbn [map]. rewrite Hm, Ht. split; [reflexivity|].
  split.
  - clear Hm. induction zs as [|z zs IH]; cbn [app].
    + repeat constructor.
    + apply StronglySorted_inv in Hs. destruct Hs as [Hs Hz].
      inversion Hf as [|? ? Hzb Hf']; subst.
      constructor; [now apply IH|].
      apply Forall_app. split; [exact Hz|]. constructor; [lia | constructor].
  - apply Forall_app. split.
    + eapply Forall_impl; [|exact Hf]. cbv beta. intros z Hz. lia.
    + constructor; [lia | constructor].
Qed.

Lemma clocked_perform (b : Z) (i : intent) (w : world) :
  clocked b (todos w) ->
  match i with
  | Add now _ => (b <= now)%Z -> clocked (now + 1) (todos (perform i w))
  | _ => clocked b (todos (perform i w))
  end.
Proof.
  intros H. destruct i as [now text_ | id_ | id_]; cbn [perform].
  - intros Hb. rewrite addTodo_todos. destruct (trim text_) as [|c r].
    + apply (clocked_weaken b); [lia | exact H].
    + now apply (clocked_append b).
  - rewrite toggleTodoCompleted_todos.
    destruct H as (zs & Hm & Hs & Hf). exists zs. repeat split; auto.
    rewrite <- Hm, map_map. apply map_ext. apply toggled_id.
  - rewrite deleteTodo_todos. now apply clocked_filter.
Qed.

Lemma clocked_run (b : Z) (intents : list intent) (w : world) :
  clocked b (todos w) -> chronological b intents ->
  exists b', clocked b' (todos (run intents w)).
Proof.
  revert b w. induction intents as [|i rest IH]; intros b w H Hc.
  - now exists b.
  - cbn [run]. pose proof (clocked_perform b i w H) as Hp.
    destruct i as [now text_ | id_ | id_]; cbn [chronological] in Hc.
    + destruct Hc as [Hb Hc]. exact (IH _ _ (Hp Hb) Hc).
    + exact (IH _ _ Hp Hc).
    + exact (IH _ _ Hp Hc).
Qed.

Lemma clocked_In (b : Z) (l : list todo) (zs : list Z) (u : todo) :
  map id l = map of_Z zs -> In u l -> exists y, In y zs /\ id u = of_Z y.
Proof.
  intros Hm Hu. apply (in_map id) in Hu. rewrite Hm in Hu.
  apply in_map_iff in Hu. destruct Hu as (y & Hy & Hin). now exists y.
Qed.

Lemma clocked_distinct (b : Z) (l1 l2 : list todo) (t : todo) :
  clocked b (l1 ++ t :: l2) ->
  number_strict_eq (id t) (id t) = true /\
  forall u, In u (l1 ++ l2) -> number_strict_eq (id u) (id t) = false.
Proof.
  intros (zs & Hm & Hs & _). revert zs Hm Hs.
  induction l1 as [|a l1 IH]; intros zs Hm Hs;
    (destruct zs as [|z zs]; [discriminate Hm|]);
    cbn [app map] in Hm; injection Hm as Ha Hm;
    apply StronglySorted_inv in Hs; destruct Hs as [Hs Hz];
    rewrite Forall_forall in Hz.
  - rewrite Ha, number_strict_eq_of_Z, Z.eqb_refl. split; [reflexivity|].
    intros u Hu. destruct (clocked_In b _ _ _ Hm Hu) as (y & Hy & ->).
    rewrite number_strict_eq_of_Z. apply Z.eqb_neq. specialize (Hz y Hy). lia.
  - destruct (IH zs Hm Hs) as [Ht Hu]. split; [exact Ht|].
    intros u [<- | Hin]; [|now apply Hu].
    assert (Hin : In t (l1 ++ t :: l2)) by (apply in_elt).
    destruct (clocked_In b _ _ _ Hm Hin) as (y & Hy & ->).
    rewrite Ha, number_strict_eq_of_Z. apply Z.eqb_neq.
    specialize (Hz y Hy). lia.
Qed.

(** X19.  When the clock has moved on between any two adds, ids are
    not shared.  Starting from an array whose ids are clock readings in
    increasing order, all before [t0], a run of intents whose adds carry
    later and later readings leaves an array in which every id is [===]
    to itself and to the id of no other item. *)
Theorem X19_clock_ids_distinct (t0 : Z) (intents : list intent) (w : world) :
  clocked t0 (todos w) -> chronological t0 intents ->
  forall l1 t l2, todos (run intents w) = (l1 ++ t :: l2)%list ->
    number_strict_eq (id t) (id t) = true /\
    forall u, In u (l1 ++ l2) -> number_strict_eq (id u) (id t) = false.
Proof.
  intros H Hc l1 t l2 E.
  destruct (clocked_run t0 intents w H Hc) as (b' & Hb').
  rewrite E in Hb'. exact (clocked_distinct b' l1 l2 t Hb').
Qed.

Lemma X19_clock_ids_distinct_witness :
  let intents := [Add 1700000000000 (lit "a"); Add 1700000000001 (lit "b");
                  Toggle (of_Z 1700000000000); Add 1700000000007 (lit "c");
                  Delete (of_Z 1700000000001)] in
  clocked 0 (todos fresh) /\ chronological 0 intents /\
  forall l1 t l2, todos (run intents fresh) = (l1 ++ t :: l2)%list ->
    number_strict_eq (id t) (id t) = true /\
    forall u, In u (l1 ++ l2) -> number_strict_eq (id u) (id t) = false.
Proof.
  cbv zeta.
  assert (H : clocked 0 (todos fresh))
    by (exists []; repeat split; constructor).
  assert (Hc : chronological 0
                 [Add 1700000000000 (lit "a"); Add 1700000000001 (lit "b");
                  Toggle (of_Z 1700000000000); Add 1700000000007 (lit "c");
                  Delete (of_Z 1700000000001)])
    by (cbn [chronological]; lia).
  split; [exact H|]. split; [exact Hc|].
  exact (X19_clock_ids_distinct 0 _ fresh H Hc).
Defined.

(** ** One id, one item *)

Lemma map_toggled_others (id_ : number) (l : list todo) :
  (forall u, In u l -> number_strict_eq (id u) id_ = false) ->
  map (toggled id_) l = l.
Proof.
  intros H. rewrite <- (map_id l) at 2. apply map_ext_in.
  intros u Hu. unfold toggled. now rewrite (H u Hu).
Qed.

Lemma filter_others (id_ : number) (l : list todo) :
  (forall u, In u l -> number_strict_eq (id u) id_ = false) ->
  filter (fun t => negb (number_strict_eq (id t) id_)) l = l.
Proof.
  intros H. induction l as [|a l IH]; [reflexivity|].
  cbn [filter]. rewrite (H a (or_introl eq_refl)). cbn [negb].
  f_equal. apply IH. intros u Hu. apply H. now right.
Qed.

Lemma unique_id_one (w : world) (l1 l2 : list todo) (t : todo) :
  todos w = (l1 ++ t :: l2)%list ->
  number_strict_eq (id t) (id t) = true ->
  (forall u, In u (l1 ++ l2) -> number_strict_eq (id u) (id t) = false) ->
  todos (toggleTodoCompleted (id t) w) =
    (l1 ++ {| id := id t; text := text t; completed := negb (completed t) |}
        :: l2)%list /\
  todos (deleteTodo (id t) w) = (l1 ++ l2)%list.
Proof.
  intros E Ht Hu.
  assert (H1 : forall u, In u l1 -> number_strict_eq (id u) (id t) = false)
    by (intros u Hin; apply Hu, in_or_app; now left).
  assert (H2 : forall u, In u l2 -> number_strict_eq (id u) (id t) = false)
    by (intros u Hin; apply Hu, in_or_app; now right).
  split.
  - rewrite toggleTodoCompleted_todos, E, map_app. cbn [map].
    rewrite (map_toggled_others _ _ H1), (map_toggled_others _ _ H2).
    unfold toggled at 1. now rewrite Ht.
  - rewrite deleteTodo_todos, E, filter_app. cbn [filter].
    rewrite Ht. cbn [negb].
    now rewrite (filter_others _ _ H1), (filter_others _ _ H2).
Qed.

(** X20.  When an item's id is a Number other than NaN that no other
    item of the array shares, [toggleTodoCompleted] with that id negates
    the completed flag of that item and changes nothing else, and
    [deleteTodo] with that id removes that item and nothing else; the
    items before and after keep their places. *)
Theorem X20_unique_id_acts_on_one (w : world) (l1 l2 : list todo) (t : todo) :
  todos w = (l1 ++ t :: l2)%list ->
  number_strict_eq (id t) (id t) = true ->
  (forall u, In u (l1 ++ l2) -> number_strict_eq (id u) (id t) = false) ->
  todos (toggleTodoCompleted (id t) w) =
    (l1 ++ {| id := id t; text := text t; completed := negb (completed t) |}
        :: l2)%list /\
  todos (deleteTodo (id t) w) = (l1 ++ l2)%list.
Proof. apply unique_id_one. Qed.

Lemma X20_unique_id_acts_on_one_witness :
  let a := {| id := of_Z 1700000000000; text := lit "a"; completed := false |} in
  let b := {| id := of_Z 1700000000001; text := lit "b"; completed := true |} in
  let c := {| id := of_Z 1700000000002; text := lit "c"; completed := false |} in
  let w := set_todos [a; b; c] fresh in
  todos (toggleTodoCompleted (id b) w) =
    [a; {| id := id b; text := lit "b"; completed := false |}; c] /\
  todos (deleteTodo (id b) w) = [a; c].
Proof.
  cbv zeta.
  apply (X20_unique_id_acts_on_one
           (set_todos _ fresh)
           [{| id := of_Z 1700000000000; text := lit "a"; completed := false |}]
           [{| id := of_Z 1700000000002; text := lit "c"; completed := false |}]
           {| id := of_Z 1700000000001; text := lit "b"; completed := true |}).
  - reflexivity.
  - reflexivity.
  - intros u [<- | [<- | []]]; reflexivity.
Defined.

(** ** The listeners of a todo element *)

Lemma listeners_visible (n : nat) (w : world) :
  rendered w ->
  (forall t, nth_error (getFilteredTodos w) n = Some t ->
     dispatch (ChangeCheckbox n) w = toggleTodoCompleted (id t) w /\
     dispatch (ClickDelete n) w = deleteTodo (id t) w) /\
  (nth_error (getFilteredTodos w) n = None ->
     dispatch (ChangeCheckbox n) w = w /\ dispatch (ClickDelete n) w = w).
Proof.
  unfold rendered. intros H. cbn [dispatch]. rewrite H. unfold renderTodos.
  destruct (getFilteredTodos w) as [|a l] eqn:E; cbn [todoList set_todoList].
  - split.
    + intros t Ht. destruct n; discriminate Ht.
    + intros _. destruct n as [|[|n]]; split; reflexivity.
  - unfold createTodoElement. rewrite nth_error_map.
    destruct (nth_error (a :: l) n) as [t|]; cbn [option_map].
    + split; [|discriminate]. intros t' [= <-]. split; reflexivity.
    + split; [discriminate|]. intros _. split; reflexivity.
Qed.

(** X21.  When the list on the page is up to date, the checkbox and the
    delete button of the [n]-th line act on the [n]-th visible todo: they
    call [toggleTodoCompleted] and [deleteTodo] with the id of that todo.
    Where there is no such line, or only the empty-state line, nothing
    happens. *)
Theorem X21_listeners_act_on_visible (n : nat) (w : world) :
  rendered w ->
  (forall t, nth_error (getFilteredTodos w) n = Some t ->
     dispatch (ChangeCheckbox n) w = toggleTodoCompleted (id t) w /\
     dispatch (ClickDelete n) w = deleteTodo (id t) w) /\
  (nth_error (getFilteredTodos w) n = None ->
     dispatch (ChangeCheckbox n) w = w /\ dispatch (ClickDelete n) w = w).
Proof. apply listeners_visible. Qed.

Lemma X21_listeners_act_on_visible_witness :
  let w := session [InputText (lit "a"); SubmitForm 1700000000000;
                    InputText (lit "b"); SubmitForm 1700000000001;
                    ChangeCheckbox 0; ClickFilter (lit "pending")] (init fresh) in
  let b := {| id := of_Z 1700000000001; text := lit "b"; completed := false |} in
  rendered w /\
  nth_error (getFilteredTodos w) 0 = Some b /\
  nth_error (getFilteredTodos w) 1 = None /\
  dispatch (ChangeCheckbox 0) w = toggleTodoCompleted (id b) w /\
  dispatch (ClickDelete 1) w = w.
Proof.
  cbv zeta.
  match goal with |- rendered ?x /\ _ => set (w := x) end.
  assert (H : rendered w) by (vm_compute; reflexivity).
  assert (H0 : nth_error (getFilteredTodos w) 0 =
               Some {| id := of_Z 1700000000001; text := lit "b";
                       completed := false |}) by (vm_compute; reflexivity).
  assert (H1 : nth_error (getFilteredTodos w) 1 = None)
    by (vm_compute; reflexivity).
  split; [exact H|]. split; [exact H0|]. split; [exact H1|]. split.
  - exact (proj1 (proj1 (X21_listeners_act_on_visible 0 w H) _ H0)).
  - exact (proj2 (proj2 (X21_listeners_act_on_visible 1 w H) H1)).
Defined.

(** ** Leaving the view *)

(** X22.  Under the [pending] or the [completed] filter, a toggle takes
    its items out of the list: when every item with the id was visible
    before [toggleTodoCompleted], none of them is visible after it. *)
Theorem X22_toggled_items_leave_view (id_ : number) (w : world) :
  currentFilter w = lit "pending" \/ currentFilter w = lit "completed" ->
  (forall u, In u (todos w) -> number_strict_eq (id u) id_ = true ->
             In u (getFilteredTodos w)) ->
  forall u, In u (getFilteredTodos (toggleTodoCompleted id_ w)) ->
            number_strict_eq (id u) id_ = false.
Proof.
  intros Hf Hv u. unfold getFilteredTodos in *.
  assert (Hc : currentFilter (toggleTodoCompleted id_ w) = currentFilter w)
    by (unfold toggleTodoCompleted; write_cases; fields).
  rewrite Hc, toggleTodoCompleted_todos.
  destruct Hf as [Hf | Hf]; rewrite Hf in *; cbn in Hv |- *;
    intros Hu; apply filter_In in Hu; destruct Hu as [Hu Hp];
    apply in_map_iff in Hu; destruct Hu as (u0 & <- & Hu0);
    rewrite toggled_id;
    destruct (number_strict_eq (id u0) id_) eqn:E; try reflexivity;
    specialize (Hv u0 Hu0 E); apply filter_In in Hv; destruct Hv as [_ Hv];
    unfold toggled in Hp; rewrite E in Hp; cbn [completed] in Hp;
    rewrite Hv in Hp; discriminate Hp.
Qed.

Lemma X22_toggled_items_leave_view_witness :
  let w := session [InputText (lit "a"); SubmitForm 1700000000000;
                    InputText (lit "b"); SubmitForm 1700000000001;
                    ClickFilter (lit "pending")] (init fresh) in
  (currentFilter w = lit "pending" \/ currentFilter w = lit "completed") /\
  Forall (fun u => number_strict_eq (id u) (of_Z 1700000000000) = false)
    (getFilteredTodos (toggleTodoCompleted (of_Z 1700000000000) w)).
Proof.
  cbv zeta.
  match goal with |- (currentFilter ?x = _ \/ _) /\ _ => set (w := x) end.
  assert (Hf : currentFilter w = lit "pending" \/
               currentFilter w = lit "completed")
    by (left; vm_compute; reflexivity).
  assert (Hv : forall u, In u (todos w) ->
                 number_strict_eq (id u) (of_Z 1700000000000) = true ->
                 In u (getFilteredTodos w)).
  { intros u Hu _. replace (getFilteredTodos w) with (todos w);
      [exact Hu | vm_compute; reflexivity]. }
  split; [exact Hf|]. apply Forall_forall.
  exact (X22_toggled_items_leave_view (of_Z 1700000000000) w Hf Hv).
Defined.

(** ** A line and its todo, through a whole session *)

Lemma clocked_dispatch (b : Z) (e : event) (w : world) :
  clocked b (todos w) ->
  match e with
  | SubmitForm now => (b <= now)%Z -> clocked (now + 1) (todos (dispatch e w))
  | _ => clocked b (todos (dispatch e w))
  end.
Proof.
  intros H. destruct e as [v | now | n | n | f]; cbn [dispatch].
  - exact H.
  - intros Hb. rewrite handleFormSubmit_world.
    exact (clocked_perform b (Add now (todoInput w)) w H Hb).
  - destruct (nth_error (todoList w) n) as [[m | t]|]; try exact H.
    exact (clocked_perform b (Toggle (id t)) w H).
  - destruct (nth_error (todoList w) n) as [[m | t]|]; try exact H.
    exact (clocked_perform b (Delete (id t)) w H).
  - now rewrite setFilter_todos.
Qed.

Lemma clocked_session (b : Z) (events : list event) (w : world) :
  clocked b (todos w) -> punctual b events ->
  exists b', clocked b' (todos (session events w)).
Proof.
  revert b w. induction events as [|e rest IH]; intros b w H Hp.
  - now exists b.
  - cbn [session]. pose proof (clocked_dispatch b e w H) as Hd.
    destruct e as [v | now | n | n | f]; cbn [punctual] in Hp;
      try exact (IH _ _ Hd Hp).
    destruct Hp as [Hb Hp]. exact (IH _ _ (Hd Hb) Hp).
Qed.

Lemma getFilteredTodos_In (t : todo) (w : world) :
  In t (getFilteredTodos w) -> In t (todos w).
Proof.
  unfold getFilteredTodos.
  destruct (string_eqb (currentFilter w) (lit "pending")).
  - intros H. now apply filter_In in H.
  - destruct (string_eqb (currentFilter w) (lit "completed")); [|auto].
    intros H. now apply filter_In in H.
Qed.

(** X23.  Through a whole session the checkbox and the delete button of a
    line act on the todo of that line and on no other.  Start from a page
    whose list is up to date and whose ids are increasing clock readings
    before [t0], let every submit carry a later clock reading than the
    one before, and let the store refuse no write: then after any such
    sequence of events, whatever the filter shows, the checkbox of the [n]-th line negates the completed flag of
    the [n]-th visible todo where it stands in the array, the delete button
    removes it from there, and the rest of the array keeps its order. *)
Theorem X23_line_acts_on_its_todo (t0 : Z) (events : list event) (w : world)
    (n : nat) (t : todo) :
  clocked t0 (todos w) -> rendered w -> punctual t0 events ->
  all_unrefused events w ->
  let w' := session events w in
  nth_error (getFilteredTodos w') n = Some t ->
  exists l1 l2,
    todos w' = (l1 ++ t :: l2)%list /\
    todos (dispatch (ChangeCheckbox n) w') =
      (l1 ++ {| id := id t; text := text t; completed := negb (completed t) |}
          :: l2)%list /\
    todos (dispatch (ClickDelete n) w') = (l1 ++ l2)%list.
Proof.
  intros Hc Hr Hp Hq. cbv zeta. intros Hn.
  destruct (clocked_session t0 events w Hc Hp) as (b' & Hb').
  pose proof (proj1 (proj2 (session_agreements events w Hq)) Hr) as Hr'.
  set (w' := session events w) in *.
  assert (Hin : In t (todos w'))
    by (eapply getFilteredTodos_In, nth_error_In; exact Hn).
  destruct (in_split _ _ Hin) as (l1 & l2 & E).
  rewrite E in Hb'. destruct (clocked_distinct b' l1 l2 t Hb') as [Ht Hu].
  destruct (proj1 (listeners_visible n w' Hr') t Hn) as [-> ->].
  exists l1, l2. split; [exact E|]. now apply unique_id_one.
Qed.

Lemma X23_line_acts_on_its_todo_witness :
  let events := [InputText (lit "a"); SubmitForm 1700000000000;
                 InputText (lit "b"); SubmitForm 1700000000001;
                 InputText (lit "c"); SubmitForm 1700000000002;
                 ChangeCheckbox 0; ClickFilter (lit "pending")] in
  let w' := session events (init fresh) in
  let b := {| id := of_Z 1700000000001; text := lit "b"; completed := false |} in
  clocked 0 (todos (init fresh)) /\ rendered (init fresh) /\
  punctual 0 events /\ all_unrefused events (init fresh) /\
  nth_error (getFilteredTodos w') 0 = Some b /\
  exists l1 l2,
    todos w' = (l1 ++ b :: l2)%list /\
    todos (dispatch (ChangeCheckbox 0) w') =
      (l1 ++ {| id := id b; text := text b; completed := negb (completed b) |}
          :: l2)%list /\
    todos (dispatch (ClickDelete 0) w') = (l1 ++ l2)%list.
Proof.
  cbv zeta.
  assert (Hc : clocked 0 (todos (init fresh)))
    by (exists []; repeat split; constructor).
  assert (Hr : rendered (init fresh)) by (vm_compute; reflexivity).
  assert (Hp : punctual 0
                 [InputText (lit "a"); SubmitForm 1700000000000;
                  InputText (lit "b"); SubmitForm 1700000000001;
                  InputText (lit "c"); SubmitForm 1700000000002;
                  ChangeCheckbox 0; ClickFilter (lit "pending")])
    by (cbn [punctual]; lia).
  assert (Hn : nth_error
                 (getFilteredTodos
                    (session
                       [InputText (lit "a"); SubmitForm 1700000000000;
                        InputText (lit "b"); SubmitForm 1700000000001;
                        InputText (lit "c"); SubmitForm 1700000000002;
                        ChangeCheckbox 0; ClickFilter (lit "pending")]
                       (init fresh))) 0 =
               Some {| id := of_Z 1700000000001; text := lit "b";
                       completed := false |})
    by (vm_compute; reflexivity).
  assert (Hu : all_unrefused
                 [InputText (lit "a"); SubmitForm 1700000000000;
                  InputText (lit "b"); SubmitForm 1700000000001;
                  InputText (lit "c"); SubmitForm 1700000000002;
                  ChangeCheckbox 0; ClickFilter (lit "pending")]
                 (init fresh)) by no_refusal.
  split; [exact Hc|]. split; [exact Hr|]. split; [exact Hp|].
  split; [exact Hu|]. split; [exact Hn|].
  exact (X23_line_acts_on_its_todo 0 _ (init fresh) 0 _ Hc Hr Hp Hu Hn).
Defined.

(** ** Drawing and counting *)

(** X24.  [renderTodos] and [updateTodoCounter] rebuild what they show:
    running either twice is running it once, and the two can run in either
    order, as [init] and the three operations on the array do. *)
Theorem X24_render_and_counter (w : world) :
  renderTodos (renderTodos w) = renderTodos w /\
  updateTodoCounter (updateTodoCounter w) = updateTodoCounter w /\
  renderTodos (updateTodoCounter w) = updateTodoCounter (renderTodos w).
Proof.
  split; [| split].
  - apply world_eq; autorewrite with frame; try reflexivity.
    apply renderTodos_todoList; now autorewrite with frame.
  - reflexivity.
  - apply world_eq; cbn [updateTodoCounter set_todoCount todos currentFilter
                         localStorage setItem_calls console todoMessage
                         todoInput todoCount todoList filterButtons];
      autorewrite with frame; try reflexivity.
    apply renderTodos_todoList; reflexivity.
Qed.

(** ** What the store is given to hold *)

Lemma parse_saved (l : list todo) :
  JSON.parse (JSON.stringify (JArray (map todo_value l))) =
    Some (JArray (map reloaded_value l)).
Proof.
  rewrite <- stringify_reloaded_values.
  apply parse_stringify, clean_reloaded_values.
Qed.

(** X25.  Every text the script writes during a session is one that
    [JSON.parse] accepts, and it parses to an array: the script never
    leaves in the store what its own [loadTodosFromStorage] would give
    up on. *)
Theorem X25_writes_parse (events : list event) (w : world) :
  exists writes,
    setItem_calls (session events w) = (writes ++ setItem_calls w)%list /\
    Forall (fun call => exists l, JSON.parse (snd call) = Some (JArray l)) writes.
Proof.
  revert w. induction events as [|e rest IH]; intros w.
  - exists []. split; [reflexivity | constructor].
  - cbn [session]. destruct (IH (dispatch e w)) as (ws & H1 & H2).
    destruct (dispatch_writes e w) as [[Hw _] | [Hw _]].
    + exists ws. rewrite H1, Hw. split; [reflexivity | exact H2].
    + exists (ws ++ [(STORAGE_KEY,
                      JSON.stringify
                        (JArray (map todo_value (todos (dispatch e w)))))])%list.
      rewrite H1, Hw, <- app_assoc. split; [reflexivity|].
      apply Forall_app. split; [exact H2|]. constructor; [|constructor].
      cbn [snd]. eexists. apply parse_saved.
Qed.

(** ** The message and the text field *)

(** X26.  Only the form touches the message, and only typing and a
    submit touch the text field: a checkbox, a delete button or a filter
    button leaves both as they are, so the advice shown after a blank
    submit stays until a todo is added.  A submit of text that is not
    blank empties both when the store takes the write, and leaves both
    when the store refuses it. *)
Theorem X26_message_and_field (e : event) (w : world) :
  match e with
  | InputText value =>
      todoInput (dispatch e w) = value /\
      todoMessage (dispatch e w) = todoMessage w
  | SubmitForm _ =>
      match trim (todoInput w) with
      | [] =>
          todoInput (dispatch e w) = todoInput w /\
          todoMessage (dispatch e w) = lit "Please enter a todo before adding."
      | _ :: _ =>
          (takes w (todos (dispatch e w)) ->
           todoInput (dispatch e w) = [] /\ todoMessage (dispatch e w) = []) /\
          (~ takes w (todos (dispatch e w)) ->
           todoInput (dispatch e w) = todoInput w /\
           todoMessage (dispatch e w) = todoMessage w)
      end
  | _ =>
      todoInput (dispatch e w) = todoInput w /\
      todoMessage (dispatch e w) = todoMessage w
  end.
Proof.
  destruct e as [v | now | n | n | f]; cbn [dispatch].
  - split; reflexivity.
  - rewrite handleFormSubmit_world.
    destruct (trim (todoInput w)) as [|c r] eqn:E.
    + rewrite (addTodo_blank _ _ _ E). split; reflexivity.
    + assert (Hn : trim (todoInput w) <> []) by (rewrite E; discriminate).
      split; intros H.
      * now apply addTodo_page_taken.
      * destruct (addTodo_page_refused _ _ _ Hn H) as (_ & _ & _ & Hm & Hi).
        now split.
  - destruct (nth_error (todoList w) n) as [[m | t]|]; try (split; reflexivity).
    unfold toggleTodoCompleted. write_cases; fields; split; reflexivity.
  - destruct (nth_error (todoList w) n) as [[m | t]|]; try (split; reflexivity).
    unfold deleteTodo. write_cases; fields; split; reflexivity.
  - destruct (setFilter_untouched f w) as (_ & Hm & Hi & _). now split.
Qed.

(** ** The counter after an add *)

(** X27.  An add of text that is not blank raises the total and the
    pending count by one and leaves the completed count. *)
Theorem X27_add_counts (now : Z) (text_ : jsstring) (w : world) :
  trim text_ <> [] ->
  counts (todos (addTodo now text_ w)) =
    let '(total, pending, completed) := counts (todos w) in
    (S total, S pending, completed).
Proof.
  intros H. rewrite addTodo_todos.
  destruct (trim text_) as [|c r]; [now elim H|].
  unfold counts. rewrite !filter_app, !length_app. cbn [filter completed negb length app].
  rewrite !Nat.add_1_r, Nat.add_0_r. reflexivity.
Qed.

Lemma X27_add_counts_witness :
  let w := run [Add 1700000000000 (lit "a"); Toggle (of_Z 1700000000000)] fresh in
  trim (lit " b ") <> [] /\
  counts (todos (addTodo 1700000000001 (lit " b ") w)) = (2, 1, 1).
Proof.
  cbv zeta.
  assert (H : trim (lit " b ") <> []) by (vm_compute; discriminate).
  split; [exact H|].
  exact (X27_add_counts 1700000000001 (lit " b ") _ H).
Defined.

(** ** A write that the store refuses *)

Lemma perform_refused (i : intent) (w : world) :
  effective i = true ->
  ~ takes w (todos (perform i w)) ->
  localStorage (perform i w) = localStorage w /\
  todoList (perform i w) = todoList w /\
  todoCount (perform i w) = todoCount w /\
  todoMessage (perform i w) = todoMessage w /\
  todoInput (perform i w) = todoInput w.
Proof.
  destruct i as [now text_ | id_ | id_]; cbn [perform effective]; intros He H.
  - apply addTodo_page_refused; [|exact H].
    destruct (trim text_); [discriminate He | discriminate].
  - now apply toggleTodoCompleted_page_refused.
  - now apply deleteTodo_page_refused.
Qed.

(** X28.  When the store refuses the write of an add, a toggle or a delete,
    the call stops at the write: the array in memory is the new one and
    the [setItem] call was made, but the store, the list on the page, the
    counter, the message and the text field stay as they were.  If the
    store held the array of before, opening the page again brings that
    array back: the change is lost. *)
Theorem X28_refused_write (i : intent) (w : world) :
  effective i = true ->
  ~ takes w (todos (perform i w)) ->
  let w' := perform i w in
  length (setItem_calls w') = S (length (setItem_calls w)) /\
  localStorage w' = localStorage w /\
  todoList w' = todoList w /\
  todoCount w' = todoCount w /\
  todoMessage w' = todoMessage w /\
  todoInput w' = todoInput w /\
  (stored w -> todos (init w') = map reloaded (todos w)).
Proof.
  intros He H. cbv zeta.
  destruct (perform_refused i w He H) as (Hs & Hl & Hc & Hm & Hi).
  split; [rewrite perform_writes, He; reflexivity|].
  repeat (split; [assumption|]).
  intros Hst. rewrite init_todos.
  rewrite (loadTodosFromStorage_reads _ w Hs). now apply load_stored.
Qed.

Lemma X28_refused_write_witness :
  let w := full (addTodo 1700000000000 (lit "a") fresh) in
  let w' := perform (Add 1700000000001 (lit "b")) w in
  effective (Add 1700000000001 (lit "b")) = true /\
  ~ takes w (todos w') /\
  map text (todos w') = [lit "a"; lit "b"] /\
  todoList w' = todoList w /\
  map text (todos (init w')) = [lit "a"].
Proof.
  cbv zeta.
  set (w := full (addTodo 1700000000000 (lit "a") fresh)).
  assert (He : effective (Add 1700000000001 (lit "b")) = true) by reflexivity.
  assert (H : ~ takes w (todos (perform (Add 1700000000001 (lit "b")) w)))
    by (unfold takes; cbn [full set_localStorage localStorage accepts];
        discriminate).
  assert (Hst : stored w) by reflexivity.
  destruct (X28_refused_write (Add 1700000000001 (lit "b")) w He H)
    as (_ & _ & Hl & _ & _ & _ & Hi).
  split; [exact He|]. split; [exact H|].
  split; [vm_compute; reflexivity|]. split; [exact Hl|].
  rewrite (Hi Hst). vm_compute. reflexivity.
Defined.
